(** * VoiceNotes: a shallow embedding of [src/main.ts]

    The plugin records microphone audio, saves it in the vault, optionally
    sends it to a transcription endpoint and inserts the result in the active
    note.  This file embeds the plugin's functions and proves the properties
    its specification states about them.

    The texts of the notices are those of [src/main.ts]; the second copy of
    the file in the repository differs only by its Chinese texts.

    Conventions.
    - A JavaScript string is represented by the bytes of its UTF-8 encoding
      (a [string] of the Standard Library); [TextEncoder.encode] therefore
      returns exactly those bytes.
    - A [Uint8Array] and an [ArrayBuffer] are lists of bytes.
    - An [async] function is a program of the free monad [Prog]: it runs
      without interruption up to an [Await] of a host promise, where other
      handlers may run before it is resumed. *)

From Stdlib Require Import Strings.String Strings.Ascii Strings.Byte Lists.List.
From Stdlib Require Import ZArith Lia Bool DecimalString.
Import ListNotations.

Local Open Scope list_scope.
Local Open Scope string_scope.

Set Implicit Arguments.

(** ** Strings and bytes *)

Module Str.

Definition CR : string := String (ascii_of_nat 13) EmptyString.
Definition LF : string := String (ascii_of_nat 10) EmptyString.
Definition CRLF : string := CR ++ LF.
Definition DQ : string := String (ascii_of_nat 34) EmptyString.

(** [s.includes(sub)] *)
Fixpoint includes (sub s : string) : bool :=
  if String.prefix sub s then true
  else match s with
       | EmptyString => false
       | String _ t => includes sub t
       end.

(** [s.replace(/[:.]/g, '-')] *)
Fixpoint replaceColonDot (s : string) : string :=
  match s with
  | EmptyString => EmptyString
  | String a t =>
      String (if (Ascii.eqb a ":" || Ascii.eqb a ".")%bool then "-"%char else a)
             (replaceColonDot t)
  end.

(** Number of occurrences of the line feed: [s.split('\n').length - 1]. *)
Fixpoint countLF (s : string) : nat :=
  match s with
  | EmptyString => 0
  | String a t => (if Ascii.eqb a (ascii_of_nat 10) then 1 else 0) + countLF t
  end.

(** [s.split('\n')]: never empty, one more piece than there are line feeds. *)
Fixpoint splitLF (s : string) : list string :=
  match s with
  | EmptyString => [EmptyString]
  | String a t =>
      if Ascii.eqb a (ascii_of_nat 10) then EmptyString :: splitLF t
      else match splitLF t with
           | p :: ps => String a p :: ps
           | [] => [String a EmptyString]
           end
  end.

(** *** [String.prototype.trim]

    The white space and line terminators of ECMAScript, by their UTF-8
    encodings: U+0009 to U+000D and U+0020 (one byte), U+00A0 (C2 A0),
    U+1680 (E1 9A 80), U+2000 to U+200A, U+2028, U+2029 and U+202F
    (E2 80 xx), U+205F (E2 81 9F), U+3000 (E3 80 80) and U+FEFF (EF BB BF). *)

Definition ws1 (a : ascii) : bool :=
  let x := nat_of_ascii a in
  ((Nat.leb 9 x && Nat.leb x 13) || Nat.eqb x 32)%bool.

Definition ws2 (a b : ascii) : bool :=
  (Nat.eqb (nat_of_ascii a) 194 && Nat.eqb (nat_of_ascii b) 160)%bool.

Definition ws3 (a b c : ascii) : bool :=
  let x := nat_of_ascii a in
  let y := nat_of_ascii b in
  let z := nat_of_ascii c in
  ((Nat.eqb x 225 && Nat.eqb y 154 && Nat.eqb z 128)
   || (Nat.eqb x 226 && Nat.eqb y 128
       && ((Nat.leb 128 z && Nat.leb z 138) || Nat.eqb z 168 || Nat.eqb z 169
           || Nat.eqb z 175))
   || (Nat.eqb x 226 && Nat.eqb y 129 && Nat.eqb z 159)
   || (Nat.eqb x 227 && Nat.eqb y 128 && Nat.eqb z 128)
   || (Nat.eqb x 239 && Nat.eqb y 187 && Nat.eqb z 191))%bool.

(** Drops the white space a character sequence starts with. *)
Fixpoint dropWs (l : list ascii) : list ascii :=
  match l with
  | [] => []
  | a :: t1 =>
      if ws1 a then dropWs t1
      else match t1 with
           | [] => l
           | b :: t2 =>
               if ws2 a b then dropWs t2
               else match t2 with
                    | [] => l
                    | c :: t3 => if ws3 a b c then dropWs t3 else l
                    end
           end
  end.

(** The same on the reversed sequence: drops the white space it ends with. *)
Fixpoint dropWsRev (r : list ascii) : list ascii :=
  match r with
  | [] => []
  | a :: t1 =>
      if ws1 a then dropWsRev t1
      else match t1 with
           | [] => r
           | b :: t2 =>
               if ws2 b a then dropWsRev t2
               else match t2 with
                    | [] => r
                    | c :: t3 => if ws3 c b a then dropWsRev t3 else r
                    end
           end
  end.

Definition trim (s : string) : string :=
  string_of_list_ascii
    (rev (dropWsRev (rev (dropWs (list_ascii_of_string s))))).

(** JavaScript truthiness of a string: it is not empty. *)
Definition truthy (s : string) : bool := negb (String.eqb s "").

(** [`${n}`] for an integer [n]. *)
Definition ofZ (n : Z) : string := NilZero.string_of_int (Z.to_int n).

End Str.

Definition bytes := list byte.

(** [new TextEncoder().encode(s)] *)
Definition encode (s : string) : bytes := list_byte_of_string s.

(** ** Typed arrays *)

Module Uint8Array.

(** [new Uint8Array(n)]: [n] zero bytes. *)
Definition make (n : nat) : bytes := repeat x00 n.

(** [buf.set(part, offset)]; a [RangeError] ([None]) when the part does not
    fit. *)
Definition set (buf part : bytes) (offset : nat) : option bytes :=
  if Nat.leb (offset + List.length part) (List.length buf)
  then Some (firstn offset buf ++ part
             ++ skipn (offset + List.length part) buf)%list
  else None.

End Uint8Array.

(** ** The multipart body of [transcribeAudio] (lines 292-336) *)

(** The file name sent with the audio, chosen from the blob's type. *)
Definition uploadFilename (type : string) : string :=
  if Str.includes "webm" type then "audio.webm"
  else if (Str.includes "mp3" type || Str.includes "mpeg" type)%bool then "audio.mp3"
  else if Str.includes "wav" type then "audio.wav"
  else if Str.includes "ogg" type then "audio.ogg"
  else "audio.webm".

(** The array [formParts] after the twelve [push] calls. *)
Definition formParts (boundary filename type : string) (audioBytes : bytes)
  : list bytes :=
  [ encode ("--" ++ boundary ++ Str.CRLF);
    encode ("Content-Disposition: form-data; name=" ++ Str.DQ ++ "file" ++ Str.DQ
            ++ "; filename=" ++ Str.DQ ++ filename ++ Str.DQ ++ Str.CRLF);
    encode ("Content-Type: " ++ type ++ Str.CRLF ++ Str.CRLF);
    audioBytes;
    encode Str.CRLF;
    encode ("--" ++ boundary ++ Str.CRLF);
    encode ("Content-Disposition: form-data; name=" ++ Str.DQ ++ "model" ++ Str.DQ
            ++ Str.CRLF ++ Str.CRLF);
    encode ("whisper-1" ++ Str.CRLF);
    encode ("--" ++ boundary ++ Str.CRLF);
    encode ("Content-Disposition: form-data; name=" ++ Str.DQ ++ "language" ++ Str.DQ
            ++ Str.CRLF ++ Str.CRLF);
    encode ("zh" ++ Str.CRLF);
    encode ("--" ++ boundary ++ "--" ++ Str.CRLF) ].

(** [formParts.reduce((sum, part) => sum + part.length, 0)] *)
Definition totalLength (parts : list bytes) : nat :=
  fold_left (fun sum part => sum + List.length part) parts 0.

(** The loop
    [for (const part of formParts) { buf.set(part, offset); offset += part.length }]. *)
Fixpoint mergeLoop (parts : list bytes) (buf : bytes) (offset : nat)
  : option bytes :=
  match parts with
  | [] => Some buf
  | part :: rest =>
      match Uint8Array.set buf part offset with
      | Some buf' => mergeLoop rest buf' (offset + List.length part)
      | None => None
      end
  end.

Definition mergeParts (parts : list bytes) : option bytes :=
  mergeLoop parts (Uint8Array.make (totalLength parts)) 0.

(** The request body built for a blob of type [type] holding [audioBytes]. *)
Definition formDataBuffer (boundary type : string) (audioBytes : bytes)
  : option bytes :=
  mergeParts (formParts boundary (uploadFilename type) type audioBytes).

(** ** Data model *)

Record VoiceNotesSettings := {
  openaiApiKey : string;
  enableTranscription : bool
}.

Definition DEFAULT_SETTINGS : VoiceNotesSettings :=
  {| openaiApiKey := ""; enableTranscription := false |}.

(** A [Blob]: its bytes and its type; [size] is the number of bytes. *)
Record Blob := { blob_data : bytes; blob_type : string }.

Definition blob_size (b : Blob) : nat := List.length (blob_data b).

(** [new Blob(chunks, { type })]: the chunks' bytes in order.  The types the
    plugin passes are the lower-case ASCII literals of [formatOptions], which
    the constructor keeps as they are. *)
Definition newBlob (chunks : list Blob) (type : string) : Blob :=
  {| blob_data := List.concat (map blob_data chunks); blob_type := type |}.

Record MediaStream := { stream_id : nat }.

Record MediaRecorder := {
  rec_stream : MediaStream;
  rec_mimeType : string;
  rec_audioBitsPerSecond : Z
}.

Record RecordingState := {
  isRecording : bool;
  mediaRecorder : option MediaRecorder;
  stream : option MediaStream;
  audioChunks : list Blob;
  startTime : Z;
  mimeType : string
}.

(** [new RecordingState()] *)
Definition new_RecordingState : RecordingState :=
  {| isRecording := false; mediaRecorder := None; stream := None;
     audioChunks := []; startTime := 0; mimeType := "audio/webm" |}.

(** A JavaScript error: its [message] and, for a failed HTTP request, its
    [status]. *)
Record JsError := { message : string; status : option Z }.

(** [new Error(msg)] *)
Definition Error (msg : string) : JsError := {| message := msg; status := None |}.

Inductive Result (A : Type) : Type :=
| Ok (a : A)
| Err (e : JsError).
Arguments Ok {A} a.
Arguments Err {A} e.

(** *** The host: Obsidian and the browser *)

Record Pos := { line : nat; ch : nat }.

(** The editor of a markdown view: the document's lines and the cursor.
    [ed_fault] is the error its methods throw, if they throw. *)
Record Editor := {
  ed_lines : list string;
  ed_cursor : Pos;
  ed_fault : option JsError
}.

(** [workspace.activeLeaf]: its view's type and the view's [editor]. *)
Record Leaf := { viewType : string; editor : option Editor }.

(** [workspace.getActiveFile()]: only [parent?.path] is read. *)
Record TFile := { parent_path : option string }.

Record Host := {
  now : Z;                          (* Date.now() *)
  isoString : string;               (* new Date().toISOString() *)
  random36 : string;                (* Math.random().toString(36) *)
  supportedTypes : list string;     (* MediaRecorder.isTypeSupported *)
  recorderFault : option JsError;   (* thrown by new MediaRecorder(...) *)
  startFault : option JsError;      (* thrown by recorder.start(...) *)
  activeFile : option TFile;
  activeLeaf : option Leaf
}.

Definition isTypeSupported (h : Host) (type : string) : bool :=
  existsb (String.eqb type) (supportedTypes h).

Record Request := {
  url : string;
  method : string;
  headers : list (string * string);
  body : bytes
}.

(** The response of [requestUrl]: [json] and its [text] property. *)
Record Json := { json_text : option string }.
Record Response := { json : option Json }.

(** What [loadData] resolves to: null, or an object holding some of the
    settings' properties. *)
Record SettingsObject := {
  prop_openaiApiKey : option string;
  prop_enableTranscription : option bool
}.

(** The observable effects, in the order they happen. *)
Inductive Event : Type :=
| ENotice (text : string)
| EConsoleError (label : string) (e : JsError)
| EGetUserMedia
| ENewMediaRecorder (r : MediaRecorder)
| ERecorderStart (r : MediaRecorder) (timeslice : Z)
| ERecorderStop (r : MediaRecorder)
| ETracksStop (s : MediaStream)
| ESetTimeout (ms : Z)
| EArrayBuffer (b : Blob)
| ECreateBinary (path : string) (data : bytes)
| ERequestUrl (req : Request)
| ELoadData
| ESaveData (s : VoiceNotesSettings)
| EReplaceRange (text : string) (p : Pos)
| ESetCursor (l c : nat).

(** The plugin object and its surroundings. *)
Record World := {
  settings : VoiceNotesSettings;
  recordingState : RecordingState;
  statusBarItem : option string;    (* null, or the element with its text *)
  host : Host;
  trace : list Event
}.

Definition set_settings (s : VoiceNotesSettings) (w : World) : World :=
  {| settings := s; recordingState := recordingState w;
     statusBarItem := statusBarItem w; host := host w; trace := trace w |}.

Definition set_recordingState (rs : RecordingState) (w : World) : World :=
  {| settings := settings w; recordingState := rs;
     statusBarItem := statusBarItem w; host := host w; trace := trace w |}.

Definition set_statusBarItem (t : option string) (w : World) : World :=
  {| settings := settings w; recordingState := recordingState w;
     statusBarItem := t; host := host w; trace := trace w |}.

Definition set_host (h : Host) (w : World) : World :=
  {| settings := settings w; recordingState := recordingState w;
     statusBarItem := statusBarItem w; host := h; trace := trace w |}.

Definition log (e : Event) (w : World) : World :=
  {| settings := settings w; recordingState := recordingState w;
     statusBarItem := statusBarItem w; host := host w;
     trace := (trace w ++ [e])%list |}.

Definition set_isRecording (b : bool) (rs : RecordingState) : RecordingState :=
  {| isRecording := b; mediaRecorder := mediaRecorder rs; stream := stream rs;
     audioChunks := audioChunks rs; startTime := startTime rs;
     mimeType := mimeType rs |}.

Definition set_mediaRecorder (r : option MediaRecorder) (rs : RecordingState)
  : RecordingState :=
  {| isRecording := isRecording rs; mediaRecorder := r; stream := stream rs;
     audioChunks := audioChunks rs; startTime := startTime rs;
     mimeType := mimeType rs |}.

Definition set_stream (s : option MediaStream) (rs : RecordingState)
  : RecordingState :=
  {| isRecording := isRecording rs; mediaRecorder := mediaRecorder rs;
     stream := s; audioChunks := audioChunks rs; startTime := startTime rs;
     mimeType := mimeType rs |}.

Definition set_audioChunks (c : list Blob) (rs : RecordingState)
  : RecordingState :=
  {| isRecording := isRecording rs; mediaRecorder := mediaRecorder rs;
     stream := stream rs; audioChunks := c; startTime := startTime rs;
     mimeType := mimeType rs |}.

Definition set_startTime (t : Z) (rs : RecordingState) : RecordingState :=
  {| isRecording := isRecording rs; mediaRecorder := mediaRecorder rs;
     stream := stream rs; audioChunks := audioChunks rs; startTime := t;
     mimeType := mimeType rs |}.

Definition set_mimeType (m : string) (rs : RecordingState) : RecordingState :=
  {| isRecording := isRecording rs; mediaRecorder := mediaRecorder rs;
     stream := stream rs; audioChunks := audioChunks rs;
     startTime := startTime rs; mimeType := m |}.

(** ** Programs

    The promises of the host that the plugin awaits.  The index is the type
    of the value the promise resolves to. *)
Inductive ExtCall : Type -> Type :=
| GetUserMedia : ExtCall MediaStream
| ArrayBuffer (b : Blob) : ExtCall unit
| CreateBinary (path : string) (data : bytes) : ExtCall unit
| RequestUrl (req : Request) : ExtCall Response
| LoadData : ExtCall (option SettingsObject)
| SaveData (s : VoiceNotesSettings) : ExtCall unit.

Definition event_of_call {X : Type} (c : ExtCall X) : Event :=
  match c with
  | GetUserMedia => EGetUserMedia
  | ArrayBuffer b => EArrayBuffer b
  | CreateBinary path data => ECreateBinary path data
  | RequestUrl req => ERequestUrl req
  | LoadData => ELoadData
  | SaveData s => ESaveData s
  end.

(** A method of the plugin: it reads and writes the world, may throw, and
    may await a promise of the host. *)
Inductive Prog (A : Type) : Type :=
| Ret (a : A)
| Throw (e : JsError)
| Get (k : World -> Prog A)
| Put (w : World) (k : Prog A)
| Await (X : Type) (c : ExtCall X) (k : Result X -> Prog A).
Arguments Ret {A} a.
Arguments Throw {A} e.
Arguments Get {A} k.
Arguments Put {A} w k.
Arguments Await {A X} c k.

Fixpoint bind {A B : Type} (p : Prog A) (f : A -> Prog B) : Prog B :=
  match p with
  | Ret a => f a
  | Throw e => Throw e
  | Get k => Get (fun w => bind (k w) f)
  | Put w k => Put w (bind k f)
  | Await c k => Await c (fun r => bind (k r) f)
  end.

(** [try { p } catch (error) { h error }] *)
Fixpoint try_catch {A : Type} (p : Prog A) (h : JsError -> Prog A) : Prog A :=
  match p with
  | Ret a => Ret a
  | Throw e => h e
  | Get k => Get (fun w => try_catch (k w) h)
  | Put w k => Put w (try_catch k h)
  | Await c k => Await c (fun r => try_catch (k r) h)
  end.

Declare Scope prog_scope.
Delimit Scope prog_scope with prog.
Notation "x <- p ;; q" := (bind p (fun x => q))
  (at level 61, p at next level, right associativity) : prog_scope.
Notation "p ;; q" := (bind p (fun _ => q))
  (at level 61, right associativity) : prog_scope.
Local Open Scope prog_scope.

(** [await c]: the value of the promise, or its rejection thrown. *)
Definition await {X : Type} (c : ExtCall X) : Prog X :=
  Await c (fun r => match r with Ok v => Ret v | Err e => Throw e end).

Definition gets {B : Type} (f : World -> B) : Prog B :=
  Get (fun w => Ret (f w)).

Definition modify (f : World -> World) : Prog unit :=
  Get (fun w => Put (f w) (Ret tt)).

Definition emit (e : Event) : Prog unit := modify (log e).

(** [new Notice(text)] *)
Definition Notice (text : string) : Prog unit := emit (ENotice text).

(** [console.error(label, error)] *)
Definition console_error (label : string) (e : JsError) : Prog unit :=
  emit (EConsoleError label e).

(** An assignment to a field of [this.recordingState]. *)
Definition update_recordingState (f : RecordingState -> RecordingState)
  : Prog unit :=
  modify (fun w => set_recordingState (f (recordingState w)) w).

(** *** Semantics *)

(** How one uninterrupted run ends: with a result, or waiting for a promise. *)
Inductive Outcome (A : Type) : Type :=
| Done (r : Result A)
| Waiting (X : Type) (c : ExtCall X) (k : Result X -> Prog A).
Arguments Done {A} r.
Arguments Waiting {A X} c k.

(** Runs a program up to its next [Await]; the awaited call is logged. *)
Fixpoint run_sync {A : Type} (p : Prog A) (w : World) : World * Outcome A :=
  match p with
  | Ret a => (w, Done (Ok a))
  | Throw e => (w, Done (Err e))
  | Get k => run_sync (k w) w
  | Put w' k => run_sync k w'
  | Await c k => (log (event_of_call c) w, Waiting c k)
  end.

(** The host's answer to each promise. *)
Definition Oracle : Type := forall X : Type, ExtCall X -> Result X.

(** Runs a program to its end, no other handler running in between: every
    awaited promise is settled at once with the oracle's answer. *)
Fixpoint exec {A : Type} (o : Oracle) (p : Prog A) (w : World)
  : World * Result A :=
  match p with
  | Ret a => (w, Ok a)
  | Throw e => (w, Err e)
  | Get k => exec o (k w) w
  | Put w' k => exec o k w'
  | Await c k => exec o (k (o _ c)) (log (event_of_call c) w)
  end.

(** ** The host's synchronous interfaces *)

Module EditorModel.

(** The first piece continues the text before the insertion point. *)
Definition prependFirst (pre : string) (pieces : list string) : list string :=
  match pieces with
  | [] => [pre]
  | x :: rest => (pre ++ x) :: rest
  end.

(** The text after the insertion point continues the last piece. *)
Fixpoint appendLast (pieces : list string) (post : string) : list string :=
  match pieces with
  | [] => [post]
  | [x] => [x ++ post]
  | x :: rest => x :: appendLast rest post
  end.

(** [editor.replaceRange(text, p)] with no end position: [text] is inserted
    at [p]. *)
Definition replaceRange (text : string) (p : Pos) (ed : Editor) : Editor :=
  let cur := nth (line p) (ed_lines ed) "" in
  let pre := substring 0 (ch p) cur in
  let post := substring (ch p) (String.length cur - ch p) cur in
  {| ed_lines :=
       (firstn (line p) (ed_lines ed)
        ++ appendLast (prependFirst pre (Str.splitLF text)) post
        ++ skipn (S (line p)) (ed_lines ed))%list;
     ed_cursor := ed_cursor ed;
     ed_fault := ed_fault ed |}.

(** [editor.setCursor(l, c)], for a position of the document. *)
Definition setCursor (l c : nat) (ed : Editor) : Editor :=
  {| ed_lines := ed_lines ed; ed_cursor := {| line := l; ch := c |};
     ed_fault := ed_fault ed |}.

End EditorModel.

Definition set_editor (ed : Editor) (h : Host) : Host :=
  {| now := now h; isoString := isoString h; random36 := random36 h;
     supportedTypes := supportedTypes h; recorderFault := recorderFault h;
     startFault := startFault h; activeFile := activeFile h;
     activeLeaf :=
       match activeLeaf h with
       | Some lf => Some {| viewType := viewType lf; editor := Some ed |}
       | None => None
       end |}.

(** A method call on the active view's editor: it throws the editor's fault
    if there is one, else it is logged and applied to the document. *)
Definition editor_call {B : Type} (evs : Editor -> list Event)
  (f : Editor -> B * Editor) : Prog B :=
  Get (fun w =>
    match activeLeaf (host w) with
    | Some {| editor := Some ed |} =>
        match ed_fault ed with
        | Some e => Throw e
        | None =>
            Put {| settings := settings w; recordingState := recordingState w;
                   statusBarItem := statusBarItem w;
                   host := set_editor (snd (f ed)) (host w);
                   trace := (trace w ++ evs ed)%list |}
                (Ret (fst (f ed)))
        end
    | _ => Throw (Error "Cannot read properties of undefined")
    end).

Definition editor_getCursor : Prog Pos :=
  editor_call (fun _ => []) (fun ed => (ed_cursor ed, ed)).

Definition editor_replaceRange (text : string) (p : Pos) : Prog unit :=
  editor_call (fun _ => [EReplaceRange text p])
              (fun ed => (tt, EditorModel.replaceRange text p ed)).

Definition editor_setCursor (l c : nat) : Prog unit :=
  editor_call (fun _ => [ESetCursor l c])
              (fun ed => (tt, EditorModel.setCursor l c ed)).

(** [Date.now()] *)
Definition Date_now : Prog Z := gets (fun w => now (host w)).

(** [new MediaRecorder(stream, { mimeType, audioBitsPerSecond })] *)
Definition new_MediaRecorder (s : MediaStream) (type : string) (bits : Z)
  : Prog MediaRecorder :=
  Get (fun w =>
    match recorderFault (host w) with
    | Some e => Throw e
    | None =>
        let r := {| rec_stream := s; rec_mimeType := type;
                    rec_audioBitsPerSecond := bits |} in
        Put (log (ENewMediaRecorder r) w) (Ret r)
    end).

(** [recorder.start(timeslice)] *)
Definition recorder_start (r : MediaRecorder) (timeslice : Z) : Prog unit :=
  Get (fun w =>
    match startFault (host w) with
    | Some e => Throw e
    | None => Put (log (ERecorderStart r timeslice) w) (Ret tt)
    end).

(** [recorder.stop()] *)
Definition recorder_stop (r : MediaRecorder) : Prog unit := emit (ERecorderStop r).

(** [stream.getTracks().forEach(track => track.stop())] *)
Definition tracks_stop (s : MediaStream) : Prog unit := emit (ETracksStop s).

(** [setTimeout(callback, ms)]; the callback is the handler [onTimeout]. *)
Definition setTimeout (ms : Z) : Prog unit := emit (ESetTimeout ms).

(** [this.statusBarItem.setText(text)] on an existing element. *)
Definition statusBar_setText (text : string) : Prog unit :=
  modify (set_statusBarItem (Some text)).

(** [blob.arrayBuffer()], awaited: the blob's bytes. *)
Definition Blob_arrayBuffer (b : Blob) : Prog bytes :=
  await (ArrayBuffer b) ;; Ret (blob_data b).

(** ** [Object.assign] on settings objects *)

Definition emptyObject : SettingsObject :=
  {| prop_openaiApiKey := None; prop_enableTranscription := None |}.

Definition objectOf (s : VoiceNotesSettings) : SettingsObject :=
  {| prop_openaiApiKey := Some (openaiApiKey s);
     prop_enableTranscription := Some (enableTranscription s) |}.

(** Copies the properties the source has onto the target. *)
Definition assignOne (target source : SettingsObject) : SettingsObject :=
  {| prop_openaiApiKey :=
       match prop_openaiApiKey source with
       | Some v => Some v
       | None => prop_openaiApiKey target
       end;
     prop_enableTranscription :=
       match prop_enableTranscription source with
       | Some v => Some v
       | None => prop_enableTranscription target
       end |}.

(** [Object.assign(target, ...sources)]: the sources from left to right, a
    null source being skipped. *)
Definition Object_assign (target : SettingsObject)
  (sources : list (option SettingsObject)) : SettingsObject :=
  fold_left (fun t s => match s with Some o => assignOne t o | None => t end)
            sources target.

(** The object read at type [VoiceNotesSettings], which it has when it
    holds both properties.  A missing property reads as [undefined], which
    is no value of the declared types: nothing is assumed of it. *)
Definition asSettings (o : SettingsObject) : option VoiceNotesSettings :=
  match prop_openaiApiKey o, prop_enableTranscription o with
  | Some key, Some enable =>
      Some {| openaiApiKey := key; enableTranscription := enable |}
  | _, _ => None
  end.

(** ** The plugin (class [VoiceNotesPlugin]) *)

Module VoiceNotesPlugin.

(** Lines 103-105.  The merged object becomes the settings.  The defaults
    give it both properties whatever was stored; an object that lacked one
    would not be settings, which the model reports as an error. *)
Definition loadSettings : Prog unit :=
  data <- await LoadData ;;
  match asSettings
          (Object_assign emptyObject [Some (objectOf DEFAULT_SETTINGS); data]) with
  | Some merged => modify (set_settings merged)
  | None => Throw (Error "settings: a property is undefined")
  end.

(** Lines 107-109. *)
Definition saveSettings : Prog unit :=
  s <- gets settings ;;
  await (SaveData s).

(** Lines 409-425. *)
Definition updateStatusBar : Prog unit :=
  item <- gets statusBarItem ;;
  match item with
  | None => Ret tt
  | Some _ =>
      rs <- gets recordingState ;;
      if isRecording rs then
        t <- Date_now ;;
        let duration := ((t - startTime rs) / 1000)%Z in
        statusBar_setText ("🔴 Recording " ++ Str.ofZ duration ++ "s") ;;
        setTimeout 1000
      else
        statusBar_setText "🎤 VoiceNotes"
  end.

(** Lines 138-152: the first supported format, else the default. *)
Definition formatOptions : list (string * string) :=
  [ ("audio/webm;codecs=opus", ".webm");
    ("audio/webm", ".webm");
    ("audio/mpeg", ".mp3");
    ("audio/wav", ".wav");
    ("audio/ogg;codecs=opus", ".ogg") ].

Fixpoint selectFormat (h : Host) (options : list (string * string))
  (selected : string * string) : string * string :=
  match options with
  | [] => selected
  | format :: rest =>
      if isTypeSupported h (fst format) then format
      else selectFormat h rest selected
  end.

(** Lines 119-190.  The callbacks installed on the recorder are the handlers
    [ondataavailable] and [onstop] below. *)
Definition startRecording : Prog unit :=
  rs <- gets recordingState ;;
  if isRecording rs then
    Notice "Already recording..."
  else
    try_catch
      (stream <- await GetUserMedia ;;
       h <- gets host ;;
       let selectedFormat :=
         selectFormat h formatOptions ("audio/webm", ".webm") in
       modify (set_recordingState new_RecordingState) ;;
       update_recordingState (set_isRecording true) ;;
       t <- Date_now ;;
       update_recordingState (set_startTime t) ;;
       update_recordingState (set_stream (Some stream)) ;;
       update_recordingState (set_mimeType (fst selectedFormat)) ;;
       r <- new_MediaRecorder stream (fst selectedFormat) 64000 ;;
       update_recordingState (set_mediaRecorder (Some r)) ;;
       recorder_start r 1000 ;;
       updateStatusBar ;;
       Notice "🔴 Recording started...")
      (fun error =>
         console_error "Failed to start recording:" error ;;
         Notice ("Cannot access microphone: " ++ message error)).

(** Lines 192-212. *)
Definition stopRecording : Prog unit :=
  rs <- gets recordingState ;;
  if negb (isRecording rs) then
    Ret tt
  else
    update_recordingState (set_isRecording false) ;;
    match mediaRecorder rs with
    | Some r => recorder_stop r
    | None => Ret tt
    end ;;
    match stream rs with
    | Some s => tracks_stop s
    | None => Ret tt
    end ;;
    item <- gets statusBarItem ;;
    match item with
    | Some _ => statusBar_setText "🎤 VoiceNotes"
    | None => Ret tt
    end ;;
    Notice "🛑 Recording stopped".

(** Lines 111-117. *)
Definition toggleRecording : Prog unit :=
  rs <- gets recordingState ;;
  if isRecording rs then stopRecording else startRecording.

(** Lines 375-407. *)
Definition insertTextToEditor (text : string) : Prog unit :=
  if (negb (Str.truthy text) || String.eqb (Str.trim text) "")%bool then
    Ret tt
  else
    h <- gets host ;;
    match activeLeaf h with
    | None => Notice "❌ No active note page"
    | Some leaf =>
        if negb (String.eqb (viewType leaf) "markdown") then
          Notice "❌ Current page is not a Markdown note"
        else
          match editor leaf with
          | None => Notice "❌ Cannot find editor"
          | Some _ =>
              try_catch
                (cursor <- editor_getCursor ;;
                 let textToInsert := Str.trim text ++ Str.LF in
                 editor_replaceRange textToInsert cursor ;;
                 editor_setCursor
                   (line cursor + List.length (Str.splitLF textToInsert) - 1) 0)
                (fun error =>
                   console_error "Failed to insert text:" error ;;
                   Notice ("❌ Failed to insert text: " ++ message error))
          end
    end.

(** The extension of the saved file (lines 253-257). *)
Definition fileExtension (type : string) : string :=
  if Str.includes "webm" type then ".webm"
  else if (Str.includes "mp3" type || Str.includes "mpeg" type)%bool then ".mp3"
  else if Str.includes "wav" type then ".wav"
  else if Str.includes "ogg" type then ".ogg"
  else ".webm".

(** The local variables of [saveAudioFile] (lines 259-271). *)
Definition filename (h : Host) (audioBlob : Blob) : string :=
  let extension := fileExtension (blob_type audioBlob) in
  let timestamp := Str.replaceColonDot (isoString h) in
  "voice-note-" ++ timestamp ++ extension.

Definition folderPath (h : Host) : string :=
  match activeFile h with
  | Some {| parent_path := Some path |} => path
  | _ => ""
  end.

Definition audioFilePath (h : Host) (audioBlob : Blob) : string :=
  if Str.truthy (folderPath h)
  then folderPath h ++ "/" ++ filename h audioBlob
  else filename h audioBlob.

(** The markdown link [saveAudioFile] returns (line 278). *)
Definition markdownLink (h : Host) (audioBlob : Blob) : string :=
  "![" ++ filename h audioBlob ++ "](" ++ audioFilePath h audioBlob ++ ")".

(** Lines 250-285. *)
Definition saveAudioFile (audioBlob : Blob) : Prog (option string) :=
  try_catch
    (h <- gets host ;;
     arrayBuffer <- Blob_arrayBuffer audioBlob ;;
     await (CreateBinary (audioFilePath h audioBlob) arrayBuffer) ;;
     Ret (Some (markdownLink h audioBlob)))
    (fun error =>
       console_error "Failed to save audio file:" error ;;
       Notice ("❌ Failed to save audio file: " ++ message error) ;;
       Ret None).

(** The message of the error rethrown by [transcribeAudio] (lines 360-369). *)
Definition transcriptionErrorMessage (error : JsError) : string :=
  match status error with
  | Some 401%Z => "Invalid API Key or unauthorized"
  | Some 429%Z => "API request rate limit exceeded, please try again later"
  | Some 403%Z => "API access denied, please check API Key permissions"
  | _ => if Str.truthy (message error) then message error
         else "Transcription failed"
  end.

(** The request sent to the transcription endpoint (lines 340-348). *)
Definition transcriptionRequest (key boundary : string) (formData : bytes)
  : Request :=
  {| url := "https://api.openai.com/v1/audio/transcriptions";
     method := "POST";
     headers :=
       [ ("Authorization", "Bearer " ++ key);
         ("Content-Type", "multipart/form-data; boundary=" ++ boundary) ];
     body := formData |}.

(** Lines 287-373. *)
Definition transcribeAudio (audioBlob : Blob) : Prog string :=
  s <- gets settings ;;
  if negb (Str.truthy (openaiApiKey s)) then
    Throw (Error "OpenAI API Key not configured")
  else
    h <- gets host ;;
    let boundary := "----formdata-obsidian-" ++ random36 h in
    audioBytes <- Blob_arrayBuffer audioBlob ;;
    match formDataBuffer boundary (blob_type audioBlob) audioBytes with
    | None => Throw (Error "offset is out of bounds")
    | Some formData =>
        try_catch
          (s' <- gets settings ;;
           response <-
             await (RequestUrl
                      (transcriptionRequest (openaiApiKey s') boundary formData)) ;;
           match json response with
           | Some {| json_text := Some text |} =>
               if Str.truthy text then Ret (Str.trim text)
               else Throw (Error "Invalid transcription result format")
           | _ => Throw (Error "Invalid transcription result format")
           end)
          (fun error =>
             console_error "OpenAI API error:" error ;;
             Throw (Error (transcriptionErrorMessage error)))
    end.

(** The text inserted for a saved file and for a transcription (lines 228
    and 237). *)
Definition voiceNoteText (link : string) : string :=
  "### Voice Note" ++ Str.LF ++ link ++ Str.LF ++ Str.LF.

Definition transcriptionText (transcription : string) : string :=
  "**Transcription:**" ++ Str.LF ++ transcription ++ Str.LF ++ Str.LF.

(** Lines 225-229: step 1, the audio file is saved to the note.  The link
    [saveAudioFile] returns is never the empty string, so [if (audioLink)]
    tests that it is not null. *)
Definition saveToNote (audioBlob : Blob) : Prog unit :=
  audioLink <- saveAudioFile audioBlob ;;
  match audioLink with
  | Some link => insertTextToEditor (voiceNoteText link)
  | None => Ret tt
  end.

(** Lines 231-244: step 2, the transcription if it is enabled. *)
Definition transcribeToNote (audioBlob : Blob) : Prog unit :=
  s <- gets settings ;;
  if (enableTranscription s && Str.truthy (openaiApiKey s))%bool then
    Notice "🔄 Transcribing..." ;;
    try_catch
      (transcription <- transcribeAudio audioBlob ;;
       if Str.truthy transcription then
         insertTextToEditor (transcriptionText transcription) ;;
         Notice "✅ Transcription completed"
       else Ret tt)
      (fun error =>
         console_error "Transcription failed:" error ;;
         Notice ("❌ Transcription failed: " ++ message error))
  else Ret tt.

(** Lines 214-248. *)
Definition processRecording : Prog unit :=
  rs <- gets recordingState ;;
  if Nat.eqb (List.length (audioChunks rs)) 0 then
    Notice "❌ Recording data is empty"
  else
    let audioBlob := newBlob (audioChunks rs) (mimeType rs) in
    saveToNote audioBlob ;;
    transcribeToNote audioBlob ;;
    update_recordingState (set_audioChunks []).

(** *** Event handlers *)

(** [mediaRecorder.ondataavailable] (lines 168-172); [data] is [event.data]. *)
Definition ondataavailable (data : option Blob) : Prog unit :=
  match data with
  | Some d =>
      if Nat.ltb 0 (blob_size d) then
        update_recordingState
          (fun rs => set_audioChunks (audioChunks rs ++ [d])%list rs)
      else Ret tt
  | None => Ret tt
  end.

(** [mediaRecorder.onstop] (lines 175-177). *)
Definition onstop : Prog unit := processRecording.

(** The callback of [setTimeout] in [updateStatusBar] (lines 417-421). *)
Definition onTimeout : Prog unit :=
  rs <- gets recordingState ;;
  if isRecording rs then updateStatusBar else Ret tt.

(** The settings tab's [onChange] callbacks (lines 45-48 and 56-59). *)
Definition onChangeApiKey (value : string) : Prog unit :=
  modify (fun w =>
            set_settings
              {| openaiApiKey := value;
                 enableTranscription := enableTranscription (settings w) |} w) ;;
  saveSettings.

Definition onChangeEnable (value : bool) : Prog unit :=
  modify (fun w =>
            set_settings
              {| openaiApiKey := openaiApiKey (settings w);
                 enableTranscription := value |} w) ;;
  saveSettings.

(** Lines 97-101. *)
Definition onunload : Prog unit :=
  rs <- gets recordingState ;;
  if isRecording rs then stopRecording else Ret tt.

(** Lines 68-95: the settings are loaded and the status bar item is created;
    the click, ribbon and command callbacks all call [toggleRecording]. *)
Definition onload : Prog unit :=
  loadSettings ;;
  modify (set_statusBarItem (Some "🎤 VoiceNotes")).

End VoiceNotesPlugin.

(** ** The event loop

    Handlers run one at a time.  A handler that awaits a promise is parked
    as a task; the host may later settle the promise, with any value or any
    error, and the task then runs up to its next [Await].  Between two runs
    the host may change in any way (time passes, the user edits the note,
    another file becomes active). *)

Inductive Task : Type :=
| MkTask (X : Type) (c : ExtCall X) (k : Result X -> Prog unit).

Record System := { sys_world : World; sys_tasks : list Task }.

Inductive Input : Type :=
| Click                               (* status bar, ribbon icon or command *)
| DataAvailable (data : option Blob)
| RecorderStopped
| Timeout
| ChangeApiKey (value : string)
| ChangeEnable (value : bool)
| Unload.

Definition handler (i : Input) : Prog unit :=
  match i with
  | Click => VoiceNotesPlugin.toggleRecording
  | DataAvailable data => VoiceNotesPlugin.ondataavailable data
  | RecorderStopped => VoiceNotesPlugin.onstop
  | Timeout => VoiceNotesPlugin.onTimeout
  | ChangeApiKey v => VoiceNotesPlugin.onChangeApiKey v
  | ChangeEnable b => VoiceNotesPlugin.onChangeEnable b
  | Unload => VoiceNotesPlugin.onunload
  end.

(** Runs [p] in the system's world up to its next [Await]. *)
Definition spawn (p : Prog unit) (s : System) : System :=
  {| sys_world := fst (run_sync p (sys_world s));
     sys_tasks :=
       match snd (run_sync p (sys_world s)) with
       | Waiting c k => (sys_tasks s ++ [MkTask c k])%list
       | Done _ => sys_tasks s
       end |}.

Inductive Label : Type :=
| LInput (i : Input)
| LResume
| LHost.

Inductive step : System -> Label -> System -> Prop :=
| step_input (s : System) (i : Input) :
    step s (LInput i) (spawn (handler i) s)
| step_resume (s : System) (pre post : list Task) (X : Type) (c : ExtCall X)
    (k : Result X -> Prog unit) (r : Result X) :
    sys_tasks s = (pre ++ MkTask c k :: post)%list ->
    step s LResume
         (spawn (k r) {| sys_world := sys_world s; sys_tasks := (pre ++ post)%list |})
| step_host (s : System) (h : Host) :
    step s LHost {| sys_world := set_host h (sys_world s);
                    sys_tasks := sys_tasks s |}.

(** After [onload]: no session yet, no task parked. *)
Definition initial (s : System) : Prop :=
  recordingState (sys_world s) = new_RecordingState /\ sys_tasks s = [].

Inductive reachable : System -> Prop :=
| reach_initial (s : System) : initial s -> reachable s
| reach_step (s s' : System) (l : Label) :
    reachable s -> step s l s' -> reachable s'.

(** *** Reasoning on uninterrupted runs

    [wp R p Q w0 w]: started in [w] within a run that began in [w0], the
    program [p] reaches each [Await] in a world related by [R] to the run's
    beginning, and ends with [Q]; after an [Await] a new run begins in any
    world. *)
Section Runs.

Variable R : World -> World -> Prop.

Fixpoint wp {A : Type} (p : Prog A) (Q : Result A -> World -> World -> Prop)
  (w0 w : World) : Prop :=
  match p with
  | Ret a => Q (Ok a) w0 w
  | Throw e => Q (Err e) w0 w
  | Get k => wp (k w) Q w0 w
  | Put w' k => wp k Q w0 w'
  | Await c k =>
      R w0 (log (event_of_call c) w) /\ forall r w1, wp (k r) Q w1 w1
  end.

(** Every run of [p], from any world, changes the world by [R]. *)
Definition respects {A : Type} (p : Prog A) : Prop :=
  forall w, wp p (fun _ => R) w w.

Definition task_respects (t : Task) : Prop :=
  match t with
  | MkTask c k => forall r, respects (k r)
  end.

End Runs.

(** The body as the transcription endpoint's contract describes it. *)
Module Multipart.

Definition filePart (boundary filename type : string) (audio : bytes) : bytes :=
  (encode ("--" ++ boundary ++ Str.CRLF
           ++ "Content-Disposition: form-data; name=" ++ Str.DQ ++ "file" ++ Str.DQ
           ++ "; filename=" ++ Str.DQ ++ filename ++ Str.DQ ++ Str.CRLF
           ++ "Content-Type: " ++ type ++ Str.CRLF
           ++ Str.CRLF)
   ++ audio
   ++ encode Str.CRLF)%list.

Definition fieldPart (boundary name value : string) : bytes :=
  encode ("--" ++ boundary ++ Str.CRLF
          ++ "Content-Disposition: form-data; name=" ++ Str.DQ ++ name ++ Str.DQ
          ++ Str.CRLF
          ++ Str.CRLF
          ++ value ++ Str.CRLF).

Definition closing (boundary : string) : bytes :=
  encode ("--" ++ boundary ++ "--" ++ Str.CRLF).

Definition body (boundary filename type : string) (audio : bytes) : bytes :=
  (filePart boundary filename type audio
   ++ fieldPart boundary "model" "whisper-1"
   ++ fieldPart boundary "language" "zh"
   ++ closing boundary)%list.

End Multipart.

(** Sample data used to run the definitions. *)
Module Sample.

Definition blob : Blob :=
  {| blob_data := [x01; x02]; blob_type := "audio/wav" |}.

Definition ed : Editor :=
  {| ed_lines := ["abc"; "def"]; ed_cursor := {| line := 0; ch := 1 |};
     ed_fault := None |}.

Definition theHost : Host :=
  {| now := 5000; isoString := "2024-01-02T03:04:05.678Z"; random36 := "0.abc";
     supportedTypes := ["audio/wav"]; recorderFault := None; startFault := None;
     activeFile := Some {| parent_path := Some "notes" |};
     activeLeaf := Some {| viewType := "markdown"; editor := Some ed |} |}.

Definition idle : World :=
  {| settings := {| openaiApiKey := "sk"; enableTranscription := true |};
     recordingState := new_RecordingState;
     statusBarItem := Some "🎤 VoiceNotes";
     host := theHost; trace := [] |}.

(** A session in progress holding one fragment. *)
Definition recording : World :=
  set_recordingState
    {| isRecording := true;
       mediaRecorder :=
         Some {| rec_stream := {| stream_id := 7 |}; rec_mimeType := "audio/wav";
                 rec_audioBitsPerSecond := 64000 |};
       stream := Some {| stream_id := 7 |};
       audioChunks := [blob]; startTime := 4000; mimeType := "audio/wav" |}
    idle.

(** The same session once the recorder has been stopped. *)
Definition stopped : World :=
  set_recordingState (set_isRecording false (recordingState recording)) idle.

(** Every promise is fulfilled; the endpoint answers [" hello "]. *)
Definition fulfilled : Oracle :=
  fun X c =>
    match c in ExtCall X return Result X with
    | GetUserMedia => Ok {| stream_id := 7 |}
    | ArrayBuffer _ => Ok tt
    | CreateBinary _ _ => Ok tt
    | RequestUrl _ => Ok {| json := Some {| json_text := Some " hello " |} |}
    | LoadData => Ok None
    | SaveData _ => Ok tt
    end.

(** The promises are fulfilled except the one [fails] names, which is
    rejected with [e]. *)
Definition rejecting (fails : Event -> bool) (e : JsError) : Oracle :=
  fun X c => if fails (event_of_call c) then Err e else fulfilled c.

(** The promises are fulfilled and [loadData] resolves to [data]. *)
Definition stored (data : option SettingsObject) : Oracle :=
  fun X c =>
    match c in ExtCall X return Result X with
    | LoadData => Ok data
    | c' => fulfilled c'
    end.

(** The error of a request the endpoint answers with status 401. *)
Definition unauthorized : JsError :=
  {| message := "Request failed, status 401"; status := Some 401%Z |}.

Definition keyOnly : SettingsObject :=
  {| prop_openaiApiKey := Some "sk-1"; prop_enableTranscription := None |}.

End Sample.

(** The system after the input [i] was handled. *)
Definition input (i : Input) (s : System) : System := spawn (handler i) s.

(** The system after the promise of the [n]-th parked task was settled with
    the oracle's answer. *)
Definition resumeAt (n : nat) (o : Oracle) (s : System) : System :=
  match nth_error (sys_tasks s) n with
  | Some (MkTask c k) =>
      spawn (k (o _ c))
            {| sys_world := sys_world s;
               sys_tasks :=
                 (firstn n (sys_tasks s) ++ skipn (S n) (sys_tasks s))%list |}
  | None => s
  end.

(** The system after the host changed to [h]. *)
Definition hostChange (h : Host) (s : System) : System :=
  {| sys_world := set_host h (sys_world s); sys_tasks := sys_tasks s |}.

(** A second recording started while the first is being transcribed. *)
Module Overlap.

Definition blobB : Blob :=
  {| blob_data := [x03; x04]; blob_type := "audio/wav" |}.

Definition blobB2 : Blob := {| blob_data := [x05]; blob_type := "audio/wav" |}.

(** Ten seconds after [Sample.theHost]. *)
Definition later : Host :=
  {| now := 15000; isoString := "2024-01-02T03:04:15.678Z";
     random36 := "0.def"; supportedTypes := supportedTypes Sample.theHost;
     recorderFault := None; startFault := None;
     activeFile := activeFile Sample.theHost;
     activeLeaf := activeLeaf Sample.theHost |}.

Definition start : System := {| sys_world := Sample.idle; sys_tasks := [] |}.

(** The first recording: started, one fragment, stopped; [processRecording]
    has read the blob, saved the file, read the blob again and is parked on
    the transcription request. *)
Definition transcribing : System :=
  resumeAt 0 Sample.fulfilled
    (resumeAt 0 Sample.fulfilled
       (resumeAt 0 Sample.fulfilled
          (input RecorderStopped
             (input Click
                (input (DataAvailable (Some Sample.blob))
                   (resumeAt 0 Sample.fulfilled (input Click start))))))).

(** Meanwhile the user starts a second recording, whose first fragment
    arrives. *)
Definition secondRecording : System :=
  input (DataAvailable (Some blobB))
    (resumeAt 1 Sample.fulfilled (input Click (hostChange later transcribing))).

(** The transcription request of the first recording is answered. *)
Definition lateClear : System := resumeAt 0 Sample.fulfilled secondRecording.

(** The second recording receives another fragment, is stopped, and its
    file is saved. *)
Definition secondSaved : System :=
  resumeAt 0 Sample.fulfilled
    (resumeAt 0 Sample.fulfilled
       (input RecorderStopped
          (input Click (input (DataAvailable (Some blobB2)) lateClear)))).

End Overlap.

(** The events that are transcription requests, microphone requests and
    file creations. *)
Definition isRequest (e : Event) : bool :=
  match e with ERequestUrl _ => true | _ => false end.

Definition isGetUserMedia (e : Event) : bool :=
  match e with EGetUserMedia => true | _ => false end.

Definition isCreateBinary (e : Event) : bool :=
  match e with ECreateBinary _ _ => true | _ => false end.

(** The notices among the events. *)
Fixpoint notices (evs : list Event) : list string :=
  match evs with
  | [] => []
  | ENotice text :: rest => text :: notices rest
  | _ :: rest => notices rest
  end.

(** The world after the events [evs] happened, nothing else changed. *)
Definition logs (evs : list Event) (w : World) : World :=
  {| settings := settings w; recordingState := recordingState w;
     statusBarItem := statusBarItem w; host := host w;
     trace := (trace w ++ evs)%list |}.

(** What [processRecording] does to the vault, the note and the endpoint. *)
Inductive Step : Type :=
| SaveFile (path : string) (data : bytes)
| InsertText (text : string)
| Transcribe (req : Request).

Fixpoint steps (evs : list Event) : list Step :=
  match evs with
  | [] => []
  | ECreateBinary path data :: rest => SaveFile path data :: steps rest
  | EReplaceRange text _ :: rest => InsertText text :: steps rest
  | ERequestUrl req :: rest => Transcribe req :: steps rest
  | _ :: rest => steps rest
  end.

(** The editor [insertTextToEditor] writes to: the active leaf shows a
    markdown view whose editor exists and does not throw. *)
Definition readyEditor (h : Host) : option Editor :=
  match activeLeaf h with
  | Some {| viewType := vt; editor := Some ed |} =>
      if String.eqb vt "markdown" then
        match ed_fault ed with
        | None => Some ed
        | Some _ => None
        end
      else None
  | _ => None
  end.

(** A string [trim] leaves nothing of. *)
Definition blank (text : string) : bool := String.eqb (Str.trim text) "".

(** The insertion [insertTextToEditor text] makes with host [h]. *)
Definition insertion (text : string) (h : Host) : list Step :=
  if blank text then []
  else match readyEditor h with
       | Some _ => [InsertText (Str.trim text ++ Str.LF)]
       | None => []
       end.

(** The hosts [insertTextToEditor] can turn [h] into: only the document and
    the cursor of the active editor may differ. *)
Definition sameButDocument (h h' : Host) : Prop :=
  now h' = now h /\ isoString h' = isoString h /\ random36 h' = random36 h
  /\ supportedTypes h' = supportedTypes h
  /\ recorderFault h' = recorderFault h /\ startFault h' = startFault h
  /\ activeFile h' = activeFile h
  /\ (readyEditor h' = None <-> readyEditor h = None).

(** The request [transcribeAudio] sends for the blob [b] from the world [w]. *)
Definition requestOf (w : World) (b : Blob) : Request :=
  let boundary := "----formdata-obsidian-" ++ random36 (host w) in
  VoiceNotesPlugin.transcriptionRequest (openaiApiKey (settings w)) boundary
    (Multipart.body boundary (uploadFilename (blob_type b)) (blob_type b)
       (blob_data b)).

(** What the settled request amounts to inside the [try] of
    [transcribeAudio] (lines 350-354): the trimmed text, or the error that
    reaches the [catch]. *)
Definition transcriptionOutcome (r : Result Response) : Result string :=
  match r with
  | Ok {| json := Some {| json_text := Some text |} |} =>
      if Str.truthy text then Ok (Str.trim text)
      else Err (Error "Invalid transcription result format")
  | Ok _ => Err (Error "Invalid transcription result format")
  | Err e => Err e
  end.

(** The steps the specification gives for a stop with fragments buffered:
    the file is saved and its link, if any, inserted; then, only if
    transcription is enabled and a key is present, the endpoint is called
    and the text it returns, if any, inserted. *)
Definition stepsOnStop (o : Oracle) (w : World) : list Step :=
  let rs := recordingState w in
  let audioBlob := newBlob (audioChunks rs) (mimeType rs) in
  let path := VoiceNotesPlugin.audioFilePath (host w) audioBlob in
  match o _ (ArrayBuffer audioBlob) with
  | Err _ => []                    (* the blob's bytes cannot be read *)
  | Ok _ =>
      ([SaveFile path (blob_data audioBlob)]
       ++ match o _ (CreateBinary path (blob_data audioBlob)) with
          | Ok _ =>
              insertion
                (VoiceNotesPlugin.voiceNoteText
                   (VoiceNotesPlugin.markdownLink (host w) audioBlob))
                (host w)
          | Err _ => []
          end
       ++ if (enableTranscription (settings w)
              && Str.truthy (openaiApiKey (settings w)))%bool
          then
            Transcribe (requestOf w audioBlob)
            :: match transcriptionOutcome
                       (o _ (RequestUrl (requestOf w audioBlob))) with
               | Ok text =>
                   if Str.truthy text
                   then insertion (VoiceNotesPlugin.transcriptionText text)
                          (host w)
                   else []
               | Err _ => []
               end
          else [])%list
  end.

(** Every buffered fragment has a positive size. *)
Definition allPositive (w : World) : Prop :=
  Forall (fun b => 0 < blob_size b) (audioChunks (recordingState w)).

(** A sequence of white space characters only. *)
Inductive allWhitespace : list ascii -> Prop :=
| aw_nil : allWhitespace []
| aw_1 a l : Str.ws1 a = true -> allWhitespace l -> allWhitespace (a :: l)
| aw_2 a b l :
    Str.ws2 a b = true -> allWhitespace l -> allWhitespace (a :: b :: l)
| aw_3 a b c l :
    Str.ws3 a b c = true -> allWhitespace l -> allWhitespace (a :: b :: c :: l).

(** The session a successful start creates, with the host [h] and the
    stream [s] the microphone request resolved to (lines 146-165). *)
Definition freshSession (h : Host) (s : MediaStream) : RecordingState :=
  let type :=
    fst (VoiceNotesPlugin.selectFormat h VoiceNotesPlugin.formatOptions
           ("audio/webm", ".webm")) in
  {| isRecording := true;
     mediaRecorder :=
       Some {| rec_stream := s; rec_mimeType := type;
               rec_audioBitsPerSecond := 64000 |};
     stream := Some s;
     audioChunks := [];
     startTime := now h;
     mimeType := type |}.

(** What the fragment-arrival callback appends for [event.data]. *)
Definition accepted (data : option Blob) : list Blob :=
  match data with
  | Some d => if Nat.ltb 0 (blob_size d) then [d] else []
  | None => []
  end.

Definition chunksOf (s : System) : list Blob :=
  audioChunks (recordingState (sys_world s)).

(** Relations between the world at the beginning of a run and later. *)
Definition anything (w0 w : World) : Prop := True.

Definition keepsPositive (w0 w : World) : Prop :=
  allPositive w0 -> allPositive w.

Definition resetOrKept (w0 w : World) : Prop :=
  audioChunks (recordingState w) = audioChunks (recordingState w0)
  \/ audioChunks (recordingState w) = [].

Definition isData (i : Input) : bool :=
  match i with DataAvailable _ => true | _ => false end.

(** Within a run that kept [R] so far, [p] keeps it up to each [Await]
    and to its end. *)
Definition stable (R : World -> World -> Prop) {A : Type} (p : Prog A) : Prop :=
  forall (Q : Result A -> World -> World -> Prop) w0 w,
    R w0 w ->
    (forall r wa wb, R wa wb -> Q r wa wb) ->
    wp R p Q w0 w.

(** [p] ends without an exception, whatever runs in between. *)
Definition nothrow {A : Type} (p : Prog A) : Prop :=
  forall (Q : Result A -> World -> World -> Prop) w0 w,
    (forall a wa wb, Q (Ok a) wa wb) -> wp anything p Q w0 w.

(** ** Sessions, stops and what handlers may do *)

(** No format of [options] is supported by the host. *)
Definition noneSupported (h : Host) (options : list (string * string)) : bool :=
  forallb (fun format => negb (isTypeSupported h (fst format))) options.

(** Every promise is fulfilled; the endpoint answers with [response]. *)
Definition answering (response : Response) : Oracle :=
  fun X c =>
    match c in ExtCall X return Result X with
    | RequestUrl _ => Ok response
    | c' => Sample.fulfilled c'
    end.

(** The response whose JSON holds [text]. *)
Definition textResponse (text : string) : Response :=
  {| json := Some {| json_text := Some text |} |}.

(** The idle plugin on a note whose editor refuses every call. *)
Definition readOnlyNote : World :=
  set_host
    (set_editor {| ed_lines := ["abc"]; ed_cursor := {| line := 0; ch := 0 |};
                   ed_fault := Some (Error "read-only") |}
       Sample.theHost)
    Sample.idle.

(** The session once the microphone request of [startRecording] is settled
    with [r] (lines 154-165 and the [catch]): a rejected request leaves the
    session [before] as it is; else the new session is initialised before
    the recorder is built, and keeps no recorder if the constructor throws. *)
Definition sessionAfterStart (r : Result MediaStream) (h : Host)
  (before : RecordingState) : RecordingState :=
  match r with
  | Err _ => before
  | Ok s =>
      let type :=
        fst (VoiceNotesPlugin.selectFormat h VoiceNotesPlugin.formatOptions
               ("audio/webm", ".webm")) in
      {| isRecording := true;
         mediaRecorder :=
           match recorderFault h with
           | Some _ => None
           | None => Some {| rec_stream := s; rec_mimeType := type;
                             rec_audioBitsPerSecond := 64000 |}
           end;
         stream := Some s;
         audioChunks := [];
         startTime := now h;
         mimeType := type |}
  end.

(** The error that ends the [try] of [startRecording], if any. *)
Definition startFailure (r : Result MediaStream) (h : Host) : option JsError :=
  match r with
  | Err e => Some e
  | Ok _ =>
      match recorderFault h with
      | Some e => Some e
      | None => startFault h
      end
  end.

(** The events of a stop of the session [rs]. *)
Definition releaseEvents (rs : RecordingState) : list Event :=
  (match mediaRecorder rs with Some r => [ERecorderStop r] | None => [] end
   ++ match stream rs with Some s => [ETracksStop s] | None => [] end
   ++ [ENotice "🛑 Recording stopped"])%list.

(** The status bar item after its text was set to [text], if it exists. *)
Definition withText (text : string) (item : option string) : option string :=
  match item with Some _ => Some text | None => None end.

(** A host on which the recorder cannot be built. *)
Definition noRecorder : World :=
  set_host
    {| now := 5000; isoString := isoString Sample.theHost;
       random36 := random36 Sample.theHost;
       supportedTypes := supportedTypes Sample.theHost;
       recorderFault := Some (Error "NotSupportedError"); startFault := None;
       activeFile := activeFile Sample.theHost;
       activeLeaf := activeLeaf Sample.theHost |}
    Sample.idle.

(** The inputs of the settings tab. *)
Definition isSettingsChange (i : Input) : bool :=
  match i with ChangeApiKey _ | ChangeEnable _ => true | _ => false end.

(** The fields of a session agree: the type is one of [formatOptions], a
    session flagged as recording holds a stream, and the recorder, if any,
    was built on the session's stream with the session's type at 64000 bits
    per second. *)
Definition coherent (rs : RecordingState) : Prop :=
  In (mimeType rs) (map fst VoiceNotesPlugin.formatOptions)
  /\ (isRecording rs = true -> stream rs <> None)
  /\ (forall r, mediaRecorder rs = Some r ->
                stream rs = Some (rec_stream r)
                /\ rec_mimeType r = mimeType rs
                /\ rec_audioBitsPerSecond r = 64000%Z).

Definition keepsCoherent (w0 w : World) : Prop :=
  coherent (recordingState w0) -> coherent (recordingState w).

Definition keepsSettings (w0 w : World) : Prop := settings w = settings w0.

(** The kinds of events a handler may cause, by input: a click starts or
    stops a recording; a fragment arrival causes none; the recorder's stop
    event saves, transcribes and inserts; a tick re-arms the timer; the
    settings tab saves the settings; an unload stops. *)
Definition footprint (i : Input) (e : Event) : bool :=
  match i, e with
  | Click, (ENotice _ | EConsoleError _ _ | EGetUserMedia | ENewMediaRecorder _
            | ERecorderStart _ _ | ERecorderStop _ | ETracksStop _
            | ESetTimeout _) => true
  | RecorderStopped, (ENotice _ | EConsoleError _ _ | EArrayBuffer _
                      | ECreateBinary _ _ | ERequestUrl _ | EReplaceRange _ _
                      | ESetCursor _ _) => true
  | Timeout, ESetTimeout _ => true
  | (ChangeApiKey _ | ChangeEnable _), ESaveData _ => true
  | Unload, (ERecorderStop _ | ETracksStop _ | ENotice _) => true
  | _, _ => false
  end.

(** Run to its end, [p] only adds events that [allowed] accepts to the
    trace. *)
Definition emits (allowed : Event -> bool) {A : Type} (p : Prog A) : Prop :=
  forall (o : Oracle) (w : World),
    exists evs,
      trace (fst (exec o p w)) = (trace w ++ evs)%list
      /\ forallb allowed evs = true.

(** Every promise is fulfilled; the microphone request resolves to [s]. *)
Definition granting (s : MediaStream) : Oracle :=
  fun X c =>
    match c in ExtCall X return Result X with
    | GetUserMedia => Ok s
    | c' => Sample.fulfilled c'
    end.

(** The plugin with no handler running. *)
Definition quiet (w : World) : System := {| sys_world := w; sys_tasks := [] |}.

(** The system after the fragments [ds] arrived, one after the other. *)
Definition feed (ds : list Blob) (s : System) : System :=
  fold_left (fun s' d => input (DataAvailable (Some d)) s') ds s.

(** ** The guard of the transcription *)

(** What the specification asks of the settings for a transcription:
    transcription is enabled and the key is not the empty string. *)
Definition transcriptionWanted (s : VoiceNotesSettings) : Prop :=
  enableTranscription s = true /\ openaiApiKey s <> "".

(** The notice that opens an attempt to transcribe (line 233). *)
Definition attemptNotice : Event := ENotice "🔄 Transcribing...".

(** A run that leaves the settings as they are and shows [attemptNotice]
    only if they ask for a transcription. *)
Definition attemptsGuarded (w0 w : World) : Prop :=
  settings w = settings w0
  /\ exists evs,
       trace w = (trace w0 ++ evs)%list
       /\ (In attemptNotice evs -> transcriptionWanted (settings w0)).

(** The blob the specification gives for a stop: the bytes of the buffered
    fragments, in the order of the buffer, under the session's type. *)
Definition blobOnStop (rs : RecordingState) : Blob :=
  {| blob_data := List.concat (map blob_data (audioChunks rs));
     blob_type := mimeType rs |}.

(** The world after [saveAudioFile] caught the error [e]. *)
Definition saveFailed (e : JsError) (w : World) : World :=
  logs [EConsoleError "Failed to save audio file:" e;
        ENotice ("❌ Failed to save audio file: " ++ message e)] w.

(** The second step as the specification words it, for the blob [b] in the
    world [w] the first step left: if transcription is enabled and the key
    is not empty, the attempt is announced and the transcription begins by
    reading [b]; otherwise nothing is attempted, and [run] ends with the
    fragments cleared. *)
Definition secondStep (b : Blob) (w : World) (run : World * Outcome unit)
  : Prop :=
  (transcriptionWanted (settings w) ->
     exists k,
       run = (logs [attemptNotice; EArrayBuffer b] w, Waiting (ArrayBuffer b) k))
  /\ (~ transcriptionWanted (settings w) ->
        run = (set_recordingState (set_audioChunks [] (recordingState w)) w,
               Done (Ok tt))).

(** The stopped sample session after the user cleared the key. *)
Definition keyCleared : World :=
  set_settings {| openaiApiKey := ""; enableTranscription := true |}
    Sample.stopped.

(** A recording started, one fragment, stopped: [processRecording] has read
    the blob and is parked on the creation of the file. *)
Definition savingFile : System :=
  resumeAt 0 Sample.fulfilled
    (input RecorderStopped
       (input Click
          (input (DataAvailable (Some Sample.blob))
             (resumeAt 0 Sample.fulfilled (input Click Overlap.start))))).

(** String functions stay folded when programs are run symbolically. *)
Arguments Str.trim : simpl never.
Arguments Str.includes : simpl never.
Arguments Str.splitLF : simpl never.
Arguments Str.replaceColonDot : simpl never.
Arguments Str.ofZ : simpl never.
Arguments Str.truthy : simpl never.
Arguments String.append : simpl never.
Arguments String.eqb : simpl never.
Arguments formDataBuffer : simpl never.
Arguments EditorModel.replaceRange : simpl never.
Arguments VoiceNotesPlugin.fileExtension : simpl never.
Arguments VoiceNotesPlugin.filename : simpl never.
Arguments VoiceNotesPlugin.folderPath : simpl never.
Arguments VoiceNotesPlugin.audioFilePath : simpl never.
Arguments VoiceNotesPlugin.markdownLink : simpl never.
Arguments VoiceNotesPlugin.voiceNoteText : simpl never.
Arguments VoiceNotesPlugin.transcriptionText : simpl never.
Arguments uploadFilename : simpl never.
Arguments VoiceNotesPlugin.transcriptionErrorMessage : simpl never.
Arguments VoiceNotesPlugin.transcriptionRequest : simpl never.
Arguments newBlob : simpl never.
Arguments VoiceNotesPlugin.selectFormat : simpl never.
Arguments blank : simpl never.

(** * Properties *)

Import VoiceNotesPlugin.

(** ** The multipart body *)

Lemma encode_app (a b : string) : encode (a ++ b) = (encode a ++ encode b)%list.
Proof.
  unfold encode, list_byte_of_string.
  induction a as [|c a IH]; simpl; [reflexivity|].
  now rewrite IH.
Qed.

Lemma totalLength_from (parts : list bytes) (n : nat) :
  fold_left (fun sum part => sum + List.length part) parts n
  = n + List.length (List.concat parts).
Proof.
  revert n; induction parts as [|p parts IH]; intros n; simpl.
  - lia.
  - rewrite IH, length_app. lia.
Qed.

Lemma totalLength_concat (parts : list bytes) :
  totalLength parts = List.length (List.concat parts).
Proof. unfold totalLength. now rewrite totalLength_from. Qed.

Lemma Uint8Array_set_fits (pre part rest : bytes) (zeros : bytes) :
  List.length zeros = List.length part ->
  Uint8Array.set (pre ++ zeros ++ rest)%list part (List.length pre)
  = Some (pre ++ part ++ rest)%list.
Proof.
  intros Hz. unfold Uint8Array.set.
  assert (Hfit : Nat.leb (List.length pre + List.length part)
                         (List.length (pre ++ zeros ++ rest)%list) = true).
  { apply Nat.leb_le. rewrite !length_app. lia. }
  rewrite Hfit. f_equal.
  rewrite firstn_app, Nat.sub_diag, firstn_all. simpl. rewrite app_nil_r.
  f_equal. f_equal.
  rewrite skipn_app.
  replace (List.length pre + List.length part - List.length pre)
    with (List.length zeros) by lia.
  rewrite (skipn_all2 pre) by lia. simpl.
  rewrite skipn_app, skipn_all, Nat.sub_diag. reflexivity.
Qed.

(** The loop overwrites a zone of the right size with the parts in order. *)
Lemma mergeLoop_fills (parts : list bytes) :
  forall (pre zeros : bytes),
    List.length zeros = List.length (List.concat parts) ->
    mergeLoop parts (pre ++ zeros)%list (List.length pre)
    = Some (pre ++ List.concat parts)%list.
Proof.
  induction parts as [|part rest IH]; intros pre zeros Hz; simpl in *.
  - destruct zeros; [reflexivity | discriminate].
  - rewrite length_app in Hz.
    rewrite <- (firstn_skipn (List.length part) zeros).
    rewrite Uint8Array_set_fits by (rewrite length_firstn; lia).
    rewrite app_assoc, <- length_app.
    rewrite IH by (rewrite length_skipn; lia).
    now rewrite <- app_assoc.
Qed.

Lemma mergeParts_concat (parts : list bytes) :
  mergeParts parts = Some (List.concat parts).
Proof.
  unfold mergeParts, Uint8Array.make.
  apply (mergeLoop_fills parts []).
  now rewrite repeat_length, totalLength_concat.
Qed.

(** A part sits in the concatenation right after the parts before it. *)
Lemma part_at_offset (parts : list bytes) :
  forall (i : nat) (part : bytes),
    nth_error parts i = Some part ->
    firstn (List.length part)
           (skipn (totalLength (firstn i parts)) (List.concat parts)) = part.
Proof.
  induction parts as [|p parts IH]; intros i part Hi.
  - destruct i; discriminate.
  - destruct i as [|i]; simpl in *.
    + injection Hi as ->. unfold totalLength; simpl.
      now rewrite firstn_app, Nat.sub_diag, firstn_all, app_nil_r.
    + rewrite totalLength_concat. simpl. rewrite length_app.
      rewrite skipn_app.
      rewrite skipn_all2 by lia. simpl.
      replace (List.length p + List.length (List.concat (firstn i parts))
               - List.length p)
        with (totalLength (firstn i parts))
        by (rewrite totalLength_concat; lia).
      now apply IH.
Qed.


Lemma formParts_concat (boundary filename type : string) (audio : bytes) :
  List.concat (formParts boundary filename type audio)
  = Multipart.body boundary filename type audio.
Proof.
  unfold formParts, Multipart.body, Multipart.filePart, Multipart.fieldPart,
    Multipart.closing.
  cbn [List.concat].
  repeat rewrite encode_app.
  repeat rewrite <- app_assoc.
  reflexivity.
Qed.

Lemma formDataBuffer_body (boundary type : string) (audio : bytes) :
  formDataBuffer boundary type audio
  = Some (Multipart.body boundary (uploadFilename type) type audio).
Proof.
  unfold formDataBuffer. now rewrite mergeParts_concat, formParts_concat.
Qed.


(** C1. For every audio byte sequence, blob type and boundary string, the
    request body of [transcribeAudio] is the file part (boundary line,
    Content-Disposition with name "file" and the chosen file name,
    Content-Type with the blob's type, blank line, audio bytes, CRLF), the
    model part with value "whisper-1", the language part with value "zh"
    and the closing delimiter, in this order; it is the concatenation of the
    pushed parts, its length is the sum of their lengths, each part starts
    at the offset equal to the total length of the parts before it, and it
    is the body of the request [transcribeAudio] sends. *)
Theorem transcribeAudio_multipart_body
  (audioBytes : bytes) (type boundary : string) :
  let parts := formParts boundary (uploadFilename type) type audioBytes in
  let merged := Multipart.body boundary (uploadFilename type) type audioBytes in
  formDataBuffer boundary type audioBytes = Some merged
  /\ merged = List.concat parts
  /\ List.length merged = totalLength parts
  /\ totalLength parts = list_sum (map (@List.length byte) parts)
  /\ (forall (i : nat) (part : bytes),
        nth_error parts i = Some part ->
        firstn (List.length part) (skipn (totalLength (firstn i parts)) merged)
        = part)
  /\ (forall (o : Oracle) (w : World) (audioBlob : Blob),
        blob_type audioBlob = type ->
        blob_data audioBlob = audioBytes ->
        "----formdata-obsidian-" ++ random36 (host w) = boundary ->
        Str.truthy (openaiApiKey (settings w)) = true ->
        o unit (ArrayBuffer audioBlob) = Ok tt ->
        exists rest,
          trace (fst (exec o (transcribeAudio audioBlob) w))
          = (trace w
             ++ [EArrayBuffer audioBlob;
                 ERequestUrl
                   (transcriptionRequest
                      (openaiApiKey (settings w)) boundary merged)]
             ++ rest)%list).
Proof.
  intros parts merged.
  assert (Hcat : merged = List.concat parts).
  { subst merged parts. now rewrite formParts_concat. }
  repeat split.
  - apply formDataBuffer_body.
  - exact Hcat.
  - rewrite Hcat. symmetry. apply totalLength_concat.
  - rewrite totalLength_concat. clear. induction parts as [|p ps IH]; simpl.
    + reflexivity.
    + rewrite length_app, IH. reflexivity.
  - intros i part Hi. rewrite Hcat. now apply part_at_offset.
  - intros o w audioBlob Htype Hdata Hb Hkey Hab.
    subst merged. rewrite <- Htype, <- Hdata, <- Hb.
    unfold transcribeAudio. cbn [exec bind gets].
    rewrite Hkey. cbn [negb exec bind gets Blob_arrayBuffer await].
    rewrite Hab. cbn [exec bind].
    rewrite formDataBuffer_body.
    cbn [exec bind try_catch gets await settings log].
    destruct (o Response _) as [[[[[text|]]|]]|e];
      cbn [exec bind try_catch json json_text];
      try destruct (Str.truthy text);
      cbn [exec bind try_catch console_error emit modify log trace fst
           event_of_call];
      repeat rewrite <- app_assoc; cbn [app]; eexists; f_equal; f_equal; f_equal;
      try (instantiate (1 := []); reflexivity).
Qed.

Lemma transcribeAudio_multipart_body_witness :
  firstn 2
    (skipn (totalLength (firstn 3 (formParts "B" "audio.wav" "audio/wav" [x01; x02])))
           (Multipart.body "B" "audio.wav" "audio/wav" [x01; x02]))
  = [x01; x02]
  /\ exists rest,
       trace (fst (exec Sample.fulfilled
                     (transcribeAudio Sample.blob) Sample.idle))
       = ([EArrayBuffer Sample.blob;
           ERequestUrl
             (transcriptionRequest "sk"
                "----formdata-obsidian-0.abc"
                (Multipart.body "----formdata-obsidian-0.abc" "audio.wav"
                   "audio/wav" [x01; x02]))]
          ++ rest)%list.
Proof.
  split.
  - exact (proj1 (proj2 (proj2 (proj2 (proj2
             (transcribeAudio_multipart_body [x01; x02] "audio/wav" "B")))))
             3 [x01; x02] eq_refl).
  - exact (proj2 (proj2 (proj2 (proj2 (proj2
             (transcribeAudio_multipart_body [x01; x02] "audio/wav"
                "----formdata-obsidian-0.abc")))))
             Sample.fulfilled Sample.idle Sample.blob
             eq_refl eq_refl eq_refl eq_refl eq_refl).
Defined.

(** ** Running programs to their end *)

Lemma exec_bind {A B : Type} (o : Oracle) (p : Prog A) (f : A -> Prog B) :
  forall w,
    exec o (bind p f) w
    = match snd (exec o p w) with
      | Ok a => exec o (f a) (fst (exec o p w))
      | Err e => (fst (exec o p w), Err e)
      end.
Proof.
  induction p as [a|e|k IH|w' k IH|X c k IH]; intros w; cbn [bind exec fst snd];
    auto.
Qed.

Lemma exec_try_catch {A : Type} (o : Oracle) (p : Prog A)
  (h : JsError -> Prog A) :
  forall w,
    exec o (try_catch p h) w
    = match snd (exec o p w) with
      | Ok a => (fst (exec o p w), Ok a)
      | Err e => exec o (h e) (fst (exec o p w))
      end.
Proof.
  induction p as [a|e|k IH|w' k IH|X c k IH]; intros w;
    cbn [try_catch exec fst snd]; auto.
Qed.

Lemma truthy_nonempty (s : string) : Str.truthy s = true <-> s <> "".
Proof.
  unfold Str.truthy. destruct (String.eqb_spec s ""); simpl; split; intros; congruence.
Qed.

(** Runs a program symbolically, splitting on every test it meets. *)
Ltac exec_cases :=
  repeat (cbn in *;
          try match goal with
              | |- context [match ?x with _ => _ end] => destruct x eqn:?
              end).

(** ** The credential *)

Lemma insertTextToEditor_frame (o : Oracle) (text : string) (w : World) :
  let w' := fst (exec o (insertTextToEditor text) w) in
  settings w' = settings w
  /\ recordingState w' = recordingState w
  /\ statusBarItem w' = statusBarItem w
  /\ filter isRequest (trace w') = filter isRequest (trace w)
  /\ snd (exec o (insertTextToEditor text) w) = Ok tt.
Proof.
  unfold insertTextToEditor.
  exec_cases; repeat rewrite filter_app; cbn; repeat rewrite app_nil_r; auto 6.
Qed.

Lemma saveAudioFile_frame (o : Oracle) (b : Blob) (w : World) :
  let w' := fst (exec o (saveAudioFile b) w) in
  settings w' = settings w
  /\ recordingState w' = recordingState w
  /\ statusBarItem w' = statusBarItem w
  /\ host w' = host w
  /\ filter isRequest (trace w') = filter isRequest (trace w)
  /\ exists link, snd (exec o (saveAudioFile b) w) = Ok link.
Proof.
  unfold saveAudioFile.
  exec_cases; repeat rewrite filter_app; cbn; repeat rewrite app_nil_r;
    eauto 8.
Qed.

Lemma saveToNote_frame (o : Oracle) (b : Blob) (w : World) :
  let w' := fst (exec o (saveToNote b) w) in
  settings w' = settings w
  /\ recordingState w' = recordingState w
  /\ statusBarItem w' = statusBarItem w
  /\ filter isRequest (trace w') = filter isRequest (trace w)
  /\ snd (exec o (saveToNote b) w) = Ok tt.
Proof.
  unfold saveToNote. rewrite exec_bind.
  destruct (saveAudioFile_frame o b w) as (Hs & Hr & Hb & _ & Ht & link & Hl).
  rewrite Hl. destruct link as [link|].
  - destruct (insertTextToEditor_frame o (voiceNoteText link)
                (fst (exec o (saveAudioFile b) w)))
      as (Hs' & Hr' & Hb' & Ht' & Hok).
    repeat split; congruence.
  - cbn [exec fst snd]. auto.
Qed.

(** Step 2 does nothing at all unless transcription is enabled and the key
    is not empty. *)
Lemma transcribeToNote_disabled (o : Oracle) (b : Blob) (w : World) :
  (enableTranscription (settings w)
   && Str.truthy (openaiApiKey (settings w)))%bool = false ->
  exec o (transcribeToNote b) w = (w, Ok tt).
Proof.
  intros H. unfold transcribeToNote.
  cbn [exec bind gets]. now rewrite H.
Qed.

(** ** The recording flag *)

(** C3. The session has two states, idle and recording, told apart by
    [isRecording]: [toggleRecording] runs [stopRecording] exactly when the
    flag is set (the session is then stopped and no microphone is asked for)
    and [startRecording] exactly when it is not (the microphone is then asked
    for); [startRecording] while recording only emits a notice and
    [stopRecording] while idle returns at once, both leaving the state
    unchanged. *)
Theorem toggleRecording_two_states (w : World) :
  (isRecording (recordingState w) = true ->
     run_sync toggleRecording w
     = run_sync stopRecording w
     /\ isRecording
          (recordingState (fst (run_sync toggleRecording w)))
        = false
     /\ snd (run_sync toggleRecording w) = Done (Ok tt)
     /\ notices (trace (fst (run_sync toggleRecording w)))
        = (notices (trace w) ++ ["🛑 Recording stopped"])%list)
  /\ (isRecording (recordingState w) = false ->
        run_sync toggleRecording w
        = run_sync startRecording w
        /\ fst (run_sync toggleRecording w)
           = logs [EGetUserMedia] w
        /\ exists k,
             snd (run_sync toggleRecording w)
             = Waiting GetUserMedia k)
  /\ (isRecording (recordingState w) = true ->
        run_sync startRecording w
        = (logs [ENotice "Already recording..."] w, Done (Ok tt)))
  /\ (isRecording (recordingState w) = false ->
        run_sync stopRecording w = (w, Done (Ok tt))).
Proof.
  assert (Hnotices : forall t e,
             notices (t ++ [e]) = (notices t ++ notices [e])%list).
  { induction t as [|x t IH]; intros e; [reflexivity|].
    destruct x; cbn [notices app]; now rewrite IH. }
  unfold toggleRecording, stopRecording,
    startRecording.
  split; [|split; [|split]]; intros H;
    repeat (cbn [negb run_sync bind gets try_catch await Notice emit modify
                 update_recordingState fst snd];
            rewrite ?H).
  - exec_cases; rewrite ?Hnotices; cbn; rewrite ?app_nil_r; auto.
  - repeat split. eexists. reflexivity.
  - reflexivity.
  - reflexivity.
Qed.

Lemma toggleRecording_two_states_witness :
  isRecording
    (recordingState (fst (run_sync toggleRecording Sample.recording)))
  = false
  /\ fst (run_sync toggleRecording Sample.idle)
     = logs [EGetUserMedia] Sample.idle
  /\ run_sync startRecording Sample.recording
     = (logs [ENotice "Already recording..."] Sample.recording, Done (Ok tt))
  /\ run_sync stopRecording Sample.idle
     = (Sample.idle, Done (Ok tt)).
Proof.
  split; [|split; [|split]].
  - exact (proj1 (proj2 (proj1 (toggleRecording_two_states Sample.recording)
                           eq_refl))).
  - exact (proj1 (proj2 (proj1 (proj2 (toggleRecording_two_states Sample.idle))
                           eq_refl))).
  - exact (proj1 (proj2 (proj2 (toggleRecording_two_states Sample.recording)))
                 eq_refl).
  - exact (proj2 (proj2 (proj2 (toggleRecording_two_states Sample.idle)))
                 eq_refl).
Defined.

(** ** Settings *)

(** C7. [loadSettings] merges the stored object over the defaults: a
    property the stored object has overrides the default, a property it
    lacks keeps its default, and with no stored data the settings are the
    defaults, an empty key and transcription disabled; [saveSettings] hands
    exactly the current settings to [saveData].  The merged object always
    holds both properties, so that [loadSettings] ends without an error,
    the settings being the only thing it changes. *)
Theorem loadSettings_merges_over_defaults (o : Oracle) (w : World)
  (data : option SettingsObject) :
  o _ LoadData = Ok data ->
  let loaded := settings (fst (exec o loadSettings w)) in
  (forall d v, data = Some d -> prop_openaiApiKey d = Some v ->
               openaiApiKey loaded = v)
  /\ (forall d v, data = Some d -> prop_enableTranscription d = Some v ->
                  enableTranscription loaded = v)
  /\ (forall d, data = Some d -> prop_openaiApiKey d = None ->
                openaiApiKey loaded = openaiApiKey DEFAULT_SETTINGS)
  /\ (forall d, data = Some d -> prop_enableTranscription d = None ->
                enableTranscription loaded
                = enableTranscription DEFAULT_SETTINGS)
  /\ (data = None -> loaded = DEFAULT_SETTINGS)
  /\ DEFAULT_SETTINGS = {| openaiApiKey := ""; enableTranscription := false |}
  /\ run_sync saveSettings w
     = (logs [ESaveData (settings w)] w,
        Waiting (SaveData (settings w))
                (fun r => match r with Ok v => Ret v | Err e => Throw e end))
  /\ Object_assign emptyObject [Some (objectOf DEFAULT_SETTINGS); data]
     = objectOf loaded
  /\ exec o loadSettings w = (set_settings loaded (logs [ELoadData] w), Ok tt).
Proof.
  intros Hload loaded. subst loaded.
  unfold loadSettings.
  cbn [exec bind await]. rewrite Hload.
  destruct data as [[[key|] [enable|]]|];
    cbn [exec bind modify fst snd settings set_settings log Object_assign
         fold_left assignOne asSettings objectOf emptyObject DEFAULT_SETTINGS
         prop_openaiApiKey prop_enableTranscription openaiApiKey
         enableTranscription event_of_call];
    (split; [intros d v [= <-] Hv; cbn in Hv; congruence|]);
    (split; [intros d v [= <-] Hv; cbn in Hv; congruence|]);
    (split; [intros d [= <-] Hv; cbn in Hv; congruence|]);
    (split; [intros d [= <-] Hv; cbn in Hv; congruence|]);
    (split; [intros H; try discriminate H; reflexivity|]);
    (split; [reflexivity|]); (split; [reflexivity|]);
    (split; [reflexivity|]); reflexivity.
Qed.

Lemma loadSettings_merges_over_defaults_witness :
  openaiApiKey
    (settings (fst (exec (Sample.stored (Some Sample.keyOnly))
                      loadSettings Sample.idle)))
  = "sk-1"
  /\ enableTranscription
       (settings (fst (exec (Sample.stored (Some Sample.keyOnly))
                         loadSettings Sample.idle)))
     = false
  /\ settings (fst (exec (Sample.stored None) loadSettings
                      Sample.idle))
     = DEFAULT_SETTINGS.
Proof.
  split; [|split].
  - exact (proj1 (loadSettings_merges_over_defaults
                    (Sample.stored (Some Sample.keyOnly)) Sample.idle eq_refl)
                 Sample.keyOnly "sk-1" eq_refl eq_refl).
  - exact (proj1 (proj2 (proj2 (proj2
             (loadSettings_merges_over_defaults
                (Sample.stored (Some Sample.keyOnly)) Sample.idle eq_refl))))
                 Sample.keyOnly eq_refl eq_refl).
  - exact (proj1 (proj2 (proj2 (proj2 (proj2
             (loadSettings_merges_over_defaults (Sample.stored None) Sample.idle
                eq_refl)))))
                 eq_refl).
Defined.

(** ** An empty recording *)

(** C9. With an empty fragment sequence [processRecording] emits the
    notice "Recording data is empty" and returns: no file is created, the
    endpoint is not called and nothing is inserted in the editor. *)
Theorem processRecording_empty (o : Oracle) (w : World) :
  audioChunks (recordingState w) = [] ->
  exec o processRecording w
  = (logs [ENotice "❌ Recording data is empty"] w, Ok tt)
  /\ run_sync processRecording w
     = (logs [ENotice "❌ Recording data is empty"] w, Done (Ok tt))
  /\ steps (trace (fst (exec o processRecording w)))
     = steps (trace w)
  /\ host (fst (exec o processRecording w)) = host w.
Proof.
  intros H. unfold processRecording.
  cbn [exec run_sync bind gets]. rewrite H.
  cbn [List.length Nat.eqb exec run_sync Notice emit modify].
  repeat split.
  cbn [fst trace log].
  induction (trace w) as [|e t IH]; [reflexivity|].
  destruct e; cbn [app steps]; now rewrite IH.
Qed.

Lemma processRecording_empty_witness :
  exec Sample.fulfilled processRecording Sample.idle
  = (logs [ENotice "❌ Recording data is empty"] Sample.idle, Ok tt).
Proof.
  exact (proj1 (processRecording_empty Sample.fulfilled Sample.idle eq_refl)).
Defined.

(** ** White space and [trim] *)

Lemma ws2_not_ws1 (a b : ascii) : Str.ws2 a b = true -> Str.ws1 a = false.
Proof.
  unfold Str.ws2, Str.ws1. intros H.
  apply andb_prop in H as [Ha _]. apply Nat.eqb_eq in Ha. rewrite Ha. reflexivity.
Qed.

Lemma ws3_not_ws1 (a b c : ascii) : Str.ws3 a b c = true -> Str.ws1 a = false.
Proof.
  unfold Str.ws3, Str.ws1. intros H.
  repeat (apply orb_prop in H as [H|H]);
    repeat (apply andb_prop in H as [H ?]);
    apply Nat.eqb_eq in H; rewrite H; reflexivity.
Qed.

Lemma ws3_not_ws2 (a b c : ascii) : Str.ws3 a b c = true -> Str.ws2 a b = false.
Proof.
  unfold Str.ws3, Str.ws2. intros H.
  repeat (apply orb_prop in H as [H|H]);
    repeat (apply andb_prop in H as [H ?]);
    apply Nat.eqb_eq in H; rewrite H; reflexivity.
Qed.

Lemma dropWs_allWhitespace (l : list ascii) :
  allWhitespace l -> Str.dropWs l = [].
Proof.
  induction 1 as [|a l Ha _ IH|a b l Hab _ IH|a b c l Habc _ IH]; cbn [Str.dropWs].
  - reflexivity.
  - now rewrite Ha.
  - now rewrite (ws2_not_ws1 _ _ Hab), Hab.
  - now rewrite (ws3_not_ws1 _ _ _ Habc), (ws3_not_ws2 _ _ _ Habc), Habc.
Qed.

Lemma allWhitespace_app (l1 l2 : list ascii) :
  allWhitespace l1 -> allWhitespace l2 -> allWhitespace (l1 ++ l2)%list.
Proof.
  induction 1; intros H2; cbn [app]; auto using allWhitespace.
Qed.

(** [dropWs] removes a white space prefix and nothing else. *)
Lemma dropWs_prefix (n : nat) :
  forall l, List.length l <= n ->
            exists p, allWhitespace p /\ l = (p ++ Str.dropWs l)%list.
Proof.
  induction n as [|n IH]; intros l Hn.
  - destruct l; [|cbn in Hn; lia]. exists []. split; [constructor|reflexivity].
  - destruct l as [|a [|b [|c t3]]]; cbn [Str.dropWs].
    + exists []. split; [constructor|reflexivity].
    + destruct (Str.ws1 a) eqn:Ha.
      * exists [a]. split; [auto using allWhitespace|reflexivity].
      * exists []. split; [constructor|reflexivity].
    + destruct (Str.ws1 a) eqn:Ha.
      * destruct (IH [b]) as (p & Hp & E); [cbn in *; lia|].
        exists (a :: p). split; [auto using allWhitespace|].
        cbn [app Str.dropWs Str.dropWsRev] in E |- *; congruence.
      * destruct (Str.ws2 a b) eqn:Hab.
        -- exists [a; b]. split; [auto using allWhitespace|reflexivity].
        -- exists []. split; [constructor|reflexivity].
    + destruct (Str.ws1 a) eqn:Ha.
      * destruct (IH (b :: c :: t3)) as (p & Hp & E); [cbn in *; lia|].
        exists (a :: p). split; [auto using allWhitespace|].
        cbn [app Str.dropWs Str.dropWsRev] in E |- *; congruence.
      * destruct (Str.ws2 a b) eqn:Hab.
        -- destruct (IH (c :: t3)) as (p & Hp & E); [cbn in *; lia|].
           exists (a :: b :: p). split; [auto using allWhitespace|].
           cbn [app Str.dropWs Str.dropWsRev] in E |- *; congruence.
        -- destruct (Str.ws3 a b c) eqn:Habc.
           ++ destruct (IH t3) as (p & Hp & E); [cbn in *; lia|].
              exists (a :: b :: c :: p). split; [auto using allWhitespace|].
              cbn [app Str.dropWs Str.dropWsRev] in E |- *; congruence.
           ++ exists []. split; [constructor|reflexivity].
Qed.

(** [dropWsRev] removes a white space suffix (read backwards) and stops at a
    character that is not a one-byte white space. *)
Lemma dropWsRev_suffix (n : nat) :
  forall r, List.length r <= n ->
            (exists p, allWhitespace (rev p) /\ r = (p ++ Str.dropWsRev r)%list)
            /\ (forall a r', Str.dropWsRev r = a :: r' -> Str.ws1 a = false).
Proof.
  induction n as [|n IH]; intros r Hn.
  - destruct r; [|cbn in Hn; lia]. split.
    + exists []. split; [constructor|reflexivity].
    + discriminate.
  - assert (Hsnoc : forall p q, allWhitespace (rev p) -> allWhitespace q ->
                                allWhitespace (rev p ++ q)%list)
      by (intros; now apply allWhitespace_app).
    destruct r as [|a [|b [|c t3]]]; cbn [Str.dropWsRev].
    + split; [exists []; split; [constructor|reflexivity] | discriminate].
    + destruct (Str.ws1 a) eqn:Ha.
      * split; [|discriminate].
        exists [a]. split; [cbn; auto using allWhitespace|reflexivity].
      * split; [exists []; split; [constructor|reflexivity]|].
        intros x r' E. now injection E as <- _.
    + destruct (Str.ws1 a) eqn:Ha.
      * destruct (IH [b]) as ((p & Hp & E) & Hh); [cbn in *; lia|].
        split; [|exact Hh].
        exists (a :: p). split.
        -- cbn [rev]. apply Hsnoc; auto using allWhitespace.
        -- cbn [app Str.dropWs Str.dropWsRev] in E |- *; congruence.
      * destruct (Str.ws2 b a) eqn:Hab.
        -- split; [|discriminate].
           exists [a; b]. split; [cbn; auto using allWhitespace|reflexivity].
        -- split; [exists []; split; [constructor|reflexivity]|].
           intros x r' E. now injection E as <- _.
    + destruct (Str.ws1 a) eqn:Ha.
      * destruct (IH (b :: c :: t3)) as ((p & Hp & E) & Hh); [cbn in *; lia|].
        split; [|exact Hh].
        exists (a :: p). split.
        -- cbn [rev]. apply Hsnoc; auto using allWhitespace.
        -- cbn [app Str.dropWs Str.dropWsRev] in E |- *; congruence.
      * destruct (Str.ws2 b a) eqn:Hab.
        -- destruct (IH (c :: t3)) as ((p & Hp & E) & Hh); [cbn in *; lia|].
           split; [|exact Hh].
           exists (a :: b :: p). split.
           ++ cbn [rev]. rewrite <- app_assoc. apply Hsnoc; cbn; auto using allWhitespace.
           ++ cbn [app Str.dropWs Str.dropWsRev] in E |- *; congruence.
        -- destruct (Str.ws3 c b a) eqn:Habc.
           ++ destruct (IH t3) as ((p & Hp & E) & Hh); [cbn in *; lia|].
              split; [|exact Hh].
              exists (a :: b :: c :: p). split.
              ** cbn [rev]. rewrite <- !app_assoc.
                 apply Hsnoc; cbn; auto using allWhitespace.
              ** cbn [app Str.dropWs Str.dropWsRev] in E |- *; congruence.
           ++ split; [exists []; split; [constructor|reflexivity]|].
              intros x r' E. now injection E as <- _.
Qed.

Lemma string_of_list_ascii_nil (l : list ascii) :
  string_of_list_ascii l = "" -> l = [].
Proof. destruct l; [reflexivity|discriminate]. Qed.

Lemma rev_nil_inv {A : Type} (l : list A) : rev l = [] -> l = [].
Proof.
  intros H. apply (f_equal (@rev A)) in H. now rewrite rev_involutive in H.
Qed.

(** [trim] leaves nothing exactly of the strings made of white space. *)
Lemma trim_empty_iff (s : string) :
  Str.trim s = "" <-> allWhitespace (list_ascii_of_string s).
Proof.
  unfold Str.trim. split.
  - intros H. apply string_of_list_ascii_nil, rev_nil_inv in H.
    destruct (dropWsRev_suffix
                (n := List.length (rev (Str.dropWs (list_ascii_of_string s))))
                (rev (Str.dropWs (list_ascii_of_string s))) (le_n _))
      as ((p & Hp & E) & _).
    rewrite H, app_nil_r in E. subst p. rewrite rev_involutive in Hp.
    destruct (dropWs_prefix (n := List.length (list_ascii_of_string s))
                (list_ascii_of_string s) (le_n _)) as (q & Hq & E).
    rewrite E. now apply allWhitespace_app.
  - intros H. now rewrite (dropWs_allWhitespace H).
Qed.

Lemma blank_iff (s : string) :
  blank s = true <-> allWhitespace (list_ascii_of_string s).
Proof.
  unfold blank. rewrite <- trim_empty_iff. apply String.eqb_eq.
Qed.

Lemma append_String (a : ascii) (s t : string) :
  String a s ++ t = String a (s ++ t).
Proof. reflexivity. Qed.

Lemma list_ascii_of_string_app (s t : string) :
  list_ascii_of_string (s ++ t)
  = (list_ascii_of_string s ++ list_ascii_of_string t)%list.
Proof.
  induction s as [|a s IH]; [reflexivity|].
  rewrite append_String. cbn [list_ascii_of_string app]. now rewrite IH.
Qed.

(** What [trim] returns does not end with a line feed. *)
Lemma trim_no_trailing_LF (s t : string) : Str.trim s <> t ++ Str.LF.
Proof.
  unfold Str.trim. intros H.
  apply (f_equal list_ascii_of_string) in H.
  rewrite list_ascii_of_string_of_list_ascii, list_ascii_of_string_app in H.
  apply (f_equal (@rev ascii)) in H.
  rewrite rev_involutive, rev_app_distr in H.
  cbn [Str.LF list_ascii_of_string rev app] in H.
  destruct (dropWsRev_suffix
              (n := List.length (rev (Str.dropWs (list_ascii_of_string s))))
              (rev (Str.dropWs (list_ascii_of_string s))) (le_n _))
    as (_ & Hh).
  specialize (Hh _ _ H). discriminate.
Qed.

Lemma splitLF_String (a : ascii) (t : string) :
  Str.splitLF (String a t)
  = if Ascii.eqb a (ascii_of_nat 10) then "" :: Str.splitLF t
    else match Str.splitLF t with
         | p :: ps => String a p :: ps
         | [] => [String a ""]
         end.
Proof. reflexivity. Qed.

Lemma splitLF_nonempty (s : string) : Str.splitLF s <> [].
Proof.
  induction s as [|a s IH]; [discriminate|]. rewrite splitLF_String.
  destruct (Ascii.eqb a (ascii_of_nat 10)); [discriminate|].
  destruct (Str.splitLF s); discriminate.
Qed.

Lemma splitLF_app_LF (s : string) :
  Str.splitLF (s ++ Str.LF) = (Str.splitLF s ++ [""])%list.
Proof.
  induction s as [|a s IH]; [reflexivity|].
  rewrite append_String, !splitLF_String, IH.
  destruct (Ascii.eqb a (ascii_of_nat 10)); [reflexivity|].
  pose proof (splitLF_nonempty s) as Hne.
  destruct (Str.splitLF s); [contradiction|reflexivity].
Qed.

Lemma appendLast_snoc (ps : list string) (post : string) :
  EditorModel.appendLast (ps ++ [""]) post = (ps ++ [post])%list.
Proof.
  induction ps as [|x ps IH]; [reflexivity|].
  cbn [app EditorModel.appendLast]. rewrite IH.
  destruct ps; reflexivity.
Qed.

Lemma prependFirst_snoc (pre : string) (ps : list string) (x : string) :
  ps <> [] ->
  EditorModel.prependFirst pre (ps ++ [x])
  = (EditorModel.prependFirst pre ps ++ [x])%list.
Proof. destruct ps; [contradiction|reflexivity]. Qed.

Lemma prependFirst_length (pre : string) (ps : list string) :
  ps <> [] ->
  List.length (EditorModel.prependFirst pre ps) = List.length ps.
Proof. destruct ps; [contradiction|reflexivity]. Qed.

(** The lines [replaceRange] makes of a text that ends with a line feed. *)
Lemma replaceRange_lines (t : string) (p : Pos) (ed : Editor) :
  ed_lines (EditorModel.replaceRange (t ++ Str.LF) p ed)
  = (firstn (line p) (ed_lines ed)
     ++ EditorModel.prependFirst
          (substring 0 (ch p) (nth (line p) (ed_lines ed) ""))
          (Str.splitLF t)
     ++ [substring (ch p)
                   (String.length (nth (line p) (ed_lines ed) "") - ch p)
                   (nth (line p) (ed_lines ed) "")]
     ++ skipn (S (line p)) (ed_lines ed))%list.
Proof.
  unfold EditorModel.replaceRange. cbn [ed_lines].
  rewrite splitLF_app_LF, prependFirst_snoc by apply splitLF_nonempty.
  rewrite appendLast_snoc. now rewrite <- app_assoc.
Qed.

(** ** Insertion in the editor *)

Lemma readyEditor_inv (h : Host) (ed : Editor) :
  readyEditor h = Some ed ->
  activeLeaf h = Some {| viewType := "markdown"; editor := Some ed |}
  /\ ed_fault ed = None.
Proof.
  unfold readyEditor. destruct (activeLeaf h) as [[vt [e|]]|]; try discriminate.
  destruct (String.eqb_spec vt "markdown"); try discriminate.
  destruct (ed_fault e) eqn:Hf; try discriminate.
  intros H. injection H as <-. subst vt. auto.
Qed.

(** C10. A string that is empty or made of white space only is ignored:
    [insertTextToEditor] returns without touching the editor and without a
    notice.  For every other string, with a markdown editor active, the
    trimmed text followed by one line feed (and the trimmed text does not
    end with one) is inserted at the cursor, and the cursor is moved to the
    start of the line that follows the inserted lines, where the text that
    stood after the cursor now begins. *)
Theorem insertTextToEditor_inserts (o : Oracle) (w : World) (text : string) :
  (allWhitespace (list_ascii_of_string text) ->
     exec o (insertTextToEditor text) w = (w, Ok tt))
  /\ (~ allWhitespace (list_ascii_of_string text) ->
      forall ed, readyEditor (host w) = Some ed ->
        let inserted := Str.trim text ++ Str.LF in
        let cur := ed_cursor ed in
        let newLine := line cur + List.length (Str.splitLF (Str.trim text)) in
        let curText := nth (line cur) (ed_lines ed) "" in
        let pre := substring 0 (ch cur) curText in
        let post := substring (ch cur) (String.length curText - ch cur) curText in
        let ed' :=
          EditorModel.setCursor newLine 0
            (EditorModel.replaceRange inserted cur ed) in
        exec o (insertTextToEditor text) w
        = (logs [EReplaceRange inserted cur; ESetCursor newLine 0]
             (set_host (set_editor ed' (host w)) w), Ok tt)
        /\ ed_lines ed'
           = (firstn (line cur) (ed_lines ed)
              ++ EditorModel.prependFirst pre (Str.splitLF (Str.trim text))
              ++ [post]
              ++ skipn (S (line cur)) (ed_lines ed))%list
        /\ ed_cursor ed' = {| line := newLine; ch := 0 |}
        /\ (line cur < List.length (ed_lines ed) ->
            firstn newLine (ed_lines ed')
            = (firstn (line cur) (ed_lines ed)
               ++ EditorModel.prependFirst pre (Str.splitLF (Str.trim text)))%list
            /\ skipn newLine (ed_lines ed')
               = post :: skipn (S (line cur)) (ed_lines ed))
        /\ (forall t, Str.trim text <> t ++ Str.LF)).
Proof.
  split.
  - intros Hws. unfold insertTextToEditor.
    apply trim_empty_iff in Hws. rewrite Hws.
    rewrite orb_true_r. reflexivity.
  - intros Hws ed Hready inserted cur newLine curText pre post ed'.
    assert (Htrim : String.eqb (Str.trim text) "" = false).
    { apply String.eqb_neq. intros E. apply Hws. now apply trim_empty_iff. }
    assert (Htext : Str.truthy text = true).
    { apply truthy_nonempty. intros ->. apply Hws. constructor. }
    assert (Hlines : ed_lines ed'
                     = (firstn (line cur) (ed_lines ed)
                        ++ EditorModel.prependFirst pre (Str.splitLF (Str.trim text))
                        ++ [post]
                        ++ skipn (S (line cur)) (ed_lines ed))%list).
    { subst ed' inserted. cbn [EditorModel.setCursor ed_lines].
      apply replaceRange_lines. }
    split; [|split; [exact Hlines|split; [reflexivity|split]]].
    + apply readyEditor_inv in Hready as [Hleaf Hfault].
      unfold insertTextToEditor. rewrite Htext, Htrim.
      subst ed' newLine inserted cur. clear Hlines Hws pre post curText.
      destruct w as [s rs sb h tr]. destruct h as [n iso rnd sup rf sf af al].
      cbn in Hleaf. subst al.
      destruct ed as [lines cur fault]. cbn in Hfault. subst fault.
      cbn. rewrite String.eqb_refl. cbn.
      unfold EditorModel.replaceRange at 1. cbn.
      rewrite splitLF_app_LF, length_app. cbn [List.length].
      replace (line cur + (List.length (Str.splitLF (Str.trim text)) + 1) - 1)
        with (line cur + List.length (Str.splitLF (Str.trim text))) by lia.
      unfold logs, set_host, set_editor. cbn.
      now rewrite app_nil_r, <- app_assoc.
    + intros Hvalid. rewrite Hlines.
      assert (Hlen : List.length (firstn (line cur) (ed_lines ed)
                      ++ EditorModel.prependFirst pre (Str.splitLF (Str.trim text)))%list
                     = newLine).
      { rewrite length_app, length_firstn, prependFirst_length
          by apply splitLF_nonempty.
        subst newLine. lia. }
      rewrite app_assoc. split.
      * rewrite firstn_app, Hlen, Nat.sub_diag, firstn_O, app_nil_r.
        apply firstn_all2. lia.
      * rewrite skipn_app, Hlen, Nat.sub_diag.
        rewrite skipn_all2 by lia. reflexivity.
    + intros t. apply trim_no_trailing_LF.
Qed.

Lemma insertTextToEditor_inserts_witness :
  exec Sample.fulfilled (insertTextToEditor "   ") Sample.idle
  = (Sample.idle, Ok tt)
  /\ ed_cursor
       (EditorModel.setCursor (0 + List.length (Str.splitLF (Str.trim "  hi  "))) 0
          (EditorModel.replaceRange (Str.trim "  hi  " ++ Str.LF)
             (ed_cursor Sample.ed) Sample.ed))
     = {| line := 0 + List.length (Str.splitLF (Str.trim "  hi  ")); ch := 0 |}
  /\ skipn (0 + List.length (Str.splitLF (Str.trim "  hi  ")))
           (ed_lines
              (EditorModel.setCursor
                 (0 + List.length (Str.splitLF (Str.trim "  hi  "))) 0
                 (EditorModel.replaceRange (Str.trim "  hi  " ++ Str.LF)
                    (ed_cursor Sample.ed) Sample.ed)))
     = ["bc"; "def"].
Proof.
  assert (Hnot : ~ allWhitespace (list_ascii_of_string "  hi  ")).
  { intros H. apply blank_iff in H. vm_compute in H. discriminate. }
  split; [|split].
  - apply (proj1 (insertTextToEditor_inserts Sample.fulfilled Sample.idle "   ")).
    apply blank_iff. vm_compute. reflexivity.
  - exact (proj1 (proj2 (proj2
             (proj2 (insertTextToEditor_inserts Sample.fulfilled Sample.idle
                       "  hi  ") Hnot Sample.ed eq_refl)))).
  - apply (proj2 (proj1 (proj2 (proj2 (proj2
             (proj2 (insertTextToEditor_inserts Sample.fulfilled Sample.idle
                       "  hi  ") Hnot Sample.ed eq_refl))))
             ltac:(vm_compute; lia))).
Defined.

(** ** The two steps of a stop *)

Lemma steps_app (a b : list Event) : steps (a ++ b) = (steps a ++ steps b)%list.
Proof.
  induction a as [|e a IH]; [reflexivity|].
  destruct e; cbn [app steps]; now rewrite IH.
Qed.

Lemma sameButDocument_refl (h : Host) : sameButDocument h h.
Proof. unfold sameButDocument. tauto. Qed.

Lemma insertTextToEditor_steps (o : Oracle) (text : string) (w : World) :
  let w' := fst (exec o (insertTextToEditor text) w) in
  steps (trace w') = (steps (trace w) ++ insertion text (host w))%list
  /\ sameButDocument (host w) (host w').
Proof.
  unfold insertTextToEditor, insertion, blank, readyEditor, sameButDocument.
  destruct (String.eqb_spec text "") as [->|Hne].
  - cbn. rewrite app_nil_r. tauto.
  - apply truthy_nonempty in Hne. rewrite Hne. cbn [negb orb].
    destruct w as [s rs sb h tr]. destruct h as [n iso rnd sup rf sf af al].
    destruct (String.eqb (Str.trim text) "") eqn:Hb;
      [cbn; rewrite app_nil_r; tauto|].
    destruct al as [[vt [[lines cur [f|]]|]]|]; cbn;
      try (destruct (String.eqb vt "markdown") eqn:Hvt); cbn;
      unfold EditorModel.replaceRange, EditorModel.setCursor; cbn;
      rewrite ?Hvt; cbn;
      rewrite ?steps_app; cbn; rewrite ?app_nil_r;
      repeat split; try reflexivity; try discriminate; try tauto.
Qed.

Lemma insertion_sameButDocument (text : string) (h h' : Host) :
  sameButDocument h h' -> insertion text h' = insertion text h.
Proof.
  unfold sameButDocument, insertion. intros (_ & _ & _ & _ & _ & _ & _ & Hr).
  destruct (blank text); [reflexivity|].
  destruct (readyEditor h), (readyEditor h'); try reflexivity.
  - destruct Hr as [Hr _]. discriminate Hr. reflexivity.
  - destruct Hr as [_ Hr]. discriminate Hr. reflexivity.
Qed.

(** What [saveAudioFile] does when the blob's bytes can be read. *)
Lemma saveAudioFile_exec (o : Oracle) (b : Blob) (w : World) :
  o _ (ArrayBuffer b) = Ok tt ->
  exec o (saveAudioFile b) w
  = match o _ (CreateBinary (audioFilePath (host w) b) (blob_data b)) with
    | Ok _ =>
        (logs [EArrayBuffer b;
               ECreateBinary (audioFilePath (host w) b) (blob_data b)] w,
         Ok (Some (markdownLink (host w) b)))
    | Err e =>
        (logs [EArrayBuffer b;
               ECreateBinary (audioFilePath (host w) b) (blob_data b);
               EConsoleError "Failed to save audio file:" e;
               ENotice ("❌ Failed to save audio file: " ++ message e)] w,
         Ok None)
    end.
Proof.
  intros Hab. unfold saveAudioFile, Blob_arrayBuffer, await.
  cbn. rewrite Hab. cbn.
  destruct (o unit (CreateBinary _ _)) as [[]|e]; cbn; unfold logs, log; cbn;
    repeat rewrite <- app_assoc; reflexivity.
Qed.

Lemma saveToNote_steps (o : Oracle) (b : Blob) (w : World) :
  o _ (ArrayBuffer b) = Ok tt ->
  let w' := fst (exec o (saveToNote b) w) in
  steps (trace w')
  = (steps (trace w)
     ++ [SaveFile (audioFilePath (host w) b) (blob_data b)]
     ++ match o _ (CreateBinary (audioFilePath (host w) b) (blob_data b)) with
        | Ok _ => insertion (voiceNoteText (markdownLink (host w) b)) (host w)
        | Err _ => []
        end)%list
  /\ sameButDocument (host w) (host w').
Proof.
  intros Hab. unfold saveToNote. rewrite exec_bind, saveAudioFile_exec by exact Hab.
  destruct (o unit (CreateBinary _ _)) as [[]|e]; cbn [fst snd].
  - destruct (insertTextToEditor_steps o (voiceNoteText (markdownLink (host w) b))
                (logs [EArrayBuffer b;
                       ECreateBinary (audioFilePath (host w) b) (blob_data b)] w))
      as [Hs Hh].
    split; [|exact Hh].
    rewrite Hs. cbn [logs trace host]. rewrite steps_app. cbn [steps].
    now rewrite <- app_assoc.
  - cbn. rewrite steps_app. cbn. split; [reflexivity|apply sameButDocument_refl].
Qed.

Ltac same_world :=
  unfold logs, log;
  cbn [settings recordingState statusBarItem host trace fst snd];
  repeat rewrite <- app_assoc; cbn [app]; reflexivity.

Lemma transcribeAudio_exec (o : Oracle) (b : Blob) (w : World) :
  Str.truthy (openaiApiKey (settings w)) = true ->
  o _ (ArrayBuffer b) = Ok tt ->
  exec o (transcribeAudio b) w
  = match transcriptionOutcome (o _ (RequestUrl (requestOf w b))) with
    | Ok text =>
        (logs [EArrayBuffer b; ERequestUrl (requestOf w b)] w, Ok text)
    | Err e =>
        (logs [EArrayBuffer b; ERequestUrl (requestOf w b);
               EConsoleError "OpenAI API error:" e] w,
         Err (Error (transcriptionErrorMessage e)))
    end.
Proof.
  intros Hkey Hab. unfold transcribeAudio, requestOf, transcriptionOutcome.
  cbn [exec bind gets]. rewrite Hkey.
  cbn [negb exec bind gets Blob_arrayBuffer await]. rewrite Hab.
  cbn [exec bind]. rewrite formDataBuffer_body.
  cbn [exec bind try_catch gets await settings log host].
  destruct (o Response _) as [[[[[text|]]|]]|e];
    cbn [exec bind try_catch json json_text];
    try destruct (Str.truthy text);
    cbn [exec bind try_catch console_error emit modify log trace fst
         event_of_call];
    same_world.
Qed.

Lemma transcribeToNote_exec (o : Oracle) (b : Blob) (w : World) :
  (enableTranscription (settings w)
   && Str.truthy (openaiApiKey (settings w)))%bool = true ->
  o _ (ArrayBuffer b) = Ok tt ->
  exec o (transcribeToNote b) w
  = match transcriptionOutcome (o _ (RequestUrl (requestOf w b))) with
    | Ok text =>
        let w1 := logs [ENotice "🔄 Transcribing..."; EArrayBuffer b;
                        ERequestUrl (requestOf w b)] w in
        if Str.truthy text then
          (logs [ENotice "✅ Transcription completed"]
             (fst (exec o (insertTextToEditor (transcriptionText text)) w1)),
           Ok tt)
        else (w1, Ok tt)
    | Err e =>
        (logs [ENotice "🔄 Transcribing..."; EArrayBuffer b;
               ERequestUrl (requestOf w b);
               EConsoleError "OpenAI API error:" e;
               EConsoleError "Transcription failed:"
                 (Error (transcriptionErrorMessage e));
               ENotice ("❌ Transcription failed: "
                        ++ transcriptionErrorMessage e)] w,
         Ok tt)
    end.
Proof.
  intros Hguard Hab. unfold transcribeToNote.
  cbn [exec bind gets]. rewrite Hguard.
  apply andb_prop in Hguard as [_ Hkey].
  rewrite exec_bind. cbn [Notice emit modify exec fst snd].
  rewrite exec_try_catch, exec_bind.
  assert (Hreq : requestOf (log (ENotice "🔄 Transcribing...") w) b = requestOf w b)
    by reflexivity.
  rewrite transcribeAudio_exec by assumption. rewrite Hreq.
  destruct (transcriptionOutcome _) as [text|e]; cbn [fst snd].
  - destruct (Str.truthy text).
    + rewrite exec_bind.
      destruct (insertTextToEditor_frame o (transcriptionText text)
                  (logs [EArrayBuffer b; ERequestUrl (requestOf w b)]
                     (log (ENotice "🔄 Transcribing...") w)))
        as (_ & _ & _ & _ & Hok).
      rewrite Hok. cbn [exec Notice emit modify]. f_equal.
      assert (E : logs [EArrayBuffer b; ERequestUrl (requestOf w b)]
                    (log (ENotice "🔄 Transcribing...") w)
                  = logs [ENotice "🔄 Transcribing..."; EArrayBuffer b;
                          ERequestUrl (requestOf w b)] w) by same_world.
      rewrite E. reflexivity.
    + cbn [exec]. f_equal. same_world.
  - cbn [exec bind console_error Notice emit modify]. f_equal. same_world.
Qed.

Lemma transcribeToNote_steps (o : Oracle) (b : Blob) (w : World) :
  o _ (ArrayBuffer b) = Ok tt ->
  let w' := fst (exec o (transcribeToNote b) w) in
  steps (trace w')
  = (steps (trace w)
     ++ if (enableTranscription (settings w)
            && Str.truthy (openaiApiKey (settings w)))%bool
        then
          Transcribe (requestOf w b)
          :: match transcriptionOutcome (o _ (RequestUrl (requestOf w b))) with
             | Ok text =>
                 if Str.truthy text
                 then insertion (transcriptionText text) (host w)
                 else []
             | Err _ => []
             end
        else [])%list
  /\ recordingState w' = recordingState w
  /\ snd (exec o (transcribeToNote b) w) = Ok tt.
Proof.
  intros Hab.
  destruct (enableTranscription (settings w)
            && Str.truthy (openaiApiKey (settings w)))%bool eqn:Hguard.
  - rewrite transcribeToNote_exec by assumption.
    destruct (transcriptionOutcome _) as [text|e].
    + cbn zeta. destruct (Str.truthy text).
      * destruct (insertTextToEditor_steps o (transcriptionText text)
                    (logs [ENotice "🔄 Transcribing..."; EArrayBuffer b;
                           ERequestUrl (requestOf w b)] w)) as [Hs _].
        destruct (insertTextToEditor_frame o (transcriptionText text)
                    (logs [ENotice "🔄 Transcribing..."; EArrayBuffer b;
                           ERequestUrl (requestOf w b)] w))
          as (_ & Hr & _).
        cbn [fst snd logs trace recordingState].
        rewrite steps_app, Hs, Hr. cbn [logs trace host recordingState].
        rewrite steps_app. cbn [steps]. rewrite app_nil_r, <- app_assoc.
        auto.
      * cbn [fst snd logs trace recordingState]. rewrite steps_app. auto.
    + cbn [fst snd logs trace recordingState]. rewrite steps_app. auto.
  - rewrite transcribeToNote_disabled by assumption.
    cbn. rewrite app_nil_r. auto.
Qed.

(** Nothing reaches the vault, the note or the endpoint when the blob's
    bytes cannot be read. *)
Lemma saveToNote_unreadable (o : Oracle) (b : Blob) (w : World) (e : JsError) :
  o _ (ArrayBuffer b) = Err e ->
  steps (trace (fst (exec o (saveToNote b) w)))
  = steps (trace w).
Proof.
  intros Hab.
  unfold saveToNote, saveAudioFile,
    Blob_arrayBuffer, await.
  cbn. rewrite Hab. cbn. rewrite !steps_app. cbn. now rewrite !app_nil_r.
Qed.

Lemma transcribeToNote_unreadable (o : Oracle) (b : Blob) (w : World)
  (e : JsError) :
  o _ (ArrayBuffer b) = Err e ->
  steps (trace (fst (exec o (transcribeToNote b) w)))
  = steps (trace w)
  /\ snd (exec o (transcribeToNote b) w) = Ok tt.
Proof.
  intros Hab.
  unfold transcribeToNote, transcribeAudio,
    Blob_arrayBuffer, await.
  cbn.
  destruct (enableTranscription (settings w)
            && Str.truthy (openaiApiKey (settings w)))%bool eqn:Hguard;
    [|cbn; auto].
  apply andb_prop in Hguard as [_ Hkey]. cbn. rewrite Hkey. cbn.
  rewrite Hab. cbn. rewrite !steps_app. cbn. now rewrite !app_nil_r.
Qed.

(** The steps of [processRecording] when fragments are buffered. *)
Lemma processRecording_steps (o : Oracle) (w : World) :
  audioChunks (recordingState w) <> [] ->
  steps (trace (fst (exec o processRecording w)))
  = (steps (trace w) ++ stepsOnStop o w)%list.
Proof.
  intros Hne.
  set (rs := recordingState w).
  set (audioBlob := newBlob (audioChunks rs) (mimeType rs)).
  unfold processRecording. cbn [exec bind gets].
  destruct (audioChunks (recordingState w)) as [|c cs] eqn:Hc; [contradiction|].
  cbn [List.length Nat.eqb]. rewrite <- Hc. fold rs. fold audioBlob.
  rewrite exec_bind.
  destruct (saveToNote_frame o audioBlob w) as (Hs & Hrs & _ & _ & Hok).
  rewrite Hok, exec_bind.
  set (w1 := fst (exec o (saveToNote audioBlob) w)) in *.
  unfold stepsOnStop. fold rs. fold audioBlob.
  destruct (o unit (ArrayBuffer audioBlob)) as [[]|e] eqn:Hab.
  - destruct (saveToNote_steps o audioBlob w Hab) as (Hsteps & Hhost).
    fold w1 in Hsteps, Hhost.
    destruct (transcribeToNote_steps o audioBlob w1 Hab)
      as (Hsteps2 & Hrs2 & Hok2).
    rewrite Hok2.
    cbn [exec update_recordingState modify fst trace set_recordingState].
    rewrite Hsteps2, Hsteps.
    assert (Hreq : requestOf w1 audioBlob = requestOf w audioBlob).
    { unfold requestOf. rewrite Hs.
      destruct Hhost as (_ & _ & -> & _). reflexivity. }
    rewrite Hreq, Hs. clear Hsteps Hsteps2 Hok Hok2.
    repeat rewrite <- app_assoc. do 3 f_equal.
    destruct (enableTranscription (settings w) && _)%bool; [|reflexivity].
    f_equal.
    destruct (transcriptionOutcome _) as [text|e]; [|reflexivity].
    destruct (Str.truthy text); [|reflexivity].
    now apply insertion_sameButDocument.
  - destruct (transcribeToNote_unreadable o audioBlob w1 Hab) as [Hsteps2 Hok2].
    rewrite Hok2.
    cbn [exec update_recordingState modify fst trace set_recordingState].
    rewrite Hsteps2. unfold w1.
    rewrite (saveToNote_unreadable o audioBlob w Hab). now rewrite app_nil_r.
Qed.

(** The steps of the sample session, computed. *)
Example stepsOnStop_sample :
  stepsOnStop Sample.fulfilled Sample.stopped
  = [ SaveFile "notes/voice-note-2024-01-02T03-04-05-678Z.wav" [x01; x02];
      InsertText
        ("### Voice Note" ++ Str.LF
         ++ "![voice-note-2024-01-02T03-04-05-678Z.wav]"
         ++ "(notes/voice-note-2024-01-02T03-04-05-678Z.wav)" ++ Str.LF);
      Transcribe (requestOf Sample.stopped Sample.blob);
      InsertText ("**Transcription:**" ++ Str.LF ++ "hello" ++ Str.LF) ].
Proof. vm_compute. reflexivity. Qed.

(** ** Failures of the host *)

(** The message of the error [transcribeAudio] rethrows, case by case. *)
Lemma transcriptionErrorMessage_cases (e : JsError) :
  (status e = Some 401%Z ->
   transcriptionErrorMessage e
   = "Invalid API Key or unauthorized")
  /\ (status e = Some 429%Z ->
      transcriptionErrorMessage e
      = "API request rate limit exceeded, please try again later")
  /\ (status e = Some 403%Z ->
      transcriptionErrorMessage e
      = "API access denied, please check API Key permissions")
  /\ (status e <> Some 401%Z -> status e <> Some 429%Z ->
      status e <> Some 403%Z ->
      transcriptionErrorMessage e
      = if Str.truthy (message e) then message e else "Transcription failed").
Proof.
  unfold transcriptionErrorMessage.
  repeat split; try (intros ->; reflexivity).
  intros H1 H2 H3.
  destruct (status e) as [z|]; [|reflexivity].
  destruct (Z.eq_dec z 401) as [->|]; [congruence|].
  destruct (Z.eq_dec z 429) as [->|]; [congruence|].
  destruct (Z.eq_dec z 403) as [->|]; [congruence|].
  destruct z as [|p|p]; try reflexivity.
  do 9 (destruct p as [p|p|]; try reflexivity); congruence.
Qed.

(** C6, as amended.  A failure of the microphone request, of the file
    creation or of the transcription request is followed by exactly one
    notice and the failed call is not made again.  The notice carries the
    message of the error for the microphone and the file; for the
    transcription request it carries the message of the error
    [transcribeAudio] rethrows: a fixed text for the statuses 401, 429 and
    403, else the error's own message if it has one, else "Transcription
    failed".  After a failed transcription request nothing is inserted:
    besides the events listed, [processRecording] only clears the fragment
    sequence. *)
Theorem failures_are_notified (o : Oracle) (w : World) (e : JsError) :
  (isRecording (recordingState w) = false ->
   o _ GetUserMedia = Err e ->
   exec o startRecording w
   = (logs [EGetUserMedia;
            EConsoleError "Failed to start recording:" e;
            ENotice ("Cannot access microphone: " ++ message e)] w,
      Ok tt))
  /\ (forall b,
        o _ (ArrayBuffer b) = Ok tt ->
        o _ (CreateBinary (audioFilePath (host w) b)
               (blob_data b)) = Err e ->
        exec o (saveAudioFile b) w
        = (logs [EArrayBuffer b;
                 ECreateBinary (audioFilePath (host w) b)
                   (blob_data b);
                 EConsoleError "Failed to save audio file:" e;
                 ENotice ("❌ Failed to save audio file: " ++ message e)] w,
           Ok None))
  /\ (audioChunks (recordingState w) <> [] ->
      (enableTranscription (settings w)
       && Str.truthy (openaiApiKey (settings w)))%bool = true ->
      (forall b, o _ (ArrayBuffer b) = Ok tt) ->
      let rs := recordingState w in
      let audioBlob := newBlob (audioChunks rs) (mimeType rs) in
      o _ (RequestUrl (requestOf w audioBlob)) = Err e ->
      let shown := transcriptionErrorMessage e in
      exec o processRecording w
      = (set_recordingState (set_audioChunks [] rs)
           (logs [ENotice "🔄 Transcribing...";
                  EArrayBuffer audioBlob;
                  ERequestUrl (requestOf w audioBlob);
                  EConsoleError "OpenAI API error:" e;
                  EConsoleError "Transcription failed:" (Error shown);
                  ENotice ("❌ Transcription failed: " ++ shown)]
              (fst (exec o (saveToNote audioBlob) w))),
         Ok tt))
  /\ ((status e = Some 401%Z ->
       transcriptionErrorMessage e
       = "Invalid API Key or unauthorized")
      /\ (status e = Some 429%Z ->
          transcriptionErrorMessage e
          = "API request rate limit exceeded, please try again later")
      /\ (status e = Some 403%Z ->
          transcriptionErrorMessage e
          = "API access denied, please check API Key permissions")
      /\ (status e <> Some 401%Z -> status e <> Some 429%Z ->
          status e <> Some 403%Z ->
          transcriptionErrorMessage e
          = if Str.truthy (message e) then message e
            else "Transcription failed")).
Proof.
  split; [|split; [|split; [|apply transcriptionErrorMessage_cases]]].
  - intros Hidle Hmic. unfold startRecording.
    cbn [exec bind gets]. rewrite Hidle.
    cbn [exec bind try_catch await]. rewrite Hmic.
    cbn [exec bind try_catch console_error Notice emit modify]. f_equal.
    same_world.
  - intros b Hab Hfile. rewrite saveAudioFile_exec by exact Hab.
    now rewrite Hfile.
  - intros Hne Hguard Hab rs audioBlob Hreq shown.
    unfold processRecording. cbn [exec bind gets].
    destruct (audioChunks (recordingState w)) as [|c cs] eqn:Hc; [contradiction|].
    cbn [List.length Nat.eqb]. rewrite <- Hc. fold rs. fold audioBlob.
    rewrite exec_bind.
    destruct (saveToNote_frame o audioBlob w) as (Hs & Hrs & _ & _ & Hok).
    destruct (saveToNote_steps o audioBlob w (Hab _)) as (_ & Hhost).
    rewrite Hok, exec_bind.
    set (w1 := fst (exec o (saveToNote audioBlob) w)) in *.
    assert (Hreq1 : requestOf w1 audioBlob = requestOf w audioBlob).
    { unfold requestOf. rewrite Hs.
      destruct Hhost as (_ & _ & -> & _). reflexivity. }
    rewrite transcribeToNote_exec by (rewrite ?Hs; auto).
    rewrite Hreq1, Hreq. cbn [transcriptionOutcome fst snd].
    cbn [exec update_recordingState modify]. f_equal.
    unfold set_recordingState, logs.
    cbn [settings recordingState statusBarItem host trace].
    now rewrite Hrs.
Qed.

Lemma failures_are_notified_witness :
  exec (Sample.rejecting isGetUserMedia (Error "Permission denied"))
       startRecording Sample.idle
  = (logs [EGetUserMedia;
           EConsoleError "Failed to start recording:" (Error "Permission denied");
           ENotice ("Cannot access microphone: " ++ "Permission denied")]
       Sample.idle,
     Ok tt)
  /\ exec (Sample.rejecting isCreateBinary (Error "File already exists"))
          (saveAudioFile Sample.blob) Sample.idle
     = (logs [EArrayBuffer Sample.blob;
              ECreateBinary (audioFilePath (host Sample.idle) Sample.blob)
                (blob_data Sample.blob);
              EConsoleError "Failed to save audio file:"
                (Error "File already exists");
              ENotice ("❌ Failed to save audio file: " ++ "File already exists")]
          Sample.idle,
        Ok None)
  /\ notices
       (trace (fst (exec (Sample.rejecting isRequest Sample.unauthorized)
                      processRecording Sample.stopped)))
     = [ "🔄 Transcribing...";
         "❌ Transcription failed: Invalid API Key or unauthorized" ]
  /\ transcriptionErrorMessage Sample.unauthorized
     = "Invalid API Key or unauthorized".
Proof.
  split; [|split; [|split]].
  - exact (proj1 (failures_are_notified
                    (Sample.rejecting isGetUserMedia (Error "Permission denied"))
                    Sample.idle (Error "Permission denied"))
                 eq_refl eq_refl).
  - exact (proj1 (proj2 (failures_are_notified
                    (Sample.rejecting isCreateBinary (Error "File already exists"))
                    Sample.idle (Error "File already exists")))
                 Sample.blob eq_refl eq_refl).
  - rewrite (proj1 (proj2 (proj2 (failures_are_notified
                             (Sample.rejecting isRequest Sample.unauthorized)
                             Sample.stopped Sample.unauthorized)))
                   ltac:(discriminate) eq_refl (fun _ => eq_refl) eq_refl).
    vm_compute. reflexivity.
  - exact (proj1 (proj2 (proj2 (proj2 (failures_are_notified
                    Sample.fulfilled Sample.idle Sample.unauthorized))))
                 eq_refl).
Defined.

(** The claim as it was stated fails for the transcription request: with
    the key rejected (status 401) the one notice of the failure does not
    carry the error's message. *)
Lemma transcription_notice_hides_error_message :
  notices
    (trace (fst (exec (Sample.rejecting isRequest Sample.unauthorized)
                   processRecording Sample.stopped)))
  = [ "🔄 Transcribing...";
      "❌ Transcription failed: Invalid API Key or unauthorized" ]
  /\ forallb (fun text => negb (Str.includes (message Sample.unauthorized) text))
             (notices
                (trace (fst (exec (Sample.rejecting isRequest Sample.unauthorized)
                               processRecording Sample.stopped))))
     = true.
Proof. split; vm_compute; reflexivity. Qed.

(** ** Runs that other handlers interleave with *)

Section WpFacts.

Variable R : World -> World -> Prop.

Lemma wp_bind {A B : Type} (p : Prog A) (f : A -> Prog B)
  (Q : Result B -> World -> World -> Prop) :
  forall w0 w,
    wp R p (fun r wa wb =>
              match r with
              | Ok a => wp R (f a) Q wa wb
              | Err e => Q (Err e) wa wb
              end) w0 w ->
    wp R (bind p f) Q w0 w.
Proof.
  induction p as [a|e|k IH|w' k IH|X c k IH]; intros w0 w; cbn [wp bind]; auto.
  intros [H1 H2]. split; auto.
Qed.

Lemma wp_try_catch {A : Type} (p : Prog A) (h : JsError -> Prog A)
  (Q : Result A -> World -> World -> Prop) :
  forall w0 w,
    wp R p (fun r wa wb =>
              match r with
              | Ok a => Q (Ok a) wa wb
              | Err e => wp R (h e) Q wa wb
              end) w0 w ->
    wp R (try_catch p h) Q w0 w.
Proof.
  induction p as [a|e|k IH|w' k IH|X c k IH]; intros w0 w;
    cbn [wp try_catch]; auto.
  intros [H1 H2]. split; auto.
Qed.

(** One run of a program that satisfies [wp]. *)
Lemma wp_run_sync {A : Type} (p : Prog A) :
  forall w0 w,
    wp R p (fun _ => R) w0 w ->
    R w0 (fst (run_sync p w))
    /\ match snd (run_sync p w) with
       | Waiting c k => forall r, respects R (k r)
       | Done _ => True
       end.
Proof.
  induction p as [a|e|k IH|w' k IH|X c k IH]; intros w0 w; cbn [wp run_sync fst snd];
    auto.
Qed.

(** A run to the end is one of the interleavings. *)
Lemma wp_exec {A : Type} (o : Oracle) (p : Prog A)
  (Q : Result A -> World -> World -> Prop) :
  forall w0 w,
    wp R p Q w0 w ->
    exists wa, Q (snd (exec o p w)) wa (fst (exec o p w)).
Proof.
  induction p as [a|e|k IH|w' k IH|X c k IH]; intros w0 w; cbn [wp exec fst snd];
    eauto.
  intros [_ H2]. eapply IH. apply H2.
Qed.

End WpFacts.

(** *** Programs that keep a relation on the fragment sequence *)

Section Stable.

Variable R : World -> World -> Prop.
Hypothesis R_refl : forall w, R w w.
Hypothesis R_chunks :
  forall w0 w w',
    audioChunks (recordingState w') = audioChunks (recordingState w) ->
    R w0 w -> R w0 w'.
Hypothesis R_empty :
  forall w0 w', audioChunks (recordingState w') = [] -> R w0 w'.

Lemma stable_respects {A : Type} (p : Prog A) : stable R p -> respects R p.
Proof. intros H w. apply H; auto. Qed.

Lemma stable_ret {A : Type} (a : A) : stable R (Ret a).
Proof. intros Q w0 w HR HQ. cbn. auto. Qed.

Lemma stable_throw {A : Type} (e : JsError) : stable R (@Throw A e).
Proof. intros Q w0 w HR HQ. cbn. auto. Qed.

Lemma stable_bind {A B : Type} (p : Prog A) (f : A -> Prog B) :
  stable R p -> (forall a, stable R (f a)) -> stable R (bind p f).
Proof.
  intros Hp Hf Q w0 w HR HQ. apply wp_bind. apply Hp; [exact HR|].
  intros [a|e] wa wb Hab; [apply Hf|]; auto.
Qed.

Lemma stable_try_catch {A : Type} (p : Prog A) (h : JsError -> Prog A) :
  stable R p -> (forall e, stable R (h e)) -> stable R (try_catch p h).
Proof.
  intros Hp Hh Q w0 w HR HQ. apply wp_try_catch. apply Hp; [exact HR|].
  intros [a|e] wa wb Hab; [|apply Hh]; auto.
Qed.

Lemma stable_await {X : Type} (c : ExtCall X) : stable R (await c).
Proof.
  intros Q w0 w HR HQ. cbn [await wp]. split.
  - apply (R_chunks (w := w)); [reflexivity|exact HR].
  - intros [v|e] w1; cbn; apply HQ; apply R_refl.
Qed.

Lemma stable_gets {B : Type} (f : World -> B) : stable R (gets f).
Proof. intros Q w0 w HR HQ. cbn. auto. Qed.

Lemma stable_modify_keep (f : World -> World) :
  (forall w, audioChunks (recordingState (f w)) = audioChunks (recordingState w)) ->
  stable R (modify f).
Proof.
  intros Hf Q w0 w HR HQ. cbn. apply HQ. apply (R_chunks (w := w)); auto.
Qed.

Lemma stable_modify_clear (f : World -> World) :
  (forall w, audioChunks (recordingState (f w)) = []) ->
  stable R (modify f).
Proof. intros Hf Q w0 w HR HQ. cbn. apply HQ. apply R_empty; auto. Qed.

Lemma stable_editor_call {B : Type} (evs : Editor -> list Event)
  (f : Editor -> B * Editor) : stable R (editor_call evs f).
Proof.
  intros Q w0 w HR HQ. unfold editor_call. cbn [wp].
  destruct (activeLeaf (host w)) as [[vt [ed|]]|]; cbn [wp]; auto.
  destruct (ed_fault ed); cbn [wp]; auto.
  apply HQ. apply (R_chunks (w := w)); auto.
Qed.

Lemma stable_new_MediaRecorder (s : MediaStream) (type : string) (bits : Z) :
  stable R (new_MediaRecorder s type bits).
Proof.
  intros Q w0 w HR HQ. unfold new_MediaRecorder. cbn [wp].
  destruct (recorderFault (host w)); cbn [wp]; auto.
  apply HQ. apply (R_chunks (w := w)); auto.
Qed.

Lemma stable_recorder_start (r : MediaRecorder) (t : Z) :
  stable R (recorder_start r t).
Proof.
  intros Q w0 w HR HQ. unfold recorder_start. cbn [wp].
  destruct (startFault (host w)); cbn [wp]; auto.
  apply HQ. apply (R_chunks (w := w)); auto.
Qed.

Ltac stable_step :=
  first
    [ match goal with
      | H : _ |- stable R _ => solve [apply H]
      end
    | apply stable_ret
    | apply stable_throw
    | apply stable_await
    | apply stable_gets
    | apply stable_editor_call
    | apply stable_new_MediaRecorder
    | apply stable_recorder_start
    | apply stable_modify_keep; intros; reflexivity
    | apply stable_modify_clear; intros; reflexivity
    | apply stable_bind; [|intros]
    | apply stable_try_catch; [|intros]
    | match goal with
      | |- stable R (match ?x with _ => _ end) => destruct x
      end
    ].

Ltac stable_tac := repeat stable_step.

Lemma stable_insertTextToEditor (text : string) :
  stable R (insertTextToEditor text).
Proof.
  unfold insertTextToEditor, editor_getCursor, editor_replaceRange,
    editor_setCursor, Notice, console_error, emit.
  stable_tac.
Qed.

Lemma stable_saveAudioFile (b : Blob) : stable R (saveAudioFile b).
Proof.
  unfold saveAudioFile, Blob_arrayBuffer, Notice, console_error, emit.
  stable_tac.
Qed.

Lemma stable_transcribeAudio (b : Blob) : stable R (transcribeAudio b).
Proof.
  unfold transcribeAudio, Blob_arrayBuffer, Notice, console_error, emit.
  stable_tac.
Qed.

Lemma stable_saveToNote (b : Blob) : stable R (saveToNote b).
Proof.
  pose proof stable_saveAudioFile. pose proof stable_insertTextToEditor.
  unfold saveToNote. stable_tac; auto.
Qed.

Lemma stable_transcribeToNote (b : Blob) : stable R (transcribeToNote b).
Proof.
  pose proof stable_transcribeAudio. pose proof stable_insertTextToEditor.
  unfold transcribeToNote, Notice, console_error, emit. stable_tac; auto.
Qed.

Lemma stable_processRecording : stable R processRecording.
Proof.
  pose proof stable_saveToNote. pose proof stable_transcribeToNote.
  unfold processRecording, update_recordingState, Notice, emit.
  stable_tac; auto.
Qed.

Lemma stable_updateStatusBar : stable R updateStatusBar.
Proof.
  unfold updateStatusBar, statusBar_setText, setTimeout, Date_now, emit.
  stable_tac.
Qed.

Lemma stable_startRecording : stable R startRecording.
Proof.
  pose proof stable_updateStatusBar.
  unfold startRecording, update_recordingState, Date_now, Notice,
    console_error, emit.
  stable_tac; auto.
Qed.

Lemma stable_stopRecording : stable R stopRecording.
Proof.
  unfold stopRecording, update_recordingState, recorder_stop, tracks_stop,
    statusBar_setText, Notice, emit.
  stable_tac.
Qed.

Lemma stable_saveSettings : stable R saveSettings.
Proof. unfold saveSettings. stable_tac. Qed.

(** Every handler but the fragment-arrival callback. *)
Lemma stable_handler (i : Input) :
  (forall data, i <> DataAvailable data) -> stable R (handler i).
Proof.
  pose proof stable_startRecording. pose proof stable_stopRecording.
  pose proof stable_processRecording. pose proof stable_updateStatusBar.
  pose proof stable_saveSettings.
  intros Hi. destruct i; cbn [handler];
    try (exfalso; eapply Hi; reflexivity);
    unfold toggleRecording, onstop, onTimeout, onChangeApiKey, onChangeEnable,
      onunload;
    stable_tac; auto.
Qed.

End Stable.

(** *** The event loop keeps what every handler keeps *)

Section Loop.

Variable R : World -> World -> Prop.
Hypothesis R_refl : forall w, R w w.
Hypothesis R_chunks :
  forall w0 w w',
    audioChunks (recordingState w') = audioChunks (recordingState w) ->
    R w0 w -> R w0 w'.

(** The inputs whose handler is not asked to keep [R]; they must not park
    a task. *)
Variable exempt : Input -> bool.
Hypothesis exempt_ends :
  forall i w, exempt i = true -> exists r, snd (run_sync (handler i) w) = Done r.
Hypothesis handlers_respect :
  forall i, exempt i = false -> respects R (handler i).

Lemma spawn_respects (p : Prog unit) (s : System) :
  respects R p ->
  Forall (task_respects R) (sys_tasks s) ->
  R (sys_world s) (sys_world (spawn p s))
  /\ Forall (task_respects R) (sys_tasks (spawn p s)).
Proof.
  intros Hp Ht.
  destruct (@wp_run_sync R unit p (sys_world s) (sys_world s) (Hp (sys_world s)))
    as [H1 H2].
  unfold spawn. cbn [sys_world sys_tasks]. split; [exact H1|].
  destruct (snd (run_sync p (sys_world s))) as [r|X c k]; [exact Ht|].
  apply Forall_app. split; [exact Ht|]. constructor; [exact H2|constructor].
Qed.

Lemma step_tasks (s s' : System) (l : Label) :
  Forall (task_respects R) (sys_tasks s) ->
  step s l s' ->
  Forall (task_respects R) (sys_tasks s').
Proof.
  intros Ht Hstep. destruct Hstep as [s i|s pre post X c k r E|s h].
  - destruct (exempt i) eqn:Hex.
    + destruct (exempt_ends (sys_world s) Hex) as [r Hr].
      unfold spawn. cbn [sys_tasks]. now rewrite Hr.
    + now apply spawn_respects; [apply handlers_respect|].
  - rewrite E in Ht. apply Forall_app in Ht as [Hpre Hpost].
    apply Forall_cons_iff in Hpost as [Hk Hpost].
    apply spawn_respects; [apply Hk|].
    cbn [sys_tasks]. apply Forall_app. now split.
  - exact Ht.
Qed.

Lemma reachable_tasks (s : System) :
  reachable s -> Forall (task_respects R) (sys_tasks s).
Proof.
  induction 1 as [s [_ Hinit]|s s' l _ IH Hstep].
  - rewrite Hinit. constructor.
  - eapply step_tasks; eauto.
Qed.

Lemma step_respects (s s' : System) (l : Label) :
  reachable s ->
  step s l s' ->
  (forall i, l = LInput i -> exempt i = false) ->
  R (sys_world s) (sys_world s').
Proof.
  intros Hreach Hstep Hl. pose proof (reachable_tasks Hreach) as Ht.
  destruct Hstep as [s i|s pre post X c k r E|s h].
  - apply spawn_respects; [|exact Ht]. apply handlers_respect. now apply Hl.
  - rewrite E in Ht. apply Forall_app in Ht as [Hpre Hpost].
    apply Forall_cons_iff in Hpost as [Hk Hpost].
    apply (@spawn_respects (k r)
             {| sys_world := sys_world s; sys_tasks := (pre ++ post)%list |});
      [apply Hk|].
    cbn [sys_tasks]. apply Forall_app. now split.
  - cbn [sys_world]. apply (R_chunks (w := sys_world s)); [reflexivity|apply R_refl].
Qed.

End Loop.

(** ** Fragments have a positive size *)

Lemma keepsPositive_handler (i : Input) : respects keepsPositive (handler i).
Proof.
  assert (Hrefl : forall w, keepsPositive w w) by (intros w H; exact H).
  assert (Hchunks : forall w0 w w',
             audioChunks (recordingState w') = audioChunks (recordingState w) ->
             keepsPositive w0 w -> keepsPositive w0 w').
  { unfold keepsPositive, allPositive. intros w0 w w' E H H0. rewrite E. auto. }
  assert (Hempty : forall w0 w', audioChunks (recordingState w') = [] ->
                                 keepsPositive w0 w').
  { unfold keepsPositive, allPositive. intros w0 w' E _. rewrite E. constructor. }
  destruct i as [|data| | | | |];
    try (apply stable_respects; [exact Hrefl|];
         apply stable_handler; [exact Hrefl|exact Hchunks|exact Hempty|];
         intros d; discriminate).
  intros w. cbn [handler]. unfold ondataavailable.
  destruct data as [d|]; [|cbn; auto].
  destruct (Nat.ltb 0 (blob_size d)) eqn:Hsize; [|cbn; auto].
  cbn. unfold keepsPositive, allPositive. cbn. intros H.
  apply Forall_app. split; [exact H|].
  constructor; [|constructor]. now apply Nat.ltb_lt.
Qed.

(** *** Programs that do not throw *)

Lemma nothrow_ret {A : Type} (a : A) : nothrow (Ret a).
Proof. intros Q w0 w HQ. cbn. auto. Qed.

Lemma nothrow_bind {A B : Type} (p : Prog A) (f : A -> Prog B) :
  nothrow p -> (forall a, nothrow (f a)) -> nothrow (bind p f).
Proof.
  intros Hp Hf Q w0 w HQ. apply wp_bind. apply Hp.
  intros a wa wb. now apply Hf.
Qed.

Lemma nothrow_try_catch {A : Type} (p : Prog A) (h : JsError -> Prog A) :
  (forall e, nothrow (h e)) -> nothrow (try_catch p h).
Proof.
  intros Hh Q w0 w HQ. revert w0 w.
  induction p as [a|e|k IH|w' k IH|X c k IH]; intros w0 w; cbn [try_catch wp];
    auto.
  - now apply Hh.
  - split; [exact I|auto].
Qed.

Lemma nothrow_gets {B : Type} (f : World -> B) : nothrow (gets f).
Proof. intros Q w0 w HQ. cbn. auto. Qed.

Lemma nothrow_modify (f : World -> World) : nothrow (modify f).
Proof. intros Q w0 w HQ. cbn. auto. Qed.

Ltac nothrow_step :=
  first
    [ match goal with
      | H : _ |- nothrow _ => solve [apply H]
      end
    | apply nothrow_ret
    | apply nothrow_gets
    | apply nothrow_modify
    | apply nothrow_try_catch; intros
    | apply nothrow_bind; [|intros]
    | match goal with
      | |- nothrow (match ?x with _ => _ end) => destruct x
      end ].

Lemma nothrow_insertTextToEditor (text : string) :
  nothrow (insertTextToEditor text).
Proof.
  unfold insertTextToEditor, Notice, console_error, emit.
  repeat nothrow_step.
Qed.

Lemma nothrow_saveToNote (b : Blob) : nothrow (saveToNote b).
Proof.
  pose proof nothrow_insertTextToEditor.
  unfold saveToNote, saveAudioFile, Notice, console_error, emit.
  repeat nothrow_step.
Qed.

Lemma nothrow_transcribeToNote (b : Blob) : nothrow (transcribeToNote b).
Proof.
  unfold transcribeToNote, Notice, console_error, emit.
  repeat nothrow_step.
Qed.

(** Whatever runs in between, [processRecording] ends with an empty
    fragment sequence. *)
Lemma processRecording_clears (w0 w : World) :
  wp anything processRecording
     (fun _ _ w' => audioChunks (recordingState w') = []) w0 w.
Proof.
  unfold processRecording. cbn [bind gets wp].
  destruct (audioChunks (recordingState w)) as [|c cs] eqn:Hc.
  - cbn. exact Hc.
  - cbn [List.length Nat.eqb]. apply wp_bind. apply nothrow_saveToNote.
    intros _ wa wb. apply wp_bind. apply nothrow_transcribeToNote.
    intros _ wa' wb'. cbn. reflexivity.
Qed.

(** The first run of a handler other than the fragment-arrival callback
    leaves the fragment sequence as it is. *)
Lemma first_run_keeps (i : Input) (w : World) :
  (forall data, i <> DataAvailable data) ->
  audioChunks (recordingState (fst (run_sync (handler i) w)))
  = audioChunks (recordingState w).
Proof.
  intros Hi. destruct i; cbn [handler];
    try (exfalso; eapply Hi; reflexivity);
    unfold toggleRecording, startRecording, stopRecording, onstop,
      processRecording, saveToNote, saveAudioFile, onTimeout, updateStatusBar,
      onChangeApiKey, onChangeEnable, saveSettings, onunload;
    exec_cases; reflexivity.
Qed.

Lemma startRecording_fresh (w : World) :
  isRecording (recordingState w) = false ->
  exists k,
    run_sync startRecording w = (logs [EGetUserMedia] w, Waiting GetUserMedia k)
    /\ forall w1 s,
         recorderFault (host w1) = None ->
         startFault (host w1) = None ->
         recordingState (fst (run_sync (k (Ok s)) w1)) = freshSession (host w1) s
         /\ snd (run_sync (k (Ok s)) w1) = Done (Ok tt).
Proof.
  intros Hidle. unfold startRecording. cbn [run_sync bind gets]. rewrite Hidle.
  cbn [try_catch bind await run_sync]. eexists. split; [reflexivity|].
  intros w1 s Hrf Hsf. cbn. rewrite Hrf. cbn. rewrite Hsf.
  unfold updateStatusBar, freshSession. exec_cases; split; reflexivity.
Qed.

(** The fragment-arrival callback appends the fragment it accepts. *)
Lemma ondataavailable_run (data : option Blob) (w : World) :
  run_sync (ondataavailable data) w
  = (set_recordingState
       (set_audioChunks (audioChunks (recordingState w) ++ accepted data)%list
          (recordingState w)) w,
     Done (Ok tt)).
Proof.
  unfold ondataavailable, accepted.
  destruct data as [d|]; [destruct (Nat.ltb 0 (blob_size d))|];
    try reflexivity; cbn; rewrite app_nil_r; now destruct w as [? []].
Qed.

(** C8. Every fragment stored in the fragment sequence is not empty: the
    fragment-arrival callback appends the incoming fragment only when it
    exists and its size is greater than zero, and in every reachable state
    of the plugin, whatever the interleaving of handlers and of the runs
    resumed after an await, every element of [audioChunks] has a positive
    size. *)
Theorem fragments_are_nonempty :
  (forall data w,
      run_sync (ondataavailable data) w
      = (set_recordingState
           (set_audioChunks
              (audioChunks (recordingState w) ++ accepted data)%list
              (recordingState w)) w,
         Done (Ok tt))
      /\ (forall d, In d (accepted data) <-> data = Some d /\ 0 < blob_size d))
  /\ (forall s, reachable s -> allPositive (sys_world s)).
Proof.
  split.
  - intros data w. split; [apply ondataavailable_run|].
    intros d. unfold accepted.
    destruct data as [d'|]; [destruct (Nat.ltb_spec 0 (blob_size d'))|]; cbn.
    + split.
      * intros [->|[]]. auto.
      * intros [E _]. injection E as ->. auto.
    + split; [tauto|]. intros [E Hd]. injection E as ->. lia.
    + split; [tauto|]. intros [E _]. discriminate.
  - induction 1 as [s [Hinit _]|s s' l Hreach IH Hstep].
    + unfold allPositive. rewrite Hinit. constructor.
    + revert IH.
      apply (@step_respects keepsPositive) with (exempt := fun _ => false) (l := l);
        auto.
      * intros w H; exact H.
      * unfold keepsPositive, allPositive. intros w0 w w' E H H0. rewrite E. auto.
      * discriminate.
      * intros i _. apply keepsPositive_handler.
Qed.

Lemma fragments_are_nonempty_witness :
  allPositive
    (sys_world
       (spawn (handler (DataAvailable (Some Sample.blob)))
          {| sys_world := Sample.idle; sys_tasks := [] |})).
Proof.
  apply (proj2 fragments_are_nonempty).
  apply reach_step
    with (s := {| sys_world := Sample.idle; sys_tasks := [] |})
         (l := LInput (DataAvailable (Some Sample.blob))).
  - apply reach_initial. split; reflexivity.
  - apply step_input.
Defined.

(** ** The life of a session *)

Lemma resetOrKept_refl (w : World) : resetOrKept w w.
Proof. now left. Qed.

Lemma resetOrKept_chunks (w0 w w' : World) :
  audioChunks (recordingState w') = audioChunks (recordingState w) ->
  resetOrKept w0 w -> resetOrKept w0 w'.
Proof. unfold resetOrKept. intros E [H|H]; rewrite E; auto. Qed.

Lemma resetOrKept_empty (w0 w' : World) :
  audioChunks (recordingState w') = [] -> resetOrKept w0 w'.
Proof. unfold resetOrKept. auto. Qed.

Lemma isData_ends (i : Input) (w : World) :
  isData i = true -> exists r, snd (run_sync (handler i) w) = Done r.
Proof.
  destruct i; cbn [isData]; intros H; try discriminate.
  cbn [handler]. rewrite ondataavailable_run. eexists. reflexivity.
Qed.

Lemma resetOrKept_handler (i : Input) :
  isData i = false -> respects resetOrKept (handler i).
Proof.
  intros Hi. apply (@stable_respects resetOrKept resetOrKept_refl).
  apply (@stable_handler resetOrKept resetOrKept_refl resetOrKept_chunks
           resetOrKept_empty).
  intros d ->. discriminate.
Qed.

(** A run that is not the fragment-arrival callback keeps the fragment
    sequence or empties it. *)
Lemma step_resets_or_keeps (s s' : System) (l : Label) :
  reachable s ->
  step s l s' ->
  (forall i, l = LInput i -> isData i = false) ->
  resetOrKept (sys_world s) (sys_world s').
Proof.
  exact (@step_respects resetOrKept resetOrKept_refl resetOrKept_chunks isData
           isData_ends resetOrKept_handler s s' l).
Qed.

(** X20. What holds of the plugin's current fragment sequence.  A successful
    start (the microphone request fulfilled, the recorder built and started)
    creates a fresh session, in whatever state the plugin is when the
    request is fulfilled: the flag set, no fragment, the start time and the
    negotiated type set.  The sequence grows only in the fragment-arrival
    callback; no other handler changes it in its first run, a change of the
    host never does, and a resumed run either keeps it or empties it.
    [processRecording] always ends with the sequence empty, whatever runs in
    between, and with fragments buffered the file it saves holds their bytes
    in order. *)
Lemma current_sequence_lifecycle :
  (forall w,
      isRecording (recordingState w) = false ->
      exists k,
        run_sync startRecording w
        = (logs [EGetUserMedia] w, Waiting GetUserMedia k)
        /\ forall w1 s,
             recorderFault (host w1) = None ->
             startFault (host w1) = None ->
             recordingState (fst (run_sync (k (Ok s)) w1))
             = freshSession (host w1) s
             /\ snd (run_sync (k (Ok s)) w1) = Done (Ok tt))
  /\ (forall s l s',
        reachable s ->
        step s l s' ->
        match l with
        | LInput (DataAvailable data) =>
            chunksOf s' = (chunksOf s ++ accepted data)%list
        | LInput _ => chunksOf s' = chunksOf s
        | LHost => chunksOf s' = chunksOf s
        | LResume => chunksOf s' = chunksOf s \/ chunksOf s' = []
        end)
  /\ (forall w0 w,
        wp anything processRecording
           (fun _ _ w' => audioChunks (recordingState w') = []) w0 w)
  /\ (forall (o : Oracle) (w : World),
        audioChunks
          (recordingState (fst (exec o processRecording w)))
        = [])
  /\ (forall (o : Oracle) (w : World),
        audioChunks (recordingState w) <> [] ->
        (forall b, o _ (ArrayBuffer b) = Ok tt) ->
        exists rest,
          steps (trace (fst (exec o processRecording w)))
          = (steps (trace w)
             ++ SaveFile
                  (audioFilePath (host w)
                     (newBlob (audioChunks (recordingState w))
                        (mimeType (recordingState w))))
                  (List.concat (map blob_data (audioChunks (recordingState w))))
                :: rest)%list).
Proof.
  split; [|split; [|split; [|split]]].
  - apply startRecording_fresh.
  - intros s l s' Hreach Hstep.
    destruct Hstep as [s i|s pre post X c k r E|s h].
    + unfold chunksOf, spawn. cbn [sys_world].
      destruct i as [|data| | | | |];
        try (apply first_run_keeps; intros d; discriminate).
      cbn [handler]. now rewrite ondataavailable_run.
    + apply (@step_resets_or_keeps s _ LResume Hreach).
      * now apply (@step_resume s pre post X c k r).
      * discriminate.
    + reflexivity.
  - apply processRecording_clears.
  - intros o w.
    destruct (@wp_exec anything unit o processRecording _ w w
                (processRecording_clears w w)) as [wa H].
    exact H.
  - intros o w Hne Hab.
    rewrite (processRecording_steps o w Hne). unfold stepsOnStop.
    rewrite Hab. cbn [app]. eexists. reflexivity.
Qed.

Lemma current_sequence_lifecycle_witness :
  chunksOf (input (DataAvailable (Some Sample.blob)) Overlap.start)
  = (chunksOf Overlap.start ++ accepted (Some Sample.blob))%list
  /\ audioChunks
       (recordingState (fst (exec Sample.fulfilled processRecording Sample.stopped)))
     = []
  /\ exists rest,
       steps (trace (fst (exec Sample.fulfilled processRecording Sample.stopped)))
       = (steps (trace Sample.stopped)
          ++ SaveFile
               (audioFilePath (host Sample.stopped)
                  (newBlob (audioChunks (recordingState Sample.stopped))
                     (mimeType (recordingState Sample.stopped))))
               (List.concat
                  (map blob_data (audioChunks (recordingState Sample.stopped))))
             :: rest)%list.
Proof.
  split; [|split].
  - exact (proj1 (proj2 current_sequence_lifecycle)
             Overlap.start (LInput (DataAvailable (Some Sample.blob)))
             (input (DataAvailable (Some Sample.blob)) Overlap.start)
             (@reach_initial Overlap.start (conj eq_refl eq_refl))
             (@step_input Overlap.start (DataAvailable (Some Sample.blob)))).
  - exact (proj1 (proj2 (proj2 (proj2 current_sequence_lifecycle)))
             Sample.fulfilled Sample.stopped).
  - refine (proj2 (proj2 (proj2 (proj2 current_sequence_lifecycle)))
              Sample.fulfilled Sample.stopped _ (fun _ => eq_refl)).
    discriminate.
Defined.

(** *** A recording started while the previous one is transcribed *)

Lemma resumeAt_step (n : nat) (o : Oracle) (s : System) :
  n < List.length (sys_tasks s) -> step s LResume (resumeAt n o s).
Proof.
  intros Hn. unfold resumeAt.
  destruct (nth_error (sys_tasks s) n) as [[X c k]|] eqn:E.
  - destruct (nth_error_split _ _ E) as (l1 & l2 & Hl & Hlen).
    assert (Hpre : firstn n (sys_tasks s) = l1).
    { rewrite Hl, firstn_app, Hlen, Nat.sub_diag, firstn_O, app_nil_r.
      rewrite <- Hlen. apply firstn_all. }
    assert (Hpost : skipn (S n) (sys_tasks s) = l2).
    { rewrite Hl, skipn_app, Hlen.
      rewrite skipn_all2 by lia.
      replace (S n - n) with 1 by lia. reflexivity. }
    rewrite Hpre, Hpost. now apply (@step_resume s l1 l2 X c k (o X c)).
  - apply nth_error_None in E. lia.
Qed.

Lemma reachable_input (i : Input) (s : System) :
  reachable s -> reachable (input i s).
Proof. intros H. eapply reach_step; [exact H|apply step_input]. Qed.

Lemma reachable_hostChange (h : Host) (s : System) :
  reachable s -> reachable (hostChange h s).
Proof. intros H. eapply reach_step; [exact H|apply step_host]. Qed.

Lemma reachable_resumeAt (n : nat) (o : Oracle) (s : System) :
  reachable s -> reachable (resumeAt n o s).
Proof.
  intros H. destruct (Nat.lt_ge_cases n (List.length (sys_tasks s))) as [Hn|Hn].
  - eapply reach_step; [exact H|now apply resumeAt_step].
  - unfold resumeAt. apply nth_error_None in Hn. now rewrite Hn.
Qed.

Lemma reachable_transcribing : reachable Overlap.transcribing.
Proof.
  unfold Overlap.transcribing.
  repeat first [apply reachable_resumeAt | apply reachable_input].
  apply reach_initial. split; reflexivity.
Qed.

(** C4.  The claimed life cycle fails on the code when a recording is
    started while the previous one is still being transcribed.  The plugin
    reaches a state where the
    second session is recording and holds its first fragment; the first
    session's [processRecording], resumed when its transcription request is
    answered, then empties the second session's fragment sequence (line 247
    acts on [this.recordingState] as it is after the awaits), the second
    session still recording: the sequence is changed by something else than
    a fragment arrival and cleared before its file is composed.  The file
    saved at the end of the second recording holds the bytes of the later
    fragment only. *)
Theorem late_clear_empties_running_session :
  reachable Overlap.secondRecording
  /\ isRecording (recordingState (sys_world Overlap.secondRecording)) = true
  /\ chunksOf Overlap.secondRecording = [Overlap.blobB]
  /\ step Overlap.secondRecording LResume Overlap.lateClear
  /\ recordingState (sys_world Overlap.lateClear)
     = set_audioChunks [] (recordingState (sys_world Overlap.secondRecording))
  /\ reachable Overlap.secondSaved
  /\ filter (fun st => match st with SaveFile _ _ => true | _ => false end)
            (steps (trace (sys_world Overlap.secondSaved)))
     = [ SaveFile "notes/voice-note-2024-01-02T03-04-05-678Z.wav"
           (blob_data Sample.blob);
         SaveFile "notes/voice-note-2024-01-02T03-04-15-678Z.wav"
           (blob_data Overlap.blobB2) ].
Proof.
  assert (Hsecond : reachable Overlap.secondRecording).
  { unfold Overlap.secondRecording.
    apply reachable_input, reachable_resumeAt, reachable_input,
      reachable_hostChange, reachable_transcribing. }
  split; [exact Hsecond|].
  split; [vm_compute; reflexivity|].
  split; [vm_compute; reflexivity|].
  split; [apply resumeAt_step; vm_compute; lia|].
  split; [vm_compute; reflexivity|].
  split.
  - unfold Overlap.secondSaved, Overlap.lateClear.
    do 2 apply reachable_resumeAt. do 3 apply reachable_input.
    apply reachable_resumeAt. exact Hsecond.
  - vm_compute. reflexivity.
Qed.

(** * Further properties of the code *)

(** ** The negotiated format *)

Lemma selectFormat_spec (h : Host) (options : list (string * string))
  (selected : string * string) :
  (exists pre post,
      options = (pre ++ selectFormat h options selected :: post)%list
      /\ isTypeSupported h (fst (selectFormat h options selected)) = true
      /\ noneSupported h pre = true)
  \/ (selectFormat h options selected = selected
      /\ noneSupported h options = true).
Proof.
  induction options as [|f rest IH]; [right; split; reflexivity|].
  unfold selectFormat; fold selectFormat. unfold noneSupported; cbn [forallb].
  destruct (isTypeSupported h (fst f)) eqn:Hf.
  - left. exists [], rest. repeat split. exact Hf.
  - destruct IH as [(pre & post & E & Hs & Hn)|[E Hn]].
    + left. exists (f :: pre), post. split; [|split].
      * cbn [app]. now rewrite <- E.
      * exact Hs.
      * unfold noneSupported. cbn [forallb]. rewrite Hf. exact Hn.
    + right. split; [exact E|exact Hn].
Qed.

Lemma negotiated_in_options (h : Host) :
  In (selectFormat h formatOptions ("audio/webm", ".webm")) formatOptions.
Proof.
  destruct (selectFormat_spec h formatOptions ("audio/webm", ".webm"))
    as [(pre & post & E & _)|[E _]].
  - rewrite E at 2. apply in_or_app. right. left. reflexivity.
  - rewrite E. right. left. reflexivity.
Qed.

(** X1. The format negotiation of [startRecording] (lines 146-152) chooses
    the first format of the list that the browser supports, none of the
    formats before it being supported, and keeps the default when the
    browser supports none.  With the list and the default of the source the
    chosen format is always one of the five of the list. *)
Theorem selectFormat_first_supported (h : Host)
  (options : list (string * string)) (selected : string * string) :
  let chosen := selectFormat h options selected in
  ((exists pre post,
       options = (pre ++ chosen :: post)%list
       /\ isTypeSupported h (fst chosen) = true
       /\ noneSupported h pre = true)
   \/ (chosen = selected /\ noneSupported h options = true))
  /\ In (selectFormat h formatOptions ("audio/webm", ".webm")) formatOptions.
Proof.
  split; [apply selectFormat_spec|apply negotiated_in_options].
Qed.

Lemma extension_agrees (type : string) :
  uploadFilename type = "audio" ++ fileExtension type.
Proof.
  unfold uploadFilename, fileExtension.
  destruct (Str.includes "webm" type); [reflexivity|].
  destruct (Str.includes "mp3" type || Str.includes "mpeg" type)%bool;
    [reflexivity|].
  destruct (Str.includes "wav" type); [reflexivity|].
  destruct (Str.includes "ogg" type); reflexivity.
Qed.

(** X2. The two chains of [includes] tests agree: for every type, the file
    name sent to the endpoint is "audio" followed by the extension of the
    saved file.  For each format of [formatOptions], and so for the
    negotiated one, that extension is the one the list pairs with the type. *)
Theorem extension_matches_format (h : Host) :
  (forall type, uploadFilename type = "audio" ++ fileExtension type)
  /\ Forall (fun format => fileExtension (fst format) = snd format) formatOptions
  /\ fileExtension (fst (selectFormat h formatOptions ("audio/webm", ".webm")))
     = snd (selectFormat h formatOptions ("audio/webm", ".webm")).
Proof.
  assert (H : Forall (fun format => fileExtension (fst format) = snd format)
                     formatOptions)
    by (repeat constructor).
  split; [exact extension_agrees|]. split; [exact H|].
  rewrite Forall_forall in H. apply H, negotiated_in_options.
Qed.

(** ** The merge loop *)

Lemma mergeLoop_room (parts : list bytes) :
  forall (pre : bytes) (room : nat),
    mergeLoop parts (pre ++ Uint8Array.make room)%list (List.length pre)
    = if Nat.leb (totalLength parts) room
      then Some (pre ++ List.concat parts
                 ++ Uint8Array.make (room - totalLength parts))%list
      else None.
Proof.
  induction parts as [|p parts IH]; intros pre room.
  - cbn. now rewrite Nat.sub_0_r.
  - cbn [mergeLoop]. rewrite !totalLength_concat. cbn [List.concat].
    rewrite length_app. unfold Uint8Array.make.
    destruct (Nat.leb_spec (List.length p) room) as [Hfit|Hover].
    + replace room with (List.length p + (room - List.length p)) at 1 by lia.
      rewrite repeat_app.
      rewrite Uint8Array_set_fits by apply repeat_length.
      replace (List.length pre + List.length p)
        with (List.length (pre ++ p)%list) by apply length_app.
      rewrite app_assoc. fold (Uint8Array.make (room - List.length p)).
      rewrite IH, totalLength_concat.
      destruct (Nat.leb_spec (List.length (List.concat parts))
                             (room - List.length p));
        destruct (Nat.leb_spec (List.length p + List.length (List.concat parts))
                               room); try lia; [|reflexivity].
      rewrite <- !app_assoc.
      now replace (room - List.length p - List.length (List.concat parts))
        with (room - (List.length p + List.length (List.concat parts))) by lia.
    + unfold Uint8Array.set. rewrite length_app, repeat_length.
      destruct (Nat.leb_spec (List.length pre + List.length p)
                             (List.length pre + room)); [lia|].
      destruct (Nat.leb_spec (List.length p + List.length (List.concat parts))
                             room); [lia|reflexivity].
Qed.

(** X3. The merge loop of [transcribeAudio] (lines 330-336) fills a buffer
    of [totalLength] bytes with the parts in order, no [set] being out of
    range.  That length is the least that works: in a shorter buffer some
    [set] is out of range, and in a longer one the parts are followed by the
    zero bytes that are left. *)
Theorem merge_needs_the_total_length (parts : list bytes) (n : nat) :
  mergeParts parts = Some (List.concat parts)
  /\ (n < totalLength parts -> mergeLoop parts (Uint8Array.make n) 0 = None)
  /\ (totalLength parts <= n ->
      mergeLoop parts (Uint8Array.make n) 0
      = Some (List.concat parts ++ Uint8Array.make (n - totalLength parts))%list).
Proof.
  pose proof (mergeLoop_room parts [] n) as H. cbn [app List.length] in H.
  split; [apply mergeParts_concat|]. split; intros Hn; rewrite H.
  - destruct (Nat.leb_spec (totalLength parts) n); [lia|reflexivity].
  - destruct (Nat.leb_spec (totalLength parts) n); [reflexivity|lia].
Qed.

Lemma merge_needs_the_total_length_witness :
  mergeLoop [[x01; x02]; [x03]] (Uint8Array.make 2) 0 = None
  /\ mergeLoop [[x01; x02]; [x03]] (Uint8Array.make 4) 0
     = Some [x01; x02; x03; x00].
Proof.
  split.
  - apply (proj1 (proj2 (merge_needs_the_total_length [[x01; x02]; [x03]] 2))).
    vm_compute. lia.
  - apply (proj2 (proj2 (merge_needs_the_total_length [[x01; x02]; [x03]] 4))).
    vm_compute. lia.
Defined.

(** ** The name of the saved file *)

(** [s.includes(c)] for a one-character string. *)
Lemma includes_char (c : ascii) (s : string) :
  Str.includes (String c "") s = existsb (Ascii.eqb c) (list_ascii_of_string s).
Proof.
  induction s as [|a s IH]; [reflexivity|].
  unfold Str.includes; fold Str.includes.
  cbn [String.prefix list_ascii_of_string existsb].
  destruct (ascii_dec c a) as [->|Hne].
  - rewrite Ascii.eqb_refl. now destruct s.
  - apply Ascii.eqb_neq in Hne. rewrite Hne. now rewrite IH.
Qed.

Lemma replaceColonDot_clean (s : string) :
  existsb (Ascii.eqb ":") (list_ascii_of_string (Str.replaceColonDot s)) = false
  /\ existsb (Ascii.eqb ".") (list_ascii_of_string (Str.replaceColonDot s)) = false.
Proof.
  induction s as [|a s [IH1 IH2]]; [split; reflexivity|].
  unfold Str.replaceColonDot; fold Str.replaceColonDot.
  cbn [list_ascii_of_string existsb]. rewrite IH1, IH2, !orb_false_r.
  destruct (Ascii.eqb_spec a ":") as [->|H1]; [split; reflexivity|].
  destruct (Ascii.eqb_spec a ".") as [->|H2]; [split; reflexivity|].
  cbn [orb]. split; apply Ascii.eqb_neq; congruence.
Qed.

Lemma replaceColonDot_length (s : string) :
  String.length (Str.replaceColonDot s) = String.length s.
Proof.
  induction s as [|a s IH]; [reflexivity|].
  unfold Str.replaceColonDot; fold Str.replaceColonDot. cbn [String.length].
  now rewrite IH.
Qed.

Lemma fileExtension_cases (type : string) :
  In (fileExtension type) [".webm"; ".mp3"; ".wav"; ".ogg"].
Proof.
  unfold fileExtension.
  destruct (Str.includes "webm" type); [cbn; auto|].
  destruct (Str.includes "mp3" type || Str.includes "mpeg" type)%bool; [cbn; auto|].
  destruct (Str.includes "wav" type); [cbn; auto|].
  destruct (Str.includes "ogg" type); cbn; auto.
Qed.

(** X4. The name of the saved file is "voice-note-", then the time stamp
    with every colon and every dot replaced, then one of the four
    extensions.  The time stamp keeps its length; the name holds no colon,
    and no dot before the extension. *)
Theorem filename_is_portable (h : Host) (audioBlob : Blob) :
  let timestamp := Str.replaceColonDot (isoString h) in
  filename h audioBlob
  = "voice-note-" ++ timestamp ++ fileExtension (blob_type audioBlob)
  /\ In (fileExtension (blob_type audioBlob)) [".webm"; ".mp3"; ".wav"; ".ogg"]
  /\ String.length timestamp = String.length (isoString h)
  /\ Str.includes ":" (filename h audioBlob) = false
  /\ Str.includes "." ("voice-note-" ++ timestamp) = false.
Proof.
  cbn zeta. split; [reflexivity|]. split; [apply fileExtension_cases|].
  split; [apply replaceColonDot_length|].
  destruct (replaceColonDot_clean (isoString h)) as [Hc Hd].
  unfold filename. rewrite !includes_char, !list_ascii_of_string_app, !existsb_app.
  rewrite Hc, Hd. split; [|reflexivity].
  pose proof (fileExtension_cases (blob_type audioBlob)) as Hext. cbn [In] in Hext.
  repeat (destruct Hext as [<-|Hext]; [reflexivity|]). contradiction.
Qed.

(** ** What [transcribeAudio] returns and throws *)

Lemma transcriptionErrorMessage_nonempty (e : JsError) :
  transcriptionErrorMessage e <> "".
Proof.
  destruct (transcriptionErrorMessage_cases e) as (H1 & H2 & H3 & H4).
  assert (D : forall x y : option Z, {x = y} + {x <> y})
    by (decide equality; apply Z.eq_dec).
  destruct (D (status e) (Some 401%Z)) as [E|N1];
    [rewrite (H1 E); discriminate|].
  destruct (D (status e) (Some 429%Z)) as [E|N2];
    [rewrite (H2 E); discriminate|].
  destruct (D (status e) (Some 403%Z)) as [E|N3];
    [rewrite (H3 E); discriminate|].
  rewrite (H4 N1 N2 N3).
  destruct (Str.truthy (message e)) eqn:Ht; [|discriminate].
  now apply truthy_nonempty.
Qed.

Lemma transcriptionOutcome_Ok (r : Result Response) (t : string) :
  transcriptionOutcome r = Ok t ->
  exists text, r = Ok (textResponse text) /\ text <> "" /\ t = Str.trim text.
Proof.
  unfold transcriptionOutcome, textResponse.
  destruct r as [[[[[text|]]|]]|e]; try discriminate.
  destruct (Str.truthy text) eqn:Ht; [|discriminate].
  intros [= <-]. exists text. repeat split. now apply truthy_nonempty.
Qed.

(** X5. [transcribeAudio] changes neither the settings, the session nor
    the host.  It returns a text only when the endpoint answered with a
    [text] that is not empty: that text trimmed, after exactly the reading
    of the blob and the request.  The error it throws is either the
    rejection of the blob's reading, as it is, or an [Error] without status
    whose message is not empty. *)
Theorem transcribeAudio_outcomes (o : Oracle) (w : World) (audioBlob : Blob) :
  let r := exec o (transcribeAudio audioBlob) w in
  settings (fst r) = settings w
  /\ recordingState (fst r) = recordingState w
  /\ host (fst r) = host w
  /\ match snd r with
     | Ok transcription =>
         exists text,
           o _ (RequestUrl (requestOf w audioBlob)) = Ok (textResponse text)
           /\ text <> ""
           /\ transcription = Str.trim text
           /\ trace (fst r)
              = (trace w ++ [EArrayBuffer audioBlob;
                             ERequestUrl (requestOf w audioBlob)])%list
     | Err e =>
         o _ (ArrayBuffer audioBlob) = Err e
         \/ (status e = None /\ message e <> "")
     end.
Proof.
  cbn zeta.
  destruct (Str.truthy (openaiApiKey (settings w))) eqn:Hkey.
  - destruct (o _ (ArrayBuffer audioBlob)) as [[]|e] eqn:Hab.
    + rewrite transcribeAudio_exec by assumption.
      destruct (transcriptionOutcome _) as [t|e] eqn:Hout; cbn [fst snd].
      * repeat split.
        destruct (transcriptionOutcome_Ok _ Hout) as (text & Hr & Hne & Ht).
        exists text. repeat split; assumption.
      * repeat split. right. split; [reflexivity|].
        apply transcriptionErrorMessage_nonempty.
    + unfold transcribeAudio, Blob_arrayBuffer, await.
      cbn [exec bind gets]. rewrite Hkey. cbn [negb exec bind gets].
      rewrite Hab. cbn. repeat split. now left.
  - unfold transcribeAudio. cbn [exec bind gets]. rewrite Hkey. cbn.
    repeat split. right. split; [reflexivity|discriminate].
Qed.

(** X6. A response without usable text.  With transcription enabled, a
    response with no JSON, no [text] or an empty [text] ends in the notice
    "Transcription failed: Invalid transcription result format".  A [text]
    made of white space only is dropped in silence: nothing is inserted and
    neither the notice of completion nor a notice of failure is shown. *)
Theorem unusable_transcriptions (o : Oracle) (w : World) (audioBlob : Blob)
  (response : Response) :
  (enableTranscription (settings w)
   && Str.truthy (openaiApiKey (settings w)))%bool = true ->
  o _ (ArrayBuffer audioBlob) = Ok tt ->
  o _ (RequestUrl (requestOf w audioBlob)) = Ok response ->
  ((json response = None
    \/ json response = Some {| json_text := None |}
    \/ json response = Some {| json_text := Some "" |}) ->
   exec o (transcribeToNote audioBlob) w
   = (logs [ENotice "🔄 Transcribing..."; EArrayBuffer audioBlob;
            ERequestUrl (requestOf w audioBlob);
            EConsoleError "OpenAI API error:"
              (Error "Invalid transcription result format");
            EConsoleError "Transcription failed:"
              (Error "Invalid transcription result format");
            ENotice "❌ Transcription failed: Invalid transcription result format"]
        w,
      Ok tt))
  /\ (forall text,
         response = textResponse text -> text <> "" -> blank text = true ->
         exec o (transcribeToNote audioBlob) w
         = (logs [ENotice "🔄 Transcribing..."; EArrayBuffer audioBlob;
                  ERequestUrl (requestOf w audioBlob)] w,
            Ok tt)).
Proof.
  intros Hguard Hab Hreq.
  rewrite transcribeToNote_exec by assumption. rewrite Hreq. split.
  - intros H. destruct response as [j]. cbn [json] in H.
    destruct H as [->|[->| ->]]; reflexivity.
  - intros text -> Hne Hblank. unfold textResponse, transcriptionOutcome.
    apply truthy_nonempty in Hne. rewrite Hne. cbn zeta.
    unfold blank in Hblank. apply String.eqb_eq in Hblank. rewrite Hblank.
    reflexivity.
Qed.

Lemma unusable_transcriptions_witness :
  exec (answering {| json := None |}) (transcribeToNote Sample.blob) Sample.idle
  = (logs [ENotice "🔄 Transcribing..."; EArrayBuffer Sample.blob;
           ERequestUrl (requestOf Sample.idle Sample.blob);
           EConsoleError "OpenAI API error:"
             (Error "Invalid transcription result format");
           EConsoleError "Transcription failed:"
             (Error "Invalid transcription result format");
           ENotice "❌ Transcription failed: Invalid transcription result format"]
       Sample.idle,
     Ok tt)
  /\ exec (answering (textResponse "  ")) (transcribeToNote Sample.blob)
          Sample.idle
     = (logs [ENotice "🔄 Transcribing..."; EArrayBuffer Sample.blob;
              ERequestUrl (requestOf Sample.idle Sample.blob)] Sample.idle,
        Ok tt).
Proof.
  split.
  - exact (proj1 (@unusable_transcriptions (answering {| json := None |})
                    Sample.idle Sample.blob {| json := None |}
                    eq_refl eq_refl eq_refl)
                 (or_introl eq_refl)).
  - refine (proj2 (@unusable_transcriptions (answering (textResponse "  "))
                     Sample.idle Sample.blob (textResponse "  ")
                     eq_refl eq_refl eq_refl)
                  "  " eq_refl _ eq_refl).
    discriminate.
Defined.

(** ** A blob whose bytes cannot be read *)

(** X19. When the bytes of the blob cannot be read, [saveAudioFile] logs
    the rejection, shows its message in a notice and returns null.
    [transcribeAudio] throws the rejection as it is, its [catch] not being
    entered, so the notice of [processRecording] shows the rejection's own
    message whatever its status. *)
Theorem unreadable_blob (o : Oracle) (w : World) (audioBlob : Blob)
  (e : JsError) :
  o _ (ArrayBuffer audioBlob) = Err e ->
  exec o (saveAudioFile audioBlob) w
  = (logs [EArrayBuffer audioBlob;
           EConsoleError "Failed to save audio file:" e;
           ENotice ("❌ Failed to save audio file: " ++ message e)] w,
     Ok None)
  /\ (openaiApiKey (settings w) <> "" ->
      exec o (transcribeAudio audioBlob) w
      = (logs [EArrayBuffer audioBlob] w, Err e))
  /\ ((enableTranscription (settings w)
       && Str.truthy (openaiApiKey (settings w)))%bool = true ->
      exec o (transcribeToNote audioBlob) w
      = (logs [ENotice "🔄 Transcribing..."; EArrayBuffer audioBlob;
               EConsoleError "Transcription failed:" e;
               ENotice ("❌ Transcription failed: " ++ message e)] w,
         Ok tt)).
Proof.
  intros Hab. split; [|split].
  - unfold saveAudioFile, Blob_arrayBuffer, await. cbn. rewrite Hab. cbn.
    f_equal. same_world.
  - intros Hkey. apply truthy_nonempty in Hkey.
    unfold transcribeAudio, Blob_arrayBuffer, await.
    cbn [exec bind gets]. rewrite Hkey. cbn. now rewrite Hab.
  - intros Hguard. unfold transcribeToNote, transcribeAudio, Blob_arrayBuffer,
      await.
    cbn [exec bind gets]. rewrite Hguard.
    apply andb_prop in Hguard as [_ Hkey]. cbn. rewrite Hkey. cbn.
    rewrite Hab. cbn. f_equal. same_world.
Qed.

Lemma unreadable_blob_witness :
  exec (Sample.rejecting (fun ev => match ev with EArrayBuffer _ => true | _ => false end)
          Sample.unauthorized)
       (transcribeToNote Sample.blob) Sample.idle
  = (logs [ENotice "🔄 Transcribing..."; EArrayBuffer Sample.blob;
           EConsoleError "Transcription failed:" Sample.unauthorized;
           ENotice ("❌ Transcription failed: " ++ message Sample.unauthorized)]
       Sample.idle,
     Ok tt).
Proof.
  exact (proj2 (proj2
           (@unreadable_blob
              (Sample.rejecting
                 (fun ev => match ev with EArrayBuffer _ => true | _ => false end)
                 Sample.unauthorized)
              Sample.idle Sample.blob Sample.unauthorized eq_refl))
           eq_refl).
Defined.

(** ** Insertion without an editor *)

Lemma blank_false_truthy (text : string) :
  blank text = false -> Str.truthy text = true.
Proof.
  intros H. apply truthy_nonempty. intros ->. vm_compute in H. discriminate.
Qed.

(** X7. For a text that is not blank, when the note cannot be written
    [insertTextToEditor] emits one notice that tells why and changes nothing
    else: there is no active leaf, its view is no markdown view, or the view
    has no editor.  When the editor throws, the error is logged and one
    notice shows its message. *)
Theorem insertTextToEditor_without_editor (o : Oracle) (w : World)
  (text : string) :
  blank text = false ->
  (activeLeaf (host w) = None ->
   exec o (insertTextToEditor text) w
   = (logs [ENotice "❌ No active note page"] w, Ok tt))
  /\ (forall leaf,
         activeLeaf (host w) = Some leaf ->
         viewType leaf <> "markdown" ->
         exec o (insertTextToEditor text) w
         = (logs [ENotice "❌ Current page is not a Markdown note"] w, Ok tt))
  /\ (forall leaf,
         activeLeaf (host w) = Some leaf ->
         viewType leaf = "markdown" ->
         editor leaf = None ->
         exec o (insertTextToEditor text) w
         = (logs [ENotice "❌ Cannot find editor"] w, Ok tt))
  /\ (forall leaf ed e,
         activeLeaf (host w) = Some leaf ->
         viewType leaf = "markdown" ->
         editor leaf = Some ed ->
         ed_fault ed = Some e ->
         exec o (insertTextToEditor text) w
         = (logs [EConsoleError "Failed to insert text:" e;
                  ENotice ("❌ Failed to insert text: " ++ message e)] w,
            Ok tt)).
Proof.
  intros Hblank. pose proof (blank_false_truthy _ Hblank) as Htruthy.
  unfold blank in Hblank. unfold insertTextToEditor.
  rewrite Htruthy, Hblank. cbn [negb orb exec bind gets].
  split; [|split; [|split]].
  - intros ->. reflexivity.
  - intros leaf -> Hvt. apply String.eqb_neq in Hvt. rewrite Hvt. reflexivity.
  - intros leaf -> Hvt Hed. rewrite Hvt, Hed. reflexivity.
  - intros leaf ed e Hleaf Hvt Hed Hfault. rewrite Hleaf, Hvt, Hed.
    cbn [negb String.eqb]. rewrite String.eqb_refl. cbn [negb].
    unfold editor_getCursor, editor_call.
    cbn [exec bind try_catch]. rewrite Hleaf. destruct leaf as [vt edo].
    cbn [editor] in Hed. subst edo. rewrite Hfault.
    cbn [exec bind try_catch console_error Notice emit modify]. f_equal.
    same_world.
Qed.

Lemma insertTextToEditor_without_editor_witness :
  exec Sample.fulfilled (insertTextToEditor "hello") readOnlyNote
  = (logs [EConsoleError "Failed to insert text:" (Error "read-only");
           ENotice ("❌ Failed to insert text: " ++ "read-only")] readOnlyNote,
     Ok tt).
Proof.
  refine (proj2 (proj2 (proj2
            (@insertTextToEditor_without_editor Sample.fulfilled readOnlyNote
               "hello" _)))
            _ _ (Error "read-only") eq_refl eq_refl eq_refl eq_refl).
  vm_compute. reflexivity.
Defined.

(** ** The texts the plugin inserts *)

Lemma dropWsRev_length (r : list ascii) :
  List.length (Str.dropWsRev r) <= List.length r.
Proof.
  destruct (dropWsRev_suffix (n := List.length r) r (le_n _)) as ((p & _ & E) & _).
  rewrite E at 2. rewrite length_app. lia.
Qed.

Lemma dropWsRev_cons (a : ascii) (t1 : list ascii) :
  Str.dropWsRev (a :: t1)
  = if Str.ws1 a then Str.dropWsRev t1
    else match t1 with
         | [] => a :: t1
         | b :: t2 =>
             if Str.ws2 b a then Str.dropWsRev t2
             else match t2 with
                  | [] => a :: t1
                  | c :: t3 => if Str.ws3 c b a then Str.dropWsRev t3 else a :: t1
                  end
         end.
Proof. reflexivity. Qed.

Lemma dropWsRev_idem (n : nat) :
  forall r, List.length r <= n ->
            Str.dropWsRev (Str.dropWsRev r) = Str.dropWsRev r.
Proof.
  induction n as [|n IH]; intros r Hn.
  - destruct r; [reflexivity|cbn in Hn; lia].
  - destruct r as [|a t1]; [reflexivity|]. rewrite dropWsRev_cons.
    destruct (Str.ws1 a) eqn:Ha; [apply IH; cbn in *; lia|].
    destruct t1 as [|b t2]; [now rewrite dropWsRev_cons, Ha|].
    destruct (Str.ws2 b a) eqn:Hab; [apply IH; cbn in *; lia|].
    destruct t2 as [|c t3]; [now rewrite dropWsRev_cons, Ha, Hab|].
    destruct (Str.ws3 c b a) eqn:Habc; [apply IH; cbn in *; lia|].
    now rewrite dropWsRev_cons, Ha, Hab, Habc.
Qed.

(** A byte below 128 is no lead byte of a white space character. *)
Lemma ws2_ascii_lead (x a : ascii) :
  nat_of_ascii x < 128 -> Str.ws2 x a = false.
Proof.
  intros H. unfold Str.ws2.
  destruct (Nat.eqb_spec (nat_of_ascii x) 194); [lia|reflexivity].
Qed.

Lemma ws3_ascii_lead (x b a : ascii) :
  nat_of_ascii x < 128 -> Str.ws3 x b a = false.
Proof.
  intros H. unfold Str.ws3. cbn zeta.
  destruct (Nat.eqb_spec (nat_of_ascii x) 225); [lia|].
  destruct (Nat.eqb_spec (nat_of_ascii x) 226); [lia|].
  destruct (Nat.eqb_spec (nat_of_ascii x) 227); [lia|].
  destruct (Nat.eqb_spec (nat_of_ascii x) 239); [lia|reflexivity].
Qed.

(** Where the backward scan of [trim] stopped, it stops again, whatever
    ASCII text comes before. *)
Lemma dropWsRev_fixed_app (r tl : list ascii) :
  r <> [] ->
  Str.dropWsRev r = r ->
  (forall x, In x (firstn 2 tl) -> nat_of_ascii x < 128) ->
  Str.dropWsRev (r ++ tl) = (r ++ tl)%list.
Proof.
  intros Hne Hfix Htl.
  assert (Hshort : forall t (l : list ascii),
             List.length t < List.length l -> Str.dropWsRev t <> l).
  { intros t l Hlen E. pose proof (dropWsRev_length t). rewrite E in *. lia. }
  destruct r as [|a t1]; [contradiction|].
  rewrite dropWsRev_cons in Hfix. cbn [app]. rewrite dropWsRev_cons.
  destruct (Str.ws1 a) eqn:Ha;
    [exfalso; revert Hfix; apply Hshort; cbn; lia|].
  destruct t1 as [|b t2]; cbn [app].
  - destruct tl as [|x [|y tl]]; [reflexivity| |].
    + rewrite ws2_ascii_lead by (apply Htl; cbn; auto). reflexivity.
    + rewrite ws2_ascii_lead by (apply Htl; cbn; auto).
      rewrite ws3_ascii_lead by (apply Htl; cbn; auto). reflexivity.
  - destruct (Str.ws2 b a) eqn:Hab;
      [exfalso; revert Hfix; apply Hshort; cbn; lia|].
    destruct t2 as [|c t3]; cbn [app].
    + destruct tl as [|x tl]; [reflexivity|].
      rewrite ws3_ascii_lead by (apply Htl; cbn; auto). reflexivity.
    + destruct (Str.ws3 c b a) eqn:Habc;
        [exfalso; revert Hfix; apply Hshort; cbn; lia|].
      reflexivity.
Qed.

(** [trim] takes the line feeds off a text framed by a heading that starts
    with three characters that are no white space, and keeps the rest. *)
Lemma trim_framed (a b c : ascii) (heading core : string) :
  Str.ws1 a = false -> Str.ws2 a b = false -> Str.ws3 a b c = false ->
  (forall x, In x (firstn 2 (rev (a :: b :: c :: list_ascii_of_string heading))) ->
             nat_of_ascii x < 128) ->
  core <> "" ->
  Str.dropWsRev (rev (list_ascii_of_string core)) = rev (list_ascii_of_string core) ->
  Str.trim (String a (String b (String c heading)) ++ core ++ Str.LF ++ Str.LF)
  = String a (String b (String c heading)) ++ core.
Proof.
  intros Ha Hab Habc Htl Hne Hfix. unfold Str.trim.
  rewrite !list_ascii_of_string_app.
  cbn [list_ascii_of_string app Str.dropWs Str.LF]. rewrite Ha, Hab, Habc.
  change (a :: b :: c :: (list_ascii_of_string heading
                          ++ list_ascii_of_string core
                          ++ [ascii_of_nat 10; ascii_of_nat 10]))%list
    with ((a :: b :: c :: list_ascii_of_string heading)
          ++ list_ascii_of_string core
          ++ [ascii_of_nat 10; ascii_of_nat 10])%list.
  rewrite !rev_app_distr. cbn [rev app Str.dropWsRev].
  change (Str.ws1 (ascii_of_nat 10)) with true. cbn iota.
  rewrite dropWsRev_fixed_app; [| |exact Hfix|exact Htl].
  - rewrite !rev_app_distr, !rev_involutive. cbn [rev app].
    rewrite <- (string_of_list_ascii_of_string
                  (String a (String b (String c heading)) ++ core)).
    now rewrite list_ascii_of_string_app.
  - intros E. apply rev_nil_inv in E. destruct core; [contradiction|discriminate].
Qed.

Lemma ws2_ascii_last (b a : ascii) :
  nat_of_ascii a < 128 -> Str.ws2 b a = false.
Proof.
  intros H. unfold Str.ws2.
  destruct (Nat.eqb_spec (nat_of_ascii a) 160); [lia|apply andb_false_r].
Qed.

Lemma ws3_ascii_last (c b a : ascii) :
  nat_of_ascii a < 128 -> Str.ws3 c b a = false.
Proof.
  intros H. unfold Str.ws3. cbn zeta.
  destruct (Nat.leb_spec 128 (nat_of_ascii a)); [lia|].
  destruct (Nat.eqb_spec (nat_of_ascii a) 128); [lia|].
  destruct (Nat.eqb_spec (nat_of_ascii a) 168); [lia|].
  destruct (Nat.eqb_spec (nat_of_ascii a) 169); [lia|].
  destruct (Nat.eqb_spec (nat_of_ascii a) 175); [lia|].
  destruct (Nat.eqb_spec (nat_of_ascii a) 159); [lia|].
  destruct (Nat.eqb_spec (nat_of_ascii a) 191); [lia|].
  cbn [andb orb]. now rewrite !andb_false_r.
Qed.

(** The backward scan stops at an ASCII character that is no white space. *)
Lemma dropWsRev_ascii (a : ascii) (t : list ascii) :
  Str.ws1 a = false -> nat_of_ascii a < 128 ->
  Str.dropWsRev (a :: t) = a :: t.
Proof.
  intros Ha Hlt. rewrite dropWsRev_cons, Ha.
  destruct t as [|b [|c t]]; [reflexivity| |].
  - now rewrite ws2_ascii_last.
  - now rewrite ws2_ascii_last, ws3_ascii_last.
Qed.

Lemma trim_scan_fixed (s : string) :
  Str.dropWsRev (rev (list_ascii_of_string (Str.trim s)))
  = rev (list_ascii_of_string (Str.trim s)).
Proof.
  unfold Str.trim. rewrite list_ascii_of_string_of_list_ascii, rev_involutive.
  now apply (@dropWsRev_idem (List.length (rev (Str.dropWs (list_ascii_of_string s))))).
Qed.

Lemma trim_voiceNoteText (h : Host) (audioBlob : Blob) :
  Str.trim (voiceNoteText (markdownLink h audioBlob))
  = "### Voice Note" ++ Str.LF ++ markdownLink h audioBlob.
Proof.
  change (voiceNoteText (markdownLink h audioBlob))
    with (String "#" (String "#" (String "#" (" Voice Note" ++ Str.LF)))
          ++ markdownLink h audioBlob ++ Str.LF ++ Str.LF).
  rewrite trim_framed; try reflexivity.
  - intros x Hx. vm_compute in Hx. destruct Hx as [<-|[<-|[]]]; cbn; lia.
  - unfold markdownLink. discriminate.
  - unfold markdownLink. rewrite !list_ascii_of_string_app, !rev_app_distr.
    cbn [list_ascii_of_string rev app].
    apply dropWsRev_ascii; [reflexivity|cbn; lia].
Qed.

Lemma trim_transcriptionText (text : string) :
  Str.trim text <> "" ->
  Str.trim (transcriptionText (Str.trim text))
  = "**Transcription:**" ++ Str.LF ++ Str.trim text.
Proof.
  intros Hne.
  change (transcriptionText (Str.trim text))
    with (String "*" (String "*" (String "T" ("ranscription:**" ++ Str.LF)))
          ++ Str.trim text ++ Str.LF ++ Str.LF).
  rewrite trim_framed; try reflexivity; [|exact Hne|apply trim_scan_fixed].
  intros x Hx. vm_compute in Hx. destruct Hx as [<-|[<-|[]]]; cbn; lia.
Qed.

(** The block inserted for a saved file, with a markdown editor ready. *)
Lemma voiceNote_insertion (h h' : Host) (audioBlob : Blob) (ed : Editor) :
  readyEditor h' = Some ed ->
  insertion (voiceNoteText (markdownLink h audioBlob)) h'
  = [InsertText ("### Voice Note" ++ Str.LF ++ markdownLink h audioBlob
                 ++ Str.LF)].
Proof.
  intros Hready. unfold insertion, blank.
  rewrite trim_voiceNoteText, Hready.
  assert (Hne : "### Voice Note" ++ Str.LF ++ markdownLink h audioBlob <> "")
    by discriminate.
  apply String.eqb_neq in Hne. now rewrite Hne.
Qed.

(** X8. The blocks [processRecording] inserts.  With a markdown editor
    ready, the block of a saved file is inserted as the heading, the link
    and one line feed, and the block of a transcription (a trimmed text that
    is not empty) as the heading, the text and one line feed: of the two
    line feeds that end the templates of lines 228 and 237, [trim] and line
    400 leave one. *)
Theorem inserted_blocks (o : Oracle) (w : World) (h : Host) (audioBlob : Blob)
  (text : string) (ed : Editor) :
  readyEditor (host w) = Some ed ->
  steps (trace (fst (exec o (insertTextToEditor
                               (voiceNoteText (markdownLink h audioBlob))) w)))
  = (steps (trace w)
     ++ [InsertText ("### Voice Note" ++ Str.LF ++ markdownLink h audioBlob
                     ++ Str.LF)])%list
  /\ (Str.trim text <> "" ->
      steps (trace (fst (exec o (insertTextToEditor
                                   (transcriptionText (Str.trim text))) w)))
      = (steps (trace w)
         ++ [InsertText ("**Transcription:**" ++ Str.LF ++ Str.trim text
                         ++ Str.LF)])%list).
Proof.
  intros Hready.
  assert (Hins : forall t r, Str.trim t = r -> r <> "" ->
                             insertion t (host w) = [InsertText (r ++ Str.LF)]).
  { intros t r Ht Hr. unfold insertion, blank. rewrite Ht, Hready.
    apply String.eqb_neq in Hr. now rewrite Hr. }
  split; [|intros Hne].
  - rewrite (proj1 (insertTextToEditor_steps o _ w)).
    rewrite (Hins _ _ (@trim_voiceNoteText h audioBlob)) by discriminate.
    reflexivity.
  - rewrite (proj1 (insertTextToEditor_steps o _ w)).
    rewrite (Hins _ _ (@trim_transcriptionText text Hne)) by discriminate.
    reflexivity.
Qed.

Lemma inserted_blocks_witness :
  steps (trace (fst (exec Sample.fulfilled
                       (insertTextToEditor
                          (voiceNoteText (markdownLink Sample.theHost Sample.blob)))
                       Sample.idle)))
  = [InsertText ("### Voice Note" ++ Str.LF
                 ++ markdownLink Sample.theHost Sample.blob ++ Str.LF)]
  /\ steps (trace (fst (exec Sample.fulfilled
                          (insertTextToEditor (transcriptionText (Str.trim " hello ")))
                          Sample.idle)))
     = [InsertText ("**Transcription:**" ++ Str.LF ++ Str.trim " hello "
                    ++ Str.LF)].
Proof.
  split.
  - exact (proj1 (@inserted_blocks Sample.fulfilled Sample.idle Sample.theHost
                    Sample.blob " hello " Sample.ed eq_refl)).
  - refine (proj2 (@inserted_blocks Sample.fulfilled Sample.idle Sample.theHost
                     Sample.blob " hello " Sample.ed eq_refl) _).
    vm_compute. discriminate.
Defined.

(** ** [trim] is idempotent *)

Lemma dropWs_length (l : list ascii) :
  List.length (Str.dropWs l) <= List.length l.
Proof.
  destruct (dropWs_prefix (n := List.length l) l (le_n _)) as (p & _ & E).
  rewrite E at 2. rewrite length_app. lia.
Qed.

Lemma dropWs_cons (a : ascii) (t1 : list ascii) :
  Str.dropWs (a :: t1)
  = if Str.ws1 a then Str.dropWs t1
    else match t1 with
         | [] => a :: t1
         | b :: t2 =>
             if Str.ws2 a b then Str.dropWs t2
             else match t2 with
                  | [] => a :: t1
                  | c :: t3 => if Str.ws3 a b c then Str.dropWs t3 else a :: t1
                  end
         end.
Proof. reflexivity. Qed.

Lemma dropWs_idem (n : nat) :
  forall l, List.length l <= n -> Str.dropWs (Str.dropWs l) = Str.dropWs l.
Proof.
  induction n as [|n IH]; intros l Hn.
  - destruct l; [reflexivity|cbn in Hn; lia].
  - destruct l as [|a t1]; [reflexivity|]. rewrite dropWs_cons.
    destruct (Str.ws1 a) eqn:Ha; [apply IH; cbn in *; lia|].
    destruct t1 as [|b t2]; [now rewrite dropWs_cons, Ha|].
    destruct (Str.ws2 a b) eqn:Hab; [apply IH; cbn in *; lia|].
    destruct t2 as [|c t3]; [now rewrite dropWs_cons, Ha, Hab|].
    destruct (Str.ws3 a b c) eqn:Habc; [apply IH; cbn in *; lia|].
    now rewrite dropWs_cons, Ha, Hab, Habc.
Qed.

(** Where the forward scan stopped, it stops on every prefix too. *)
Lemma dropWs_fixed_prefix (t q : list ascii) :
  Str.dropWs (t ++ q) = (t ++ q)%list -> Str.dropWs t = t.
Proof.
  intros Hfix.
  assert (Hshort : forall x (l : list ascii),
             List.length x < List.length l -> Str.dropWs x <> l).
  { intros x l Hlen E. pose proof (dropWs_length x). rewrite E in *. lia. }
  destruct t as [|a t1]; [reflexivity|].
  cbn [app] in Hfix. rewrite dropWs_cons in Hfix. rewrite dropWs_cons.
  destruct (Str.ws1 a) eqn:Ha;
    [exfalso; revert Hfix; apply Hshort; cbn; lia|].
  destruct t1 as [|b t2]; [reflexivity|]. cbn [app] in Hfix.
  destruct (Str.ws2 a b) eqn:Hab;
    [exfalso; revert Hfix; apply Hshort; cbn; lia|].
  destruct t2 as [|c t3]; [reflexivity|]. cbn [app] in Hfix.
  destruct (Str.ws3 a b c) eqn:Habc;
    [exfalso; revert Hfix; apply Hshort; cbn; lia|].
  reflexivity.
Qed.

Lemma trim_idem (s : string) : Str.trim (Str.trim s) = Str.trim s.
Proof.
  unfold Str.trim. rewrite list_ascii_of_string_of_list_ascii.
  set (m := Str.dropWs (list_ascii_of_string s)).
  assert (Hfront : Str.dropWs (rev (Str.dropWsRev (rev m)))
                   = rev (Str.dropWsRev (rev m))).
  { destruct (dropWsRev_suffix (n := List.length (rev m)) (rev m) (le_n _))
      as ((p & _ & E) & _).
    apply (dropWs_fixed_prefix _ (rev p)).
    rewrite <- rev_app_distr, <- E, rev_involutive. unfold m.
    now apply (@dropWs_idem (List.length (list_ascii_of_string s))). }
  rewrite Hfront, rev_involutive.
  now rewrite (@dropWsRev_idem (List.length (rev m))).
Qed.

(** X18. [trim] is idempotent, and [insertTextToEditor] does the same
    with a text and with that text trimmed. *)
Theorem insertTextToEditor_ignores_outer_space (o : Oracle) (w : World)
  (text : string) :
  Str.trim (Str.trim text) = Str.trim text
  /\ exec o (insertTextToEditor (Str.trim text)) w
     = exec o (insertTextToEditor text) w.
Proof.
  split; [apply trim_idem|].
  unfold insertTextToEditor. rewrite trim_idem.
  destruct (String.eqb (Str.trim text) "") eqn:Hb.
  - now rewrite !orb_true_r.
  - assert (Ht : Str.truthy text = true)
      by (apply blank_false_truthy; exact Hb).
    assert (Ht' : Str.truthy (Str.trim text) = true).
    { apply truthy_nonempty. now apply String.eqb_neq. }
    now rewrite Ht, Ht'.
Qed.

(** ** Settings, round trip *)

(** X9. The settings tab.  A change of the key followed by a change of
    the switch leaves exactly these two values in the settings, whether
    [saveData] succeeds or not; each callback hands the settings it produced
    to [saveData]; the session is not touched; and [loadSettings], given
    what was saved last, gives the same settings back. *)
Theorem changed_settings_round_trip (o : Oracle) (w : World) (key : string)
  (enable : bool) :
  let w1 := fst (exec o (onChangeApiKey key) w) in
  let w2 := fst (exec o (onChangeEnable enable) w1) in
  settings w1
  = {| openaiApiKey := key;
       enableTranscription := enableTranscription (settings w) |}
  /\ settings w2 = {| openaiApiKey := key; enableTranscription := enable |}
  /\ trace w2
     = (trace w ++ [ESaveData (settings w1); ESaveData (settings w2)])%list
  /\ recordingState w2 = recordingState w
  /\ (forall (o' : Oracle) (w' : World),
         o' _ LoadData = Ok (Some (objectOf (settings w2))) ->
         settings (fst (exec o' loadSettings w')) = settings w2).
Proof.
  cbn zeta. unfold onChangeApiKey, onChangeEnable, saveSettings, await.
  cbn [exec bind modify gets settings set_settings].
  destruct (o unit (SaveData _)) as [[]|e]; cbn [exec fst settings log];
    destruct (o unit (SaveData _)) as [[]|e']; cbn [exec fst settings log trace];
    (split; [reflexivity|]); (split; [reflexivity|]);
    (split; [cbn; rewrite <- ?app_assoc; reflexivity|]); (split; [reflexivity|]);
    intros o' w' Hload; unfold loadSettings; cbn [exec bind await];
    rewrite Hload; reflexivity.
Qed.

Lemma changed_settings_round_trip_witness :
  settings
    (fst (exec (Sample.stored
                  (Some (objectOf {| openaiApiKey := "sk-2";
                                     enableTranscription := false |})))
               loadSettings Sample.recording))
  = settings
      (fst (exec Sample.fulfilled (onChangeEnable false)
              (fst (exec Sample.fulfilled (onChangeApiKey "sk-2") Sample.idle)))).
Proof.
  exact (proj2 (proj2 (proj2 (proj2
           (changed_settings_round_trip Sample.fulfilled Sample.idle "sk-2" false))))
           (Sample.stored
              (Some (objectOf {| openaiApiKey := "sk-2";
                                 enableTranscription := false |})))
           Sample.recording eq_refl).
Defined.

(** ** Stopping *)

Lemma stopRecording_run (w : World) :
  isRecording (recordingState w) = true ->
  run_sync stopRecording w
  = (logs (releaseEvents (recordingState w))
       (set_statusBarItem (withText "🎤 VoiceNotes" (statusBarItem w))
          (set_recordingState (set_isRecording false (recordingState w)) w)),
     Done (Ok tt)).
Proof.
  intros Hrec. unfold stopRecording, releaseEvents, withText.
  cbn [run_sync bind gets]. rewrite Hrec.
  destruct w as [s [f mr st ch t m] sb h tr]. cbn in Hrec. subst f.
  destruct mr as [r|], st as [st|], sb as [sb|]; cbn;
    unfold logs, log, set_statusBarItem, set_recordingState, set_isRecording;
    cbn; repeat rewrite <- app_assoc; reflexivity.
Qed.

(** X10. [stopRecording] in a recording session ends at once: it clears
    the flag, stops the recorder if there is one, then the tracks of the
    stream if there is one, sets the text of the status bar item if it
    exists and emits the notice.  The fragments, the settings and the host
    are unchanged; a second stop does nothing; and [onunload] does exactly
    what [stopRecording] does. *)
Theorem stopRecording_releases (w : World) :
  isRecording (recordingState w) = true ->
  let w' := fst (run_sync stopRecording w) in
  snd (run_sync stopRecording w) = Done (Ok tt)
  /\ recordingState w' = set_isRecording false (recordingState w)
  /\ trace w' = (trace w ++ releaseEvents (recordingState w))%list
  /\ statusBarItem w' = withText "🎤 VoiceNotes" (statusBarItem w)
  /\ settings w' = settings w
  /\ host w' = host w
  /\ run_sync stopRecording w' = (w', Done (Ok tt))
  /\ run_sync onunload w = run_sync stopRecording w.
Proof.
  intros Hrec. cbn zeta. rewrite (stopRecording_run w Hrec). cbn [fst snd].
  repeat (split; [reflexivity|]).
  unfold onunload. cbn [run_sync bind gets]. rewrite Hrec.
  now rewrite (stopRecording_run w Hrec).
Qed.

Lemma stopRecording_releases_witness :
  trace (fst (run_sync stopRecording Sample.recording))
  = [ ERecorderStop {| rec_stream := {| stream_id := 7 |};
                       rec_mimeType := "audio/wav";
                       rec_audioBitsPerSecond := 64000 |};
      ETracksStop {| stream_id := 7 |};
      ENotice "🛑 Recording stopped" ]
  /\ run_sync onunload Sample.recording = run_sync stopRecording Sample.recording.
Proof.
  split.
  - exact (proj1 (proj2 (proj2 (stopRecording_releases Sample.recording eq_refl)))).
  - exact (proj2 (proj2 (proj2 (proj2 (proj2 (proj2 (proj2
             (stopRecording_releases Sample.recording eq_refl)))))))).
Defined.

(** ** Starting *)

Lemma notices_app (a b : list Event) :
  notices (a ++ b) = (notices a ++ notices b)%list.
Proof.
  induction a as [|e a IH]; [reflexivity|].
  destruct e; cbn [app notices]; now rewrite IH.
Qed.

(** [startRecording] in an idle session waits for the microphone; what the
    rest of it does once the request is settled, in any world. *)
Lemma startRecording_resumes :
  exists k,
    (forall w, isRecording (recordingState w) = false ->
               run_sync startRecording w
               = (logs [EGetUserMedia] w, Waiting GetUserMedia k))
    /\ forall r w1,
         snd (run_sync (k r) w1) = Done (Ok tt)
         /\ recordingState (fst (run_sync (k r) w1))
            = sessionAfterStart r (host w1) (recordingState w1)
         /\ settings (fst (run_sync (k r) w1)) = settings w1
         /\ host (fst (run_sync (k r) w1)) = host w1
         /\ notices (trace (fst (run_sync (k r) w1)))
            = (notices (trace w1)
               ++ [match startFailure r (host w1) with
                   | Some e => ("Cannot access microphone: " ++ message e)%string
                   | None => "🔴 Recording started..."
                   end])%list
         /\ statusBarItem (fst (run_sync (k r) w1))
            = match startFailure r (host w1) with
              | Some _ => statusBarItem w1
              | None => withText "🔴 Recording 0s" (statusBarItem w1)
              end
         /\ steps (trace (fst (run_sync (k r) w1))) = steps (trace w1).
Proof.
  eexists. split.
  - intros w Hidle. unfold startRecording. cbn [run_sync bind gets].
    rewrite Hidle. cbn [try_catch bind await run_sync]. reflexivity.
  - intros r w1.
    unfold sessionAfterStart, startFailure, withText, updateStatusBar.
    destruct w1 as [s rs sb h tr]. destruct r as [st|e]; cbn.
    + destruct (recorderFault h) as [e|] eqn:Hrf; cbn.
      * rewrite !notices_app, !steps_app. cbn. rewrite !app_nil_r. repeat split.
      * destruct (startFault h) as [e|] eqn:Hsf; cbn.
        -- rewrite !notices_app, !steps_app. cbn. rewrite !app_nil_r.
           repeat split.
        -- destruct sb as [sb|]; cbn; rewrite !notices_app, !steps_app; cbn;
             rewrite ?app_nil_r, ?Z.sub_diag; repeat split.
    + rewrite !notices_app, !steps_app. cbn. rewrite !app_nil_r. repeat split.
Qed.

(** X11. [startRecording] in an idle session waits for the microphone.
    When the request is settled, in whatever world, the rest of it ends
    without an exception and with one notice, and leaves the settings and
    the host as they are.  A rejected request leaves the session as it is.
    A fulfilled one replaces it by a new session flagged as recording that
    holds the stream, and the recorder unless its constructor threw: the
    session stays flagged as recording when the constructor or [start]
    throws.  The status bar shows the seconds elapsed, 0 within the same
    run, only when nothing failed. *)
Theorem startRecording_settled (w w1 : World) (r : Result MediaStream) :
  isRecording (recordingState w) = false ->
  exists k,
    run_sync startRecording w = (logs [EGetUserMedia] w, Waiting GetUserMedia k)
    /\ snd (run_sync (k r) w1) = Done (Ok tt)
    /\ recordingState (fst (run_sync (k r) w1))
       = sessionAfterStart r (host w1) (recordingState w1)
    /\ settings (fst (run_sync (k r) w1)) = settings w1
    /\ host (fst (run_sync (k r) w1)) = host w1
    /\ notices (trace (fst (run_sync (k r) w1)))
       = (notices (trace w1)
          ++ [match startFailure r (host w1) with
              | Some e => ("Cannot access microphone: " ++ message e)%string
              | None => "🔴 Recording started..."
              end])%list
    /\ statusBarItem (fst (run_sync (k r) w1))
       = match startFailure r (host w1) with
         | Some _ => statusBarItem w1
         | None => withText "🔴 Recording 0s" (statusBarItem w1)
         end.
Proof.
  intros Hidle. destruct startRecording_resumes as (k & Hwait & Hsettle).
  exists k. split; [now apply Hwait|].
  destruct (Hsettle r w1) as (H1 & H2 & H3 & H4 & H5 & H6 & _).
  repeat (split; [assumption|]). assumption.
Qed.

Lemma startRecording_settled_witness :
  exists k,
    run_sync startRecording Sample.idle
    = (logs [EGetUserMedia] Sample.idle, Waiting GetUserMedia k)
    /\ isRecording
         (recordingState (fst (run_sync (k (Ok {| stream_id := 7 |})) noRecorder)))
       = true
    /\ mediaRecorder
         (recordingState (fst (run_sync (k (Ok {| stream_id := 7 |})) noRecorder)))
       = None
    /\ notices (trace (fst (run_sync (k (Ok {| stream_id := 7 |})) noRecorder)))
       = ["Cannot access microphone: NotSupportedError"].
Proof.
  destruct (@startRecording_settled Sample.idle noRecorder
              (Ok {| stream_id := 7 |}) eq_refl)
    as (k & Hrun & _ & Hrs & _ & _ & Hn & _).
  exists k. split; [exact Hrun|]. rewrite Hrs, Hn. repeat split.
Defined.

Lemma sessionAfterStart_fresh (s : MediaStream) (h : Host)
  (before : RecordingState) :
  recorderFault h = None ->
  sessionAfterStart (Ok s) h before = freshSession h s.
Proof. intros H. unfold sessionAfterStart, freshSession. now rewrite H. Qed.

(** X12. The flag is set when the microphone request is fulfilled, not
    when it is made: a second [toggleRecording] before the answer makes a
    second request, with the same continuation.  Once both are fulfilled,
    the session of the request answered last has replaced the other, and a
    stop releases the recorder and the stream of that session only. *)
Theorem clicks_before_the_microphone_answers (w : World) (sA sB : MediaStream) :
  isRecording (recordingState w) = false ->
  recorderFault (host w) = None ->
  exists k,
    run_sync toggleRecording w = (logs [EGetUserMedia] w, Waiting GetUserMedia k)
    /\ run_sync toggleRecording (logs [EGetUserMedia] w)
       = (logs [EGetUserMedia; EGetUserMedia] w, Waiting GetUserMedia k)
    /\ let wA :=
         fst (run_sync (k (Ok sA)) (logs [EGetUserMedia; EGetUserMedia] w)) in
       let wB := fst (run_sync (k (Ok sB)) wA) in
       recordingState wA = freshSession (host w) sA
       /\ recordingState wB = freshSession (host w) sB
       /\ trace (fst (run_sync stopRecording wB))
          = (trace wB ++ releaseEvents (freshSession (host w) sB))%list
       /\ (sA <> sB ->
           ~ In (ETracksStop sA) (releaseEvents (freshSession (host w) sB))).
Proof.
  intros Hidle Hrf. destruct startRecording_resumes as (k & Hwait & Hsettle).
  assert (Htoggle : forall w', isRecording (recordingState w') = false ->
                               run_sync toggleRecording w'
                               = (logs [EGetUserMedia] w', Waiting GetUserMedia k)).
  { intros w' H. unfold toggleRecording. cbn [run_sync bind gets]. rewrite H.
    now apply Hwait. }
  exists k. split; [now apply Htoggle|]. split.
  - rewrite Htoggle by exact Hidle. f_equal. same_world.
  - cbn zeta.
    destruct (Hsettle (Ok sA) (logs [EGetUserMedia; EGetUserMedia] w))
      as (_ & HrsA & _ & HhA & _).
    set (wA := fst (run_sync (k (Ok sA)) (logs [EGetUserMedia; EGetUserMedia] w)))
      in *.
    destruct (Hsettle (Ok sB) wA) as (_ & HrsB & _ & HhB & _).
    set (wB := fst (run_sync (k (Ok sB)) wA)) in *.
    cbn [logs host recordingState] in HrsA, HhA.
    rewrite sessionAfterStart_fresh in HrsA by exact Hrf.
    rewrite HhA, sessionAfterStart_fresh in HrsB by exact Hrf.
    split; [exact HrsA|]. split; [exact HrsB|]. split.
    + rewrite stopRecording_run by (rewrite HrsB; reflexivity).
      cbn [fst logs trace set_statusBarItem set_recordingState].
      now rewrite HrsB.
    + unfold releaseEvents, freshSession. cbn.
      intros Hne [H|[H|[H|[]]]]; try discriminate; congruence.
Qed.

Lemma clicks_before_the_microphone_answers_witness :
  exists k,
    run_sync toggleRecording (logs [EGetUserMedia] Sample.idle)
    = (logs [EGetUserMedia; EGetUserMedia] Sample.idle, Waiting GetUserMedia k)
    /\ ~ In (ETracksStop {| stream_id := 1 |})
            (releaseEvents (freshSession (host Sample.idle) {| stream_id := 2 |})).
Proof.
  destruct (@clicks_before_the_microphone_answers Sample.idle
              {| stream_id := 1 |} {| stream_id := 2 |} eq_refl eq_refl)
    as (k & _ & Hsecond & _ & _ & _ & Hleak).
  exists k. split; [exact Hsecond|]. apply Hleak. discriminate.
Defined.

(** ** Exceptions *)

Lemma nothrow_exec {A : Type} (p : Prog A) (o : Oracle) (w : World) :
  nothrow p -> exists a, snd (exec o p w) = Ok a.
Proof.
  intros Hp.
  destruct (@wp_exec anything A o p (fun r _ _ => exists a, r = Ok a) w w)
    as [_ H]; [|exact H].
  apply Hp. intros a _ _. now exists a.
Qed.

Lemma nothrow_processRecording : nothrow processRecording.
Proof.
  pose proof nothrow_saveToNote. pose proof nothrow_transcribeToNote.
  unfold processRecording, update_recordingState, Notice, emit.
  repeat nothrow_step.
Qed.

Lemma nothrow_updateStatusBar : nothrow updateStatusBar.
Proof.
  unfold updateStatusBar, statusBar_setText, setTimeout, Date_now, emit.
  repeat nothrow_step.
Qed.

Lemma nothrow_startRecording : nothrow startRecording.
Proof.
  unfold startRecording, Notice, console_error, emit. repeat nothrow_step.
Qed.

Lemma nothrow_stopRecording : nothrow stopRecording.
Proof.
  unfold stopRecording, update_recordingState, recorder_stop, tracks_stop,
    statusBar_setText, Notice, emit.
  repeat nothrow_step.
Qed.

Lemma nothrow_handler (i : Input) :
  isSettingsChange i = false -> nothrow (handler i).
Proof.
  pose proof nothrow_processRecording. pose proof nothrow_updateStatusBar.
  pose proof nothrow_startRecording. pose proof nothrow_stopRecording.
  destruct i; cbn [isSettingsChange handler]; intros Hi; try discriminate;
    unfold toggleRecording, ondataavailable, onstop, onTimeout, onunload,
      update_recordingState;
    repeat nothrow_step.
Qed.

(** X13. No exception escapes the handlers of recording (click, fragment
    arrival, recorder stopped, timer, unload): every rejection of an awaited
    promise and every exception of the recorder's constructor, of its
    [start] and of the editor's methods is caught, whatever runs in between.
    The callbacks of the settings tab rethrow a rejection of [saveData], and
    [onload] rethrows a rejection of [loadData] before it creates the status
    bar item. *)
Theorem recording_handlers_do_not_throw (o : Oracle) (w : World) (e : JsError) :
  (forall i, isSettingsChange i = false ->
             nothrow (handler i) /\ snd (exec o (handler i) w) = Ok tt)
  /\ (forall value,
         o _ (SaveData {| openaiApiKey := value;
                          enableTranscription := enableTranscription (settings w) |})
         = Err e ->
         snd (exec o (handler (ChangeApiKey value)) w) = Err e)
  /\ (forall value,
         o _ (SaveData {| openaiApiKey := openaiApiKey (settings w);
                          enableTranscription := value |})
         = Err e ->
         snd (exec o (handler (ChangeEnable value)) w) = Err e)
  /\ (o _ LoadData = Err e -> exec o onload w = (logs [ELoadData] w, Err e)).
Proof.
  split; [|split; [|split]].
  - intros i Hi. split; [now apply nothrow_handler|].
    destruct (nothrow_exec o w (nothrow_handler i Hi)) as [[] H]. exact H.
  - intros value H. cbn. now rewrite H.
  - intros value H. cbn. now rewrite H.
  - intros H. unfold onload, loadSettings. cbn. now rewrite H.
Qed.

Lemma recording_handlers_do_not_throw_witness :
  snd (exec (Sample.rejecting (fun _ => true) (Error "offline"))
         (handler RecorderStopped) Sample.stopped)
  = Ok tt
  /\ snd (exec (Sample.rejecting (fun _ => true) (Error "offline"))
            (handler (ChangeApiKey "sk-3")) Sample.idle)
     = Err (Error "offline")
  /\ exec (Sample.rejecting (fun _ => true) (Error "offline")) onload Sample.idle
     = (logs [ELoadData] Sample.idle, Err (Error "offline")).
Proof.
  split; [|split].
  - exact (proj2 (proj1 (recording_handlers_do_not_throw
                           (Sample.rejecting (fun _ => true) (Error "offline"))
                           Sample.stopped (Error "offline"))
                        RecorderStopped eq_refl)).
  - exact (proj1 (proj2 (recording_handlers_do_not_throw
                           (Sample.rejecting (fun _ => true) (Error "offline"))
                           Sample.idle (Error "offline")))
                 "sk-3" eq_refl).
  - exact (proj2 (proj2 (proj2 (recording_handlers_do_not_throw
                                  (Sample.rejecting (fun _ => true) (Error "offline"))
                                  Sample.idle (Error "offline"))))
                 eq_refl).
Defined.

(** ** Relations that depend on the settings and the session only *)

Section Framed.

Variable R : World -> World -> Prop.
Hypothesis R_refl : forall w, R w w.
Hypothesis R_frame :
  forall w0 w w',
    settings w' = settings w -> recordingState w' = recordingState w ->
    R w0 w -> R w0 w'.

Lemma wp_of_run_sync {A : Type} (p : Prog A)
  (Q : Result A -> World -> World -> Prop) :
  forall w0 w,
    match snd (run_sync p w) with
    | Done r => Q r w0 (fst (run_sync p w))
    | Waiting c k =>
        R w0 (fst (run_sync p w)) /\ forall r w1, wp R (k r) Q w1 w1
    end ->
    wp R p Q w0 w.
Proof.
  induction p as [a|e|k IH|w' k IH|X c k IH]; intros w0 w;
    cbn [wp run_sync fst snd]; auto.
Qed.

Lemma framed_await {X : Type} (c : ExtCall X) : stable R (await c).
Proof.
  intros Q w0 w HR HQ. cbn [await wp]. split.
  - now apply (R_frame (w := w)).
  - intros [v|e] w1; cbn; apply HQ; apply R_refl.
Qed.

Lemma framed_modify (f : World -> World) :
  (forall w, settings (f w) = settings w) ->
  (forall w, recordingState (f w) = recordingState w) ->
  stable R (modify f).
Proof.
  intros Hs Hr Q w0 w HR HQ. cbn. apply HQ. apply (R_frame (w := w)); auto.
Qed.

Lemma framed_editor_call {B : Type} (evs : Editor -> list Event)
  (f : Editor -> B * Editor) : stable R (editor_call evs f).
Proof.
  intros Q w0 w HR HQ. unfold editor_call. cbn [wp].
  destruct (activeLeaf (host w)) as [[vt [ed|]]|]; cbn [wp]; auto.
  destruct (ed_fault ed); cbn [wp]; auto.
  apply HQ. now apply (R_frame (w := w)).
Qed.

Lemma framed_new_MediaRecorder (s : MediaStream) (type : string) (bits : Z) :
  stable R (new_MediaRecorder s type bits).
Proof.
  intros Q w0 w HR HQ. unfold new_MediaRecorder. cbn [wp].
  destruct (recorderFault (host w)); cbn [wp]; auto.
  apply HQ. now apply (R_frame (w := w)).
Qed.

Ltac framed_step :=
  first
    [ match goal with
      | H : _ |- stable R _ => solve [apply H]
      end
    | apply stable_ret
    | apply stable_throw
    | apply framed_await
    | apply stable_gets
    | apply framed_editor_call
    | apply framed_modify; intros; reflexivity
    | apply stable_bind; [|intros]
    | apply stable_try_catch; [|intros]
    | match goal with
      | |- stable R (match ?x with _ => _ end) => destruct x
      end
    ].

Lemma framed_insertTextToEditor (text : string) :
  stable R (insertTextToEditor text).
Proof.
  unfold insertTextToEditor, editor_getCursor, editor_replaceRange,
    editor_setCursor, Notice, console_error, emit.
  repeat framed_step.
Qed.

Lemma framed_saveToNote (b : Blob) : stable R (saveToNote b).
Proof.
  pose proof framed_insertTextToEditor.
  unfold saveToNote, saveAudioFile, Blob_arrayBuffer, Notice, console_error, emit.
  repeat framed_step.
Qed.

Lemma framed_transcribeToNote (b : Blob) : stable R (transcribeToNote b).
Proof.
  pose proof framed_insertTextToEditor.
  unfold transcribeToNote, transcribeAudio, Blob_arrayBuffer, Notice,
    console_error, emit.
  repeat framed_step.
Qed.

Lemma framed_updateStatusBar : stable R updateStatusBar.
Proof.
  unfold updateStatusBar, statusBar_setText, setTimeout, Date_now, emit.
  repeat framed_step.
Qed.

Lemma framed_saveSettings : stable R saveSettings.
Proof. unfold saveSettings. repeat framed_step. Qed.

(** The changes of the session: a stop, the fragments cleared, a fragment
    appended, and the session a settled microphone request leaves. *)
Hypothesis R_session :
  forall w0 w rs,
    rs = set_isRecording false (recordingState w)
    \/ rs = set_audioChunks [] (recordingState w)
    \/ (exists d, rs = set_audioChunks (audioChunks (recordingState w) ++ [d])%list
                         (recordingState w)) ->
    R w0 w -> R w0 (set_recordingState rs w).
Hypothesis R_start :
  forall r w,
    R w (set_recordingState (sessionAfterStart r (host w) (recordingState w)) w).

Lemma framed_update (f : RecordingState -> RecordingState) :
  (forall w,
      f (recordingState w) = set_isRecording false (recordingState w)
      \/ f (recordingState w) = set_audioChunks [] (recordingState w)
      \/ (exists d,
             f (recordingState w)
             = set_audioChunks (audioChunks (recordingState w) ++ [d])%list
                 (recordingState w))) ->
  stable R (update_recordingState f).
Proof.
  intros Hf Q w0 w HR HQ. cbn. apply HQ. apply R_session; auto.
Qed.

Lemma framed_processRecording : stable R processRecording.
Proof.
  pose proof framed_saveToNote. pose proof framed_transcribeToNote.
  unfold processRecording, Notice, emit.
  repeat framed_step. apply framed_update. intros w. right. now left.
Qed.

Lemma framed_stopRecording : stable R stopRecording.
Proof.
  unfold stopRecording, recorder_stop, tracks_stop, statusBar_setText, Notice,
    emit.
  repeat framed_step; try (apply framed_update; intros w; now left).
Qed.

Lemma framed_startRecording : respects R startRecording.
Proof.
  destruct startRecording_resumes as (k & Hwait & Hsettle).
  intros w. apply wp_of_run_sync.
  destruct (isRecording (recordingState w)) eqn:Hrec.
  - unfold startRecording. cbn [run_sync bind gets]. rewrite Hrec. cbn.
    now apply (R_frame (w := w)).
  - rewrite (Hwait w Hrec). cbn [fst snd]. split.
    + now apply (R_frame (w := w)).
    + intros r w1. apply wp_of_run_sync.
      destruct (Hsettle r w1) as (Hdone & Hrs & Hs & _). rewrite Hdone.
      apply (R_frame (w := set_recordingState
                             (sessionAfterStart r (host w1) (recordingState w1))
                             w1)); auto.
Qed.

Lemma framed_handler (i : Input) :
  isSettingsChange i = false -> respects R (handler i).
Proof.
  pose proof framed_processRecording. pose proof framed_stopRecording.
  pose proof framed_updateStatusBar.
  destruct i as [|data| | | | |]; cbn [isSettingsChange handler]; intros Hi;
    try discriminate.
  - intros w. unfold toggleRecording. cbn [bind gets wp].
    destruct (isRecording (recordingState w)).
    + now apply stable_respects.
    + apply framed_startRecording.
  - apply stable_respects; [exact R_refl|]. unfold ondataavailable.
    destruct data as [d|]; [|apply stable_ret].
    destruct (Nat.ltb 0 (blob_size d)); [|apply stable_ret].
    apply framed_update. intros w. right. right. now exists d.
  - now apply stable_respects.
  - apply stable_respects; [exact R_refl|]. unfold onTimeout.
    repeat framed_step.
  - apply stable_respects; [exact R_refl|]. unfold onunload.
    repeat framed_step.
Qed.

(** *** The event loop *)

Variable exempt : Input -> bool.
Hypothesis exempt_park :
  forall i w,
    exempt i = true ->
    match snd (run_sync (handler i) w) with
    | Waiting c k => forall r, respects R (k r)
    | Done _ => True
    end.
Hypothesis handlers_respect :
  forall i, exempt i = false -> respects R (handler i).

Lemma framed_step_tasks (s s' : System) (l : Label) :
  Forall (task_respects R) (sys_tasks s) ->
  step s l s' ->
  Forall (task_respects R) (sys_tasks s').
Proof.
  intros Ht Hstep. destruct Hstep as [s i|s pre post X c k r E|s h].
  - destruct (exempt i) eqn:Hex.
    + pose proof (exempt_park (sys_world s) Hex) as Hp.
      unfold spawn. cbn [sys_tasks].
      destruct (snd (run_sync (handler i) (sys_world s))) as [r|X c k];
        [exact Ht|].
      apply Forall_app. split; [exact Ht|]. constructor; [exact Hp|constructor].
    + now apply spawn_respects; [apply handlers_respect|].
  - rewrite E in Ht. apply Forall_app in Ht as [Hpre Hpost].
    apply Forall_cons_iff in Hpost as [Hk Hpost].
    apply spawn_respects; [apply Hk|].
    cbn [sys_tasks]. apply Forall_app. now split.
  - exact Ht.
Qed.

Lemma framed_reachable_tasks (s : System) :
  reachable s -> Forall (task_respects R) (sys_tasks s).
Proof.
  induction 1 as [s [_ Hinit]|s s' l _ IH Hstep].
  - rewrite Hinit. constructor.
  - eapply framed_step_tasks; eauto.
Qed.

Lemma framed_step_respects (s s' : System) (l : Label) :
  reachable s ->
  step s l s' ->
  (forall i, l = LInput i -> exempt i = false) ->
  R (sys_world s) (sys_world s').
Proof.
  intros Hreach Hstep Hl. pose proof (framed_reachable_tasks Hreach) as Ht.
  destruct Hstep as [s i|s pre post X c k r E|s h].
  - apply spawn_respects; [|exact Ht]. apply handlers_respect. now apply Hl.
  - rewrite E in Ht. apply Forall_app in Ht as [Hpre Hpost].
    apply Forall_cons_iff in Hpost as [Hk Hpost].
    apply (@spawn_respects R (k r)
             {| sys_world := sys_world s; sys_tasks := (pre ++ post)%list |});
      [apply Hk|].
    cbn [sys_tasks]. apply Forall_app. now split.
  - cbn [sys_world]. apply (R_frame (w := sys_world s)); auto.
Qed.

End Framed.

(** The callbacks of the settings tab leave the session alone, and what
    they park only returns or rethrows. *)
Lemma settings_handlers_run (i : Input) (w : World) :
  isSettingsChange i = true ->
  recordingState (fst (run_sync (handler i) w)) = recordingState w
  /\ forall R : World -> World -> Prop,
       (forall w', R w' w') ->
       match snd (run_sync (handler i) w) with
       | Waiting c k => forall r, respects R (k r)
       | Done _ => True
       end.
Proof.
  destruct i; cbn [isSettingsChange]; intros Hi; try discriminate;
    (split; [reflexivity|]); intros R Hrefl; cbn;
    intros [v|e] w'; cbn; apply Hrefl.
Qed.

(** ** The session stays coherent *)

Lemma coherent_sessionAfterStart (r : Result MediaStream) (h : Host)
  (before : RecordingState) :
  coherent before -> coherent (sessionAfterStart r h before).
Proof.
  intros Hb. destruct r as [s|e]; [|exact Hb].
  unfold sessionAfterStart, coherent.
  cbn [mimeType isRecording stream mediaRecorder]. split; [|split].
  - apply in_map, negotiated_in_options.
  - discriminate.
  - intros r Hr. destruct (recorderFault h); [discriminate|].
    injection Hr as <-. cbn. auto.
Qed.

Lemma keepsCoherent_handler (i : Input) :
  isSettingsChange i = false -> respects keepsCoherent (handler i).
Proof.
  apply framed_handler.
  - intros w H. exact H.
  - unfold keepsCoherent. intros w0 w w' _ E H Hc. rewrite E. auto.
  - unfold keepsCoherent. intros w0 w rs Hrs H Hc. specialize (H Hc).
    cbn [recordingState set_recordingState].
    destruct Hrs as [->|[->|[d ->]]]; [|exact H|exact H].
    destruct H as (H1 & H2 & H3). split; [exact H1|].
    split; [discriminate|exact H3].
  - unfold keepsCoherent. intros r w. cbn [recordingState set_recordingState].
    apply coherent_sessionAfterStart.
Qed.

(** X14. In every reachable state of the plugin, whatever the
    interleaving, the session is coherent: its type is one of the types of
    [formatOptions]; a session flagged as recording holds a stream; and the
    recorder, if there is one, was built on the session's stream, with the
    session's type, at 64000 bits per second. *)
Theorem session_stays_coherent (s : System) :
  reachable s -> coherent (recordingState (sys_world s)).
Proof.
  assert (Hrefl : forall w, keepsCoherent w w) by (intros w H; exact H).
  assert (Hframe : forall w0 w w',
             settings w' = settings w -> recordingState w' = recordingState w ->
             keepsCoherent w0 w -> keepsCoherent w0 w').
  { unfold keepsCoherent. intros w0 w w' _ E H Hc. rewrite E. auto. }
  induction 1 as [s [Hinit _]|s s' l Hreach IH Hstep].
  - rewrite Hinit. unfold coherent, new_RecordingState. cbn.
    split; [auto|]. split; discriminate.
  - destruct l as [i| |].
    + destruct (isSettingsChange i) eqn:Hi.
      * inversion Hstep; subst. unfold spawn. cbn [sys_world].
        now rewrite (proj1 (settings_handlers_run i (sys_world s) Hi)).
      * refine (@framed_step_respects keepsCoherent Hrefl Hframe isSettingsChange
                  _ keepsCoherent_handler s s' (LInput i) Hreach Hstep _ IH).
        -- intros i' w Hi'. now apply (settings_handlers_run i' w Hi').
        -- now intros i' [= <-].
    + refine (@framed_step_respects keepsCoherent Hrefl Hframe isSettingsChange
                _ keepsCoherent_handler s s' LResume Hreach Hstep _ IH).
      * intros i' w Hi'. now apply (settings_handlers_run i' w Hi').
      * discriminate.
    + refine (@framed_step_respects keepsCoherent Hrefl Hframe isSettingsChange
                _ keepsCoherent_handler s s' LHost Hreach Hstep _ IH).
      * intros i' w Hi'. now apply (settings_handlers_run i' w Hi').
      * discriminate.
Qed.

Lemma session_stays_coherent_witness :
  coherent (recordingState (sys_world Overlap.secondRecording)).
Proof.
  apply session_stays_coherent.
  unfold Overlap.secondRecording.
  apply reachable_input, reachable_resumeAt, reachable_input,
    reachable_hostChange, reachable_transcribing.
Defined.

(** ** The settings change in the settings tab only *)

Lemma keepsSettings_handler (i : Input) :
  isSettingsChange i = false -> respects keepsSettings (handler i).
Proof.
  apply framed_handler; unfold keepsSettings.
  - reflexivity.
  - intros w0 w w' E _ H. now rewrite E.
  - intros w0 w rs _ H. exact H.
  - reflexivity.
Qed.

(** X15. The settings change in the settings tab only.  A step that is a
    change of the key or of the switch sets that field and keeps the other;
    every other step (another input, the rest of a handler resumed after an
    await, a change of the host) leaves the settings as they are. *)
Theorem settings_change_in_the_tab_only (s s' : System) (l : Label) :
  reachable s ->
  step s l s' ->
  settings (sys_world s')
  = match l with
    | LInput (ChangeApiKey value) =>
        {| openaiApiKey := value;
           enableTranscription := enableTranscription (settings (sys_world s)) |}
    | LInput (ChangeEnable value) =>
        {| openaiApiKey := openaiApiKey (settings (sys_world s));
           enableTranscription := value |}
    | _ => settings (sys_world s)
    end.
Proof.
  intros Hreach Hstep.
  assert (Hkeep : (forall i, l = LInput i -> isSettingsChange i = false) ->
                  settings (sys_world s') = settings (sys_world s)).
  { refine (@framed_step_respects keepsSettings _ _ isSettingsChange
              _ keepsSettings_handler s s' l Hreach Hstep); unfold keepsSettings.
    - reflexivity.
    - intros w0 w w' E _ H. now rewrite E.
    - intros i w Hi. now apply (settings_handlers_run i w Hi). }
  destruct l as [i| |]; try (apply Hkeep; discriminate).
  destruct i; try (apply Hkeep; now intros i' [= <-]);
    inversion Hstep; subst; reflexivity.
Qed.

Lemma settings_change_in_the_tab_only_witness :
  settings (sys_world Overlap.lateClear)
  = settings (sys_world Overlap.secondRecording).
Proof.
  refine (@settings_change_in_the_tab_only Overlap.secondRecording
            Overlap.lateClear LResume _ _).
  - unfold Overlap.secondRecording.
    apply reachable_input, reachable_resumeAt, reachable_input,
      reachable_hostChange, reachable_transcribing.
  - apply resumeAt_step. vm_compute. lia.
Defined.

(** ** The status bar timer *)

(** X16. The callback of the status bar timer ends at once and touches
    neither the session nor the settings.  While the session is recording it
    shows the whole seconds elapsed since the start and, if the status bar
    item exists, schedules itself once more.  When the session is not
    recording it does nothing: a tick that comes after a stop leaves the
    status bar as [stopRecording] set it. *)
Theorem status_bar_tick (w : World) :
  let w' := fst (run_sync onTimeout w) in
  snd (run_sync onTimeout w) = Done (Ok tt)
  /\ recordingState w' = recordingState w
  /\ settings w' = settings w
  /\ (isRecording (recordingState w) = false -> w' = w)
  /\ (isRecording (recordingState w) = true ->
      statusBarItem w'
      = withText ("🔴 Recording "
                  ++ Str.ofZ ((now (host w) - startTime (recordingState w)) / 1000)
                  ++ "s")
          (statusBarItem w)
      /\ trace w'
         = (trace w ++ match statusBarItem w with
                       | Some _ => [ESetTimeout 1000]
                       | None => []
                       end)%list
      /\ fst (run_sync onTimeout (fst (run_sync stopRecording w)))
         = fst (run_sync stopRecording w)).
Proof.
  cbn zeta. unfold onTimeout, updateStatusBar, withText.
  cbn [run_sync bind gets].
  destruct (isRecording (recordingState w)) eqn:Hrec.
  - rewrite (stopRecording_run w Hrec). cbn [fst].
    destruct (statusBarItem w) as [item|] eqn:Hitem;
      repeat (cbn; rewrite ?Hitem, ?Hrec); rewrite ?app_nil_r;
      (split; [reflexivity|]); (split; [reflexivity|]); (split; [reflexivity|]);
      (split; [discriminate|]); intros _;
      (split; [reflexivity|]); (split; reflexivity).
  - cbn. (split; [reflexivity|]). (split; [reflexivity|]). (split; [reflexivity|]).
    split; [reflexivity|discriminate].
Qed.

Lemma status_bar_tick_witness :
  statusBarItem (fst (run_sync onTimeout Sample.recording))
  = Some "🔴 Recording 1s"
  /\ fst (run_sync onTimeout Sample.idle) = Sample.idle.
Proof.
  split.
  - exact (proj1 (proj2 (proj2 (proj2 (proj2 (status_bar_tick Sample.recording))))
                    eq_refl)).
  - exact (proj1 (proj2 (proj2 (proj2 (status_bar_tick Sample.idle)))) eq_refl).
Defined.

(** ** The key of the request *)

(** X17. [transcribeAudio] tests the key and draws the boundary before it
    reads the blob, and reads the key again when it builds the request:
    resumed in a world [w1], it sends the body made with the boundary of the
    world it was started in, and in the header the key of [w1]. *)
Theorem transcription_key_is_read_late (w : World) (audioBlob : Blob) :
  openaiApiKey (settings w) <> "" ->
  let boundary := "----formdata-obsidian-" ++ random36 (host w) in
  exists k,
    run_sync (transcribeAudio audioBlob) w
    = (logs [EArrayBuffer audioBlob] w, Waiting (ArrayBuffer audioBlob) k)
    /\ forall w1,
         fst (run_sync (k (Ok tt)) w1)
         = logs [ERequestUrl
                   (transcriptionRequest (openaiApiKey (settings w1)) boundary
                      (Multipart.body boundary
                         (uploadFilename (blob_type audioBlob))
                         (blob_type audioBlob) (blob_data audioBlob)))] w1.
Proof.
  intros Hkey. apply truthy_nonempty in Hkey. cbn zeta.
  unfold transcribeAudio, Blob_arrayBuffer, await.
  cbn [run_sync bind gets]. rewrite Hkey. cbn [negb run_sync bind gets].
  eexists. split; [reflexivity|]. intros w1.
  cbn [bind]. rewrite formDataBuffer_body. reflexivity.
Qed.

Lemma transcription_key_is_read_late_witness :
  exists k,
    run_sync (transcribeAudio Sample.blob) Sample.idle
    = (logs [EArrayBuffer Sample.blob] Sample.idle,
       Waiting (ArrayBuffer Sample.blob) k)
    /\ fst (run_sync (k (Ok tt))
              (set_settings {| openaiApiKey := ""; enableTranscription := true |}
                 Sample.idle))
       = logs [ERequestUrl
                 (transcriptionRequest ""
                    ("----formdata-obsidian-" ++ random36 Sample.theHost)
                    (Multipart.body
                       ("----formdata-obsidian-" ++ random36 Sample.theHost)
                       (uploadFilename (blob_type Sample.blob))
                       (blob_type Sample.blob) (blob_data Sample.blob)))]
            (set_settings {| openaiApiKey := ""; enableTranscription := true |}
               Sample.idle).
Proof.
  destruct (@transcription_key_is_read_late Sample.idle Sample.blob)
    as (k & Hrun & Hreq); [discriminate|].
  exists k. split; [exact Hrun|apply Hreq].
Defined.

(** ** What a stop takes from the session *)

(** A program that does not await runs at once as it does to its end. *)
Lemma run_sync_exec {A : Type} (o : Oracle) (p : Prog A) :
  forall w r,
    snd (run_sync p w) = Done r ->
    run_sync p w = (fst (exec o p w), Done (snd (exec o p w))).
Proof.
  induction p as [a|e|k IH|w' k IH|X c k IH]; intros w r;
    cbn [run_sync exec fst snd]; eauto; discriminate.
Qed.

Lemma run_sync_bind_done {A B : Type} (p : Prog A) (f : A -> Prog B) :
  forall w a,
    snd (run_sync p w) = Done (Ok a) ->
    run_sync (bind p f) w = run_sync (f a) (fst (run_sync p w)).
Proof.
  induction p as [a0|e|k IH|w' k IH|X c k IH]; intros w a;
    cbn [run_sync bind fst snd]; eauto; try discriminate.
  now intros [= ->].
Qed.

Lemma insertTextToEditor_sync (text : string) (w : World) :
  snd (run_sync (insertTextToEditor text) w) = Done (Ok tt).
Proof. unfold insertTextToEditor. exec_cases; reflexivity. Qed.

(** X22. [processRecording] takes the fragments and the type from the
    session, and the path from the host, when it starts: the blob it reads,
    the file it creates once the blob is read and the link it inserts once
    the file is created are those of the world it started in, whatever the
    worlds it is resumed in. *)
Theorem processRecording_snapshot (w : World) :
  audioChunks (recordingState w) <> [] ->
  let audioBlob :=
    newBlob (audioChunks (recordingState w)) (mimeType (recordingState w)) in
  let path := audioFilePath (host w) audioBlob in
  exists k,
    run_sync processRecording w
    = (logs [EArrayBuffer audioBlob] w, Waiting (ArrayBuffer audioBlob) k)
    /\ forall w1,
         exists k',
           run_sync (k (Ok tt)) w1
           = (logs [ECreateBinary path (blob_data audioBlob)] w1,
              Waiting (CreateBinary path (blob_data audioBlob)) k')
           /\ forall w2 ed,
                readyEditor (host w2) = Some ed ->
                steps (trace (fst (run_sync (k' (Ok tt)) w2)))
                = (steps (trace w2)
                   ++ [InsertText ("### Voice Note" ++ Str.LF
                                   ++ markdownLink (host w) audioBlob
                                   ++ Str.LF)])%list.
Proof.
  intros Hne. cbn zeta. unfold processRecording. cbn [run_sync bind gets].
  destruct (audioChunks (recordingState w)) as [|c cs] eqn:Hc; [contradiction|].
  cbn [List.length Nat.eqb]. rewrite <- Hc.
  unfold saveToNote, saveAudioFile, Blob_arrayBuffer, await.
  cbn [run_sync bind try_catch gets]. eexists. split; [reflexivity|].
  intros w1. cbn [run_sync bind try_catch]. eexists. split; [reflexivity|].
  intros w2 ed Hready. cbn [bind try_catch].
  rewrite (run_sync_bind_done _ _ _ (insertTextToEditor_sync _ w2)).
  rewrite (run_sync_exec Sample.fulfilled _ _ (insertTextToEditor_sync _ w2)).
  cbn [fst].
  destruct (insertTextToEditor_steps Sample.fulfilled
              (voiceNoteText
                 (markdownLink (host w)
                    (newBlob (audioChunks (recordingState w))
                       (mimeType (recordingState w)))))
              w2) as [Hsteps _].
  destruct (insertTextToEditor_frame Sample.fulfilled
              (voiceNoteText
                 (markdownLink (host w)
                    (newBlob (audioChunks (recordingState w))
                       (mimeType (recordingState w)))))
              w2) as (Hs & _).
  rewrite (@voiceNote_insertion _ _ _ ed Hready) in Hsteps.
  set (w3 := fst (exec Sample.fulfilled (insertTextToEditor _) w2)) in *.
  unfold transcribeToNote, transcribeAudio, Blob_arrayBuffer, await.
  cbn [run_sync bind gets].
  destruct (enableTranscription (settings w3)
            && Str.truthy (openaiApiKey (settings w3)))%bool eqn:Hguard.
  - apply andb_prop in Hguard as [_ Hkey].
    cbn [run_sync bind gets try_catch Notice emit modify settings log].
    rewrite Hkey. cbn [negb run_sync bind gets try_catch fst trace log].
    rewrite !steps_app, Hsteps. cbn. now rewrite !app_nil_r.
  - cbn. exact Hsteps.
Qed.

Lemma processRecording_snapshot_witness :
  exists k,
    run_sync processRecording Sample.stopped
    = (logs [EArrayBuffer Sample.blob] Sample.stopped,
       Waiting (ArrayBuffer Sample.blob) k).
Proof.
  destruct (@processRecording_snapshot Sample.stopped) as (k & Hrun & _);
    [discriminate|].
  exists k. exact Hrun.
Defined.

(** ** The events of each handler *)

Section Emits.

Variable allowed : Event -> bool.

Lemma emits_ret {A : Type} (a : A) : emits allowed (Ret a).
Proof. intros o w. exists []. cbn. now rewrite app_nil_r. Qed.

Lemma emits_throw {A : Type} (e : JsError) : emits allowed (@Throw A e).
Proof. intros o w. exists []. cbn. now rewrite app_nil_r. Qed.

Lemma emits_gets {B : Type} (f : World -> B) : emits allowed (gets f).
Proof. intros o w. exists []. cbn. now rewrite app_nil_r. Qed.

Lemma emits_bind {A B : Type} (p : Prog A) (f : A -> Prog B) :
  emits allowed p -> (forall a, emits allowed (f a)) -> emits allowed (bind p f).
Proof.
  intros Hp Hf o w. rewrite exec_bind.
  destruct (Hp o w) as (evs1 & E1 & H1).
  destruct (snd (exec o p w)) as [a|e]; [|exists evs1; auto].
  destruct (Hf a o (fst (exec o p w))) as (evs2 & E2 & H2).
  exists (evs1 ++ evs2)%list. split.
  - now rewrite E2, E1, app_assoc.
  - rewrite forallb_app. now rewrite H1, H2.
Qed.

Lemma emits_try_catch {A : Type} (p : Prog A) (h : JsError -> Prog A) :
  emits allowed p -> (forall e, emits allowed (h e)) ->
  emits allowed (try_catch p h).
Proof.
  intros Hp Hh o w. rewrite exec_try_catch.
  destruct (Hp o w) as (evs1 & E1 & H1).
  destruct (snd (exec o p w)) as [a|e]; [exists evs1; auto|].
  destruct (Hh e o (fst (exec o p w))) as (evs2 & E2 & H2).
  exists (evs1 ++ evs2)%list. split.
  - now rewrite E2, E1, app_assoc.
  - rewrite forallb_app. now rewrite H1, H2.
Qed.

Lemma emits_update (f : World -> World) :
  (forall w, trace (f w) = trace w) -> emits allowed (modify f).
Proof. intros Hf o w. exists []. cbn. now rewrite Hf, app_nil_r. Qed.

Lemma emits_emit (e : Event) : allowed e = true -> emits allowed (emit e).
Proof. intros He o w. exists [e]. cbn. now rewrite He. Qed.

Lemma emits_await {X : Type} (c : ExtCall X) :
  allowed (event_of_call c) = true -> emits allowed (await c).
Proof.
  intros Hc o w. exists [event_of_call c]. cbn.
  destruct (o X c); cbn; now rewrite Hc.
Qed.

Lemma emits_editor_call {B : Type} (evs : Editor -> list Event)
  (f : Editor -> B * Editor) :
  (forall ed, forallb allowed (evs ed) = true) ->
  emits allowed (editor_call evs f).
Proof.
  intros Hevs o w. unfold editor_call. cbn [exec].
  destruct (activeLeaf (host w)) as [[vt [ed|]]|];
    try (exists []; cbn; now rewrite app_nil_r).
  destruct (ed_fault ed); [exists []; cbn; now rewrite app_nil_r|].
  exists (evs ed). cbn. auto.
Qed.

Lemma emits_new_MediaRecorder (s : MediaStream) (type : string) (bits : Z) :
  (forall r, allowed (ENewMediaRecorder r) = true) ->
  emits allowed (new_MediaRecorder s type bits).
Proof.
  intros Hr o w. unfold new_MediaRecorder. cbn [exec].
  destruct (recorderFault (host w)); [exists []; cbn; now rewrite app_nil_r|].
  eexists [_]. cbn. split; [reflexivity|]. now rewrite Hr.
Qed.

Lemma emits_recorder_start (r : MediaRecorder) (t : Z) :
  allowed (ERecorderStart r t) = true -> emits allowed (recorder_start r t).
Proof.
  intros Hr o w. unfold recorder_start. cbn [exec].
  destruct (startFault (host w)); [exists []; cbn; now rewrite app_nil_r|].
  exists [ERecorderStart r t]. cbn. now rewrite Hr.
Qed.

End Emits.

Ltac emits_step :=
  first
    [ apply emits_ret
    | apply emits_throw
    | apply emits_gets
    | apply emits_emit; reflexivity
    | apply emits_await; reflexivity
    | apply emits_update; intros; reflexivity
    | apply emits_editor_call; intros; reflexivity
    | apply emits_new_MediaRecorder; intros; reflexivity
    | apply emits_recorder_start; reflexivity
    | apply emits_bind; [|intros]
    | apply emits_try_catch; [|intros]
    | match goal with
      | |- emits _ (match ?x with _ => _ end) => destruct x
      end
    ].

Lemma emits_stopRecording (i : Input) :
  i = Click \/ i = Unload -> emits (footprint i) stopRecording.
Proof.
  intros [-> | ->];
    unfold stopRecording, update_recordingState, recorder_stop, tracks_stop,
      statusBar_setText, Notice;
    repeat emits_step.
Qed.

Lemma emits_updateStatusBar (i : Input) :
  i = Click \/ i = Timeout -> emits (footprint i) updateStatusBar.
Proof.
  intros [-> | ->];
    unfold updateStatusBar, statusBar_setText, setTimeout, Date_now;
    repeat emits_step.
Qed.

Lemma emits_startRecording : emits (footprint Click) startRecording.
Proof.
  pose proof (emits_updateStatusBar (or_introl eq_refl)) as Hbar.
  unfold startRecording, update_recordingState, Date_now, Notice, console_error.
  repeat first [exact Hbar | emits_step].
Qed.

Lemma emits_processRecording : emits (footprint RecorderStopped) processRecording.
Proof.
  unfold processRecording, saveToNote, transcribeToNote, saveAudioFile,
    transcribeAudio, insertTextToEditor, Blob_arrayBuffer, editor_getCursor,
    editor_replaceRange, editor_setCursor, update_recordingState, Notice,
    console_error.
  repeat emits_step.
Qed.

(** X21. Run to its end, each handler adds to the trace, which it only
    extends, events of its own kinds: a click those of a start and of a stop
    (notices, console errors, the microphone request, the recorder, the
    tracks, the timer), a fragment arrival none, the recorder's stop event
    those of saving, transcribing and inserting, a tick the timer, the
    settings tab [saveData], an unload those of a stop.  So only the
    recorder's stop event writes to the vault, to the note or to the
    endpoint. *)
Theorem handlers_keep_to_their_events (i : Input) (o : Oracle) (w : World) :
  exists evs,
    trace (fst (exec o (handler i) w)) = (trace w ++ evs)%list
    /\ forallb (footprint i) evs = true.
Proof.
  revert o w. change (emits (footprint i) (handler i)).
  pose proof emits_startRecording. pose proof emits_processRecording.
  pose proof (emits_stopRecording (or_introl eq_refl)) as HstopC.
  pose proof (emits_stopRecording (or_intror eq_refl)) as HstopU.
  pose proof (emits_updateStatusBar (or_intror eq_refl)) as Hbar.
  destruct i; cbn [handler];
    unfold toggleRecording, ondataavailable, onstop, onTimeout, onChangeApiKey,
      onChangeEnable, saveSettings, onunload, update_recordingState;
    repeat first [assumption | emits_step].
Qed.

(** ** A whole recording *)

Lemma feed_run (ds : list Blob) :
  forall s,
    Forall (fun d => 0 < blob_size d) ds ->
    sys_tasks (feed ds s) = sys_tasks s
    /\ recordingState (sys_world (feed ds s))
       = set_audioChunks (chunksOf s ++ ds)%list (recordingState (sys_world s))
    /\ settings (sys_world (feed ds s)) = settings (sys_world s)
    /\ host (sys_world (feed ds s)) = host (sys_world s)
    /\ trace (sys_world (feed ds s)) = trace (sys_world s)
    /\ statusBarItem (sys_world (feed ds s)) = statusBarItem (sys_world s).
Proof.
  induction ds as [|d ds IH]; intros s Hpos.
  - cbn [feed fold_left]. rewrite app_nil_r. unfold chunksOf.
    destruct (recordingState (sys_world s)); repeat split.
  - apply Forall_cons_iff in Hpos as [Hd Hpos].
    cbn [feed fold_left]. fold (feed ds (input (DataAvailable (Some d)) s)).
    destruct (IH (input (DataAvailable (Some d)) s) Hpos)
      as (Ht & Hrs & Hs & Hh & Htr & Hsb).
    rewrite Ht, Hrs, Hs, Hh, Htr, Hsb.
    unfold input, spawn, chunksOf. cbn [handler sys_world sys_tasks].
    rewrite ondataavailable_run. cbn [fst snd]. unfold accepted.
    apply Nat.ltb_lt in Hd. rewrite Hd.
    cbn [recordingState set_recordingState audioChunks set_audioChunks settings
         host trace statusBarItem].
    rewrite <- app_assoc. repeat split.
Qed.

(** X23. A whole recording.  From an idle session, a click, the
    microphone granted, fragments of positive size arriving and a second
    click leave no handler waiting, the stream released and a session that
    is no more recording and holds exactly these fragments, in the order
    they arrived.  [processRecording] then saves, at the path computed from
    the host, a file that holds the bytes of the fragments in that order,
    and leaves the fragment sequence empty. *)
Theorem a_recording_is_saved (w : World) (st : MediaStream) (ds : list Blob)
  (o : Oracle) :
  isRecording (recordingState w) = false ->
  recorderFault (host w) = None ->
  startFault (host w) = None ->
  Forall (fun d => 0 < blob_size d) ds ->
  ds <> [] ->
  (forall b, o _ (ArrayBuffer b) = Ok tt) ->
  let stopped :=
    input Click
      (feed ds (resumeAt 0 (granting st) (input Click (quiet w)))) in
  let type := fst (selectFormat (host w) formatOptions ("audio/webm", ".webm")) in
  let done := fst (exec o processRecording (sys_world stopped)) in
  sys_tasks stopped = []
  /\ recordingState (sys_world stopped)
     = set_isRecording false (set_audioChunks ds (freshSession (host w) st))
  /\ In (ETracksStop st) (trace (sys_world stopped))
  /\ (exists rest,
         steps (trace done)
         = (steps (trace w)
            ++ SaveFile (audioFilePath (host w) (newBlob ds type))
                 (List.concat (map blob_data ds))
               :: rest)%list)
  /\ audioChunks (recordingState done) = [].
Proof.
  intros Hidle Hrf Hsf Hpos Hne Hab. cbn zeta.
  destruct startRecording_resumes as (k & Hwait & Hsettle).
  assert (Hclick : input Click (quiet w)
                   = {| sys_world := logs [EGetUserMedia] w;
                        sys_tasks := [MkTask GetUserMedia k] |}).
  { unfold input, spawn, quiet, handler, toggleRecording.
    cbn [sys_world sys_tasks run_sync bind gets]. rewrite Hidle.
    now rewrite (Hwait w Hidle). }
  rewrite Hclick. unfold resumeAt.
  cbn [sys_tasks sys_world nth_error firstn skipn app granting].
  destruct (Hsettle (Ok st) (logs [EGetUserMedia] w))
    as (Hdone & Hrs & Hs & Hh & _ & _ & Hsteps).
  set (started := spawn (k (Ok st)) _).
  assert (Hstarted : sys_tasks started = []
                     /\ sys_world started
                        = fst (run_sync (k (Ok st)) (logs [EGetUserMedia] w))).
  { unfold started, spawn. cbn [sys_world sys_tasks]. now rewrite Hdone. }
  destruct Hstarted as [Htasks Hworld].
  destruct (feed_run started Hpos) as (Ft & Frs & Fs & Fh & Ftr & Fsb).
  unfold chunksOf in Frs. rewrite Hworld in Frs, Fs, Fh, Ftr, Fsb.
  rewrite Hrs in Frs. rewrite Hh in Fh. cbn [logs host recordingState] in Frs, Fh.
  rewrite sessionAfterStart_fresh in Frs by exact Hrf.
  cbn [freshSession audioChunks app] in Frs.
  set (fed := feed ds started) in *.
  assert (Hrec : isRecording (recordingState (sys_world fed)) = true)
    by (rewrite Frs; reflexivity).
  assert (Hstop : input Click fed
                  = {| sys_world := fst (run_sync stopRecording (sys_world fed));
                       sys_tasks := sys_tasks fed |}).
  { unfold input, spawn, handler, toggleRecording.
    cbn [run_sync bind gets]. rewrite Hrec.
    now rewrite (stopRecording_run (sys_world fed) Hrec). }
  rewrite Hstop. cbn [sys_world sys_tasks].
  rewrite (stopRecording_run (sys_world fed) Hrec). cbn [fst].
  split; [now rewrite Ft|].
  split; [cbn [logs set_statusBarItem set_recordingState recordingState];
          now rewrite Frs|].
  split.
  { cbn [logs trace]. apply in_or_app. right.
    unfold releaseEvents. rewrite Frs. cbn. auto. }
  set (w' := logs _ _).
  assert (Hchunks : audioChunks (recordingState w') = ds)
    by (unfold w'; cbn; now rewrite Frs).
  assert (Hmime : mimeType (recordingState w')
                  = fst (selectFormat (host w) formatOptions ("audio/webm", ".webm")))
    by (unfold w'; cbn; now rewrite Frs).
  assert (Hhost : host w' = host w) by (unfold w'; cbn; exact Fh).
  assert (Htrace : steps (trace w') = steps (trace w)).
  { unfold w'. cbn [logs trace set_statusBarItem set_recordingState].
    rewrite steps_app, Ftr, Hsteps. cbn [logs trace].
    rewrite steps_app. unfold releaseEvents.
    destruct (mediaRecorder _), (stream _); cbn; now rewrite !app_nil_r. }
  split.
  - rewrite processRecording_steps by (rewrite Hchunks; exact Hne).
    unfold stepsOnStop. rewrite Hab, Htrace, Hchunks, Hmime, Hhost.
    cbn [app]. eexists. reflexivity.
  - destruct (@wp_exec anything unit o processRecording _ w' w'
                (processRecording_clears w' w')) as [wa H].
    exact H.
Qed.

Lemma a_recording_is_saved_witness :
  exists rest,
    steps
      (trace
         (fst (exec Sample.fulfilled processRecording
                 (sys_world
                    (input Click
                       (feed [Sample.blob; Overlap.blobB]
                          (resumeAt 0 (granting {| stream_id := 7 |})
                             (input Click (quiet Sample.idle)))))))))
    = (steps (trace Sample.idle)
       ++ SaveFile
            (audioFilePath (host Sample.idle)
               (newBlob [Sample.blob; Overlap.blobB]
                  (fst (selectFormat (host Sample.idle) formatOptions
                          ("audio/webm", ".webm")))))
            (List.concat (map blob_data [Sample.blob; Overlap.blobB]))
          :: rest)%list.
Proof.
  refine (proj1 (proj2 (proj2 (proj2
            (@a_recording_is_saved Sample.idle {| stream_id := 7 |}
               [Sample.blob; Overlap.blobB] Sample.fulfilled
               eq_refl eq_refl eq_refl _ _ (fun _ => eq_refl)))))).
  - repeat constructor.
  - discriminate.
Defined.

(** ** Two insertions in a row *)

(** What [insertTextToEditor] does with a markdown editor ready. *)
Lemma insertTextToEditor_ready (o : Oracle) (w : World) (text : string)
  (ed : Editor) :
  blank text = false ->
  readyEditor (host w) = Some ed ->
  exec o (insertTextToEditor text) w
  = (logs [EReplaceRange (Str.trim text ++ Str.LF) (ed_cursor ed);
           ESetCursor
             (line (ed_cursor ed) + List.length (Str.splitLF (Str.trim text))) 0]
       (set_host
          (set_editor
             (EditorModel.setCursor
                (line (ed_cursor ed) + List.length (Str.splitLF (Str.trim text))) 0
                (EditorModel.replaceRange (Str.trim text ++ Str.LF)
                   (ed_cursor ed) ed))
             (host w))
          w),
     Ok tt).
Proof.
  intros Hblank Hready. pose proof (blank_false_truthy _ Hblank) as Htext.
  unfold blank in Hblank.
  apply readyEditor_inv in Hready as [Hleaf Hfault].
  unfold insertTextToEditor. rewrite Htext, Hblank.
  destruct w as [s rs sb h tr]. destruct h as [n iso rnd sup rf sf af al].
  cbn in Hleaf. subst al.
  destruct ed as [lines cur fault]. cbn in Hfault. subst fault.
  cbn. rewrite String.eqb_refl. cbn.
  unfold EditorModel.replaceRange at 1. cbn.
  rewrite splitLF_app_LF, length_app. cbn [List.length].
  replace (line cur + (List.length (Str.splitLF (Str.trim text)) + 1) - 1)
    with (line cur + List.length (Str.splitLF (Str.trim text))) by lia.
  unfold logs, set_host, set_editor. cbn.
  now rewrite app_nil_r, <- app_assoc.
Qed.

Lemma readyEditor_set_editor (h : Host) (ed ed' : Editor) :
  readyEditor h = Some ed ->
  ed_fault ed' = None ->
  readyEditor (set_editor ed' h) = Some ed'.
Proof.
  intros Hready Hfault. apply readyEditor_inv in Hready as [Hleaf _].
  unfold readyEditor, set_editor. cbn [activeLeaf]. rewrite Hleaf.
  rewrite String.eqb_refl. now rewrite Hfault.
Qed.

Lemma substring_none (s : string) : substring 0 0 s = "".
Proof. destruct s; reflexivity. Qed.

Lemma substring_all (s : string) : substring 0 (String.length s) s = s.
Proof.
  induction s as [|a s IH]; [reflexivity|]. cbn [String.length substring].
  now rewrite IH.
Qed.

(** X24. Two insertions in a row, as [processRecording] makes them for
    the file and for the transcription.  With a markdown editor ready and
    the cursor in the document, the lines of the second text come right
    after the lines of the first and before the text that stood after the
    cursor, which ends up on a line of its own; the cursor is at the start of
    that line. *)
Theorem blocks_follow_each_other (o : Oracle) (w : World) (first second : string)
  (ed : Editor) :
  blank first = false ->
  blank second = false ->
  readyEditor (host w) = Some ed ->
  line (ed_cursor ed) < List.length (ed_lines ed) ->
  let cur := ed_cursor ed in
  let curText := nth (line cur) (ed_lines ed) "" in
  let pre := substring 0 (ch cur) curText in
  let post := substring (ch cur) (String.length curText - ch cur) curText in
  let w2 :=
    fst (exec o (insertTextToEditor second)
           (fst (exec o (insertTextToEditor first) w))) in
  exists ed2,
    readyEditor (host w2) = Some ed2
    /\ ed_lines ed2
       = (firstn (line cur) (ed_lines ed)
          ++ EditorModel.prependFirst pre (Str.splitLF (Str.trim first))
          ++ Str.splitLF (Str.trim second)
          ++ [post]
          ++ skipn (S (line cur)) (ed_lines ed))%list
    /\ ed_cursor ed2
       = {| line := line cur + List.length (Str.splitLF (Str.trim first))
                    + List.length (Str.splitLF (Str.trim second));
            ch := 0 |}.
Proof.
  intros Hb1 Hb2 Hready Hvalid. cbn zeta.
  rewrite (@insertTextToEditor_ready o w first ed Hb1 Hready). cbn [fst].
  set (n1 := line (ed_cursor ed) + List.length (Str.splitLF (Str.trim first))).
  set (ed1 := EditorModel.setCursor n1 0
                (EditorModel.replaceRange (Str.trim first ++ Str.LF)
                   (ed_cursor ed) ed)).
  assert (Hfault1 : ed_fault ed1 = None).
  { apply readyEditor_inv in Hready as [_ Hf]. exact Hf. }
  assert (Hready1 : readyEditor
                      (host (logs [EReplaceRange (Str.trim first ++ Str.LF)
                                     (ed_cursor ed);
                                   ESetCursor n1 0]
                               (set_host (set_editor ed1 (host w)) w)))
                    = Some ed1).
  { cbn [logs host set_host]. now apply (@readyEditor_set_editor _ ed ed1 Hready). }
  rewrite (@insertTextToEditor_ready o _ second ed1 Hb2 Hready1).
  cbn [fst logs host set_host].
  set (n2 := line (ed_cursor ed1) + List.length (Str.splitLF (Str.trim second))).
  set (ed2 := EditorModel.setCursor n2 0
                (EditorModel.replaceRange (Str.trim second ++ Str.LF)
                   (ed_cursor ed1) ed1)).
  exists ed2. split; [|split].
  - apply (@readyEditor_set_editor _ ed1 ed2).
    + now apply (@readyEditor_set_editor _ ed ed1 Hready).
    + exact Hfault1.
  - unfold ed2. cbn [EditorModel.setCursor ed_lines].
    rewrite replaceRange_lines.
    assert (Hlines1 : ed_lines ed1
                      = ((firstn (line (ed_cursor ed)) (ed_lines ed)
                          ++ EditorModel.prependFirst
                               (substring 0 (ch (ed_cursor ed))
                                  (nth (line (ed_cursor ed)) (ed_lines ed) ""))
                               (Str.splitLF (Str.trim first)))
                         ++ [substring (ch (ed_cursor ed))
                               (String.length
                                  (nth (line (ed_cursor ed)) (ed_lines ed) "")
                                - ch (ed_cursor ed))
                               (nth (line (ed_cursor ed)) (ed_lines ed) "")]
                         ++ skipn (S (line (ed_cursor ed))) (ed_lines ed))%list).
    { unfold ed1. cbn [EditorModel.setCursor ed_lines].
      rewrite replaceRange_lines. now rewrite <- app_assoc. }
    set (A := (firstn (line (ed_cursor ed)) (ed_lines ed)
               ++ EditorModel.prependFirst _ (Str.splitLF (Str.trim first)))%list)
      in *.
    assert (HlenA : List.length A = n1).
    { unfold A, n1. rewrite length_app, length_firstn, prependFirst_length
        by apply splitLF_nonempty. lia. }
    assert (Hfirst : forall (x : string) B, firstn n1 (A ++ x :: B) = A).
    { intros x B. rewrite firstn_app, HlenA, Nat.sub_diag, firstn_O, app_nil_r.
      apply firstn_all2. lia. }
    assert (Hnth : forall (x : string) B, nth n1 (A ++ x :: B) "" = x).
    { intros x B. rewrite app_nth2 by lia. now rewrite HlenA, Nat.sub_diag. }
    assert (Hskip : forall (x : string) B, skipn (S n1) (A ++ x :: B) = B).
    { intros x B. rewrite skipn_app, HlenA. rewrite skipn_all2 by lia.
      now replace (S n1 - n1) with 1 by lia. }
    assert (Hcur1 : ed_cursor ed1 = {| line := n1; ch := 0 |}) by reflexivity.
    rewrite Hcur1. cbn [line ch]. rewrite Hlines1. cbn [app].
    rewrite Hfirst, Hnth, Hskip.
    rewrite substring_none, Nat.sub_0_r, substring_all.
    pose proof (splitLF_nonempty (Str.trim second)) as Hne.
    destruct (Str.splitLF (Str.trim second)) as [|x xs]; [contradiction|].
    cbn [EditorModel.prependFirst]. unfold A.
    now rewrite <- !app_assoc.
  - unfold ed2, n2. cbn [EditorModel.setCursor ed_cursor]. reflexivity.
Qed.

Lemma blocks_follow_each_other_witness :
  exists ed2,
    readyEditor
      (host (fst (exec Sample.fulfilled (insertTextToEditor " B ")
                    (fst (exec Sample.fulfilled (insertTextToEditor "A")
                            Sample.idle)))))
    = Some ed2
    /\ ed_lines ed2 = ["aA"; "B"; "bc"; "def"]
    /\ ed_cursor ed2 = {| line := 2; ch := 0 |}.
Proof.
  destruct (@blocks_follow_each_other Sample.fulfilled Sample.idle "A" " B "
              Sample.ed eq_refl eq_refl eq_refl)
    as (ed2 & Hready & Hlines & Hcursor); [vm_compute; lia|].
  exists ed2. split; [exact Hready|]. rewrite Hlines, Hcursor.
  split; vm_compute; reflexivity.
Defined.

(** * The transcription guard and the steps of a stop *)

(** ** The two steps of a stop *)

Lemma guard_wanted (s : VoiceNotesSettings) :
  (enableTranscription s && Str.truthy (openaiApiKey s))%bool = true
  <-> transcriptionWanted s.
Proof.
  unfold transcriptionWanted. rewrite andb_true_iff.
  now rewrite truthy_nonempty.
Qed.

(** Lines 231-247, run from the world the first step left. *)
Lemma secondStep_run (b : Blob) (w : World) :
  secondStep b w
    (run_sync (transcribeToNote b ;; update_recordingState (set_audioChunks []))
       w).
Proof.
  unfold transcribeToNote. cbn [run_sync bind gets].
  destruct (enableTranscription (settings w)
            && Str.truthy (openaiApiKey (settings w)))%bool eqn:Hguard.
  - split; [intros _|intros Hno; apply guard_wanted in Hguard; contradiction].
    apply andb_prop in Hguard as [_ Hkey].
    unfold transcribeAudio, Blob_arrayBuffer, await.
    cbn [run_sync bind gets try_catch Notice emit modify settings log].
    rewrite Hkey. cbn [negb run_sync bind gets try_catch].
    eexists. f_equal. same_world.
  - split; [intros Hyes; apply guard_wanted in Hyes; congruence|intros _].
    reflexivity.
Qed.

Lemma saveFailed_logs (e : JsError) (w : World) :
  log (ENotice ("❌ Failed to save audio file: " ++ message e))
      (log (EConsoleError "Failed to save audio file:" e) w)
  = saveFailed e w.
Proof. unfold saveFailed. same_world. Qed.

(** The runs of [processRecording] up to step 2, in whatever worlds it is
    resumed: the blob is read, the file created, the link inserted, and
    step 2 follows; a failure of the first two is shown and step 2 follows
    all the same. *)
Lemma processRecording_segments (w : World) :
  audioChunks (recordingState w) <> [] ->
  let audioBlob := blobOnStop (recordingState w) in
  let path := audioFilePath (host w) audioBlob in
  let link := markdownLink (host w) audioBlob in
  exists k1,
    run_sync processRecording w
    = (logs [EArrayBuffer audioBlob] w, Waiting (ArrayBuffer audioBlob) k1)
    /\ (forall e w1,
           secondStep audioBlob (saveFailed e w1) (run_sync (k1 (Err e)) w1))
    /\ exists k2,
         (forall w1,
             run_sync (k1 (Ok tt)) w1
             = (logs [ECreateBinary path (blob_data audioBlob)] w1,
                Waiting (CreateBinary path (blob_data audioBlob)) k2))
         /\ (forall e w2,
                secondStep audioBlob (saveFailed e w2)
                  (run_sync (k2 (Err e)) w2))
         /\ (forall w2,
                secondStep audioBlob
                  (fst (run_sync (insertTextToEditor (voiceNoteText link)) w2))
                  (run_sync (k2 (Ok tt)) w2)).
Proof.
  intros Hne. cbn zeta.
  unfold processRecording. cbn [run_sync bind gets].
  destruct (audioChunks (recordingState w)) as [|c cs] eqn:Hc; [contradiction|].
  cbn [List.length Nat.eqb]. rewrite <- Hc.
  change (newBlob (audioChunks (recordingState w)) (mimeType (recordingState w)))
    with (blobOnStop (recordingState w)).
  unfold saveToNote, saveAudioFile, Blob_arrayBuffer, await.
  cbn [run_sync bind try_catch gets]. eexists. split; [reflexivity|]. split.
  - intros e w1.
    cbn [run_sync bind try_catch console_error Notice emit modify].
    rewrite saveFailed_logs. apply secondStep_run.
  - eexists. split; [intros w1; cbn [run_sync bind try_catch]; reflexivity|].
    split.
    + intros e w2.
      cbn [run_sync bind try_catch console_error Notice emit modify].
      rewrite saveFailed_logs. apply secondStep_run.
    + intros w2. cbn [bind try_catch].
      rewrite (run_sync_bind_done _ _ _ (insertTextToEditor_sync _ w2)).
      apply secondStep_run.
Qed.




(** ** The credential is a precondition of the transcription *)

Lemma attemptsGuarded_refl (w : World) : attemptsGuarded w w.
Proof.
  split; [reflexivity|]. exists []. rewrite app_nil_r.
  split; [reflexivity|intros []].
Qed.

(** Events other than the attempt's notice may be added freely. *)
Lemma attemptsGuarded_logs (w0 w w' : World) (evs : list Event) :
  ~ In attemptNotice evs ->
  settings w' = settings w ->
  trace w' = (trace w ++ evs)%list ->
  attemptsGuarded w0 w -> attemptsGuarded w0 w'.
Proof.
  intros Hevs Hs Ht (Hs0 & evs0 & Ht0 & Hw). split; [congruence|].
  exists (evs0 ++ evs)%list. split.
  - now rewrite Ht, Ht0, app_assoc.
  - intros Hin. apply in_app_or in Hin as [Hin|Hin]; [auto|contradiction].
Qed.

(** The notice itself may be added when the settings ask for it. *)
Lemma attemptsGuarded_attempt (w0 w : World) :
  transcriptionWanted (settings w) ->
  attemptsGuarded w0 w -> attemptsGuarded w0 (log attemptNotice w).
Proof.
  intros Hwanted (Hs0 & evs0 & Ht0 & Hw). split; [exact Hs0|].
  exists (evs0 ++ [attemptNotice])%list. cbn [log trace]. split.
  - now rewrite Ht0, app_assoc.
  - intros _. now rewrite <- Hs0.
Qed.

Lemma attemptsGuarded_trans (w0 w1 w2 : World) :
  attemptsGuarded w0 w1 -> attemptsGuarded w1 w2 -> attemptsGuarded w0 w2.
Proof.
  intros (Hs1 & evs1 & Ht1 & Hw1) (Hs2 & evs2 & Ht2 & Hw2).
  split; [congruence|]. exists (evs1 ++ evs2)%list. split.
  - now rewrite Ht2, Ht1, app_assoc.
  - intros Hin. apply in_app_or in Hin as [Hin|Hin]; [auto|].
    rewrite <- Hs1. auto.
Qed.

(** Run without interruption, the segments of a run follow each other. *)
Lemma guarded_exec {A : Type} (o : Oracle) (p : Prog A) :
  forall w0 w,
    wp attemptsGuarded p (fun _ => attemptsGuarded) w0 w ->
    attemptsGuarded w0 (fst (exec o p w)).
Proof.
  induction p as [a|e|k IH|w' k IH|X c k IH]; intros w0 w;
    cbn [wp exec fst]; auto.
  intros [H1 H2]. eapply attemptsGuarded_trans; [exact H1|].
  apply IH. apply H2.
Qed.

Lemma guarded_await {X : Type} (c : ExtCall X) :
  stable attemptsGuarded (await c).
Proof.
  intros Q w0 w HR HQ. cbn [await wp]. split.
  - apply (@attemptsGuarded_logs w0 w _ [event_of_call c]);
      [|reflexivity|reflexivity|exact HR].
    intros [H|[]]. destruct c; discriminate H.
  - intros [v|e] w1; cbn; apply HQ; apply attemptsGuarded_refl.
Qed.

Lemma guarded_modify (f : World -> World) :
  (forall w, settings (f w) = settings w) ->
  (forall w, trace (f w) = trace w) ->
  stable attemptsGuarded (modify f).
Proof.
  intros Hs Ht Q w0 w HR HQ. cbn. apply HQ.
  apply (@attemptsGuarded_logs w0 w _ []); auto.
  now rewrite app_nil_r.
Qed.

Lemma guarded_emit (e : Event) :
  e <> attemptNotice -> stable attemptsGuarded (emit e).
Proof.
  intros He Q w0 w HR HQ. cbn. apply HQ.
  apply (@attemptsGuarded_logs w0 w _ [e]); auto.
  intros [H|[]]. now apply He.
Qed.

Lemma guarded_editor_call {B : Type} (evs : Editor -> list Event)
  (f : Editor -> B * Editor) :
  (forall ed, ~ In attemptNotice (evs ed)) ->
  stable attemptsGuarded (editor_call evs f).
Proof.
  intros Hevs Q w0 w HR HQ. unfold editor_call. cbn [wp].
  destruct (activeLeaf (host w)) as [[vt [ed|]]|]; cbn [wp]; auto.
  destruct (ed_fault ed); cbn [wp]; auto.
  apply HQ. now apply (@attemptsGuarded_logs w0 w _ (evs ed)).
Qed.

Lemma guarded_new_MediaRecorder (s : MediaStream) (type : string) (bits : Z) :
  stable attemptsGuarded (new_MediaRecorder s type bits).
Proof.
  intros Q w0 w HR HQ. unfold new_MediaRecorder. cbn [wp].
  destruct (recorderFault (host w)); cbn [wp]; auto.
  apply HQ.
  eapply (@attemptsGuarded_logs w0 w _ [_]);
    [|reflexivity|reflexivity|exact HR].
  intros [H|[]]. discriminate H.
Qed.

Lemma guarded_recorder_start (r : MediaRecorder) (t : Z) :
  stable attemptsGuarded (recorder_start r t).
Proof.
  intros Q w0 w HR HQ. unfold recorder_start. cbn [wp].
  destruct (startFault (host w)); cbn [wp]; auto.
  apply HQ.
  eapply (@attemptsGuarded_logs w0 w _ [_]);
    [|reflexivity|reflexivity|exact HR].
  intros [H|[]]. discriminate H.
Qed.

Ltac guarded_step :=
  first
    [ match goal with
      | H : _ |- stable attemptsGuarded _ => solve [apply H]
      end
    | apply stable_ret
    | apply stable_throw
    | apply guarded_await
    | apply stable_gets
    | apply guarded_emit; unfold attemptNotice; discriminate
    | apply guarded_editor_call; intros ed [H|H]; [discriminate H|destruct H]
    | apply guarded_editor_call; intros ed []
    | apply guarded_new_MediaRecorder
    | apply guarded_recorder_start
    | apply guarded_modify; intros; reflexivity
    | apply stable_bind; [|intros]
    | apply stable_try_catch; [|intros]
    | match goal with
      | |- stable attemptsGuarded (match ?x with _ => _ end) => destruct x
      end
    ].

Lemma guarded_insertTextToEditor (text : string) :
  stable attemptsGuarded (insertTextToEditor text).
Proof.
  unfold insertTextToEditor, editor_getCursor, editor_replaceRange,
    editor_setCursor, Notice, console_error.
  repeat guarded_step.
Qed.

Lemma guarded_saveToNote (b : Blob) : stable attemptsGuarded (saveToNote b).
Proof.
  pose proof guarded_insertTextToEditor.
  unfold saveToNote, saveAudioFile, Blob_arrayBuffer, Notice, console_error.
  repeat guarded_step.
Qed.

(** What follows the notice in step 2 (lines 234-243). *)
Lemma guarded_transcription (b : Blob) :
  stable attemptsGuarded
    (try_catch
       (transcription <- transcribeAudio b ;;
        if Str.truthy transcription then
          insertTextToEditor (transcriptionText transcription) ;;
          Notice "✅ Transcription completed"
        else Ret tt)
       (fun error =>
          console_error "Transcription failed:" error ;;
          Notice ("❌ Transcription failed: " ++ message error))).
Proof.
  pose proof guarded_insertTextToEditor.
  unfold transcribeAudio, Blob_arrayBuffer, Notice, console_error.
  repeat guarded_step.
Qed.

(** Step 2 shows the notice under its guard only. *)
Lemma guarded_transcribeToNote (b : Blob) :
  stable attemptsGuarded (transcribeToNote b).
Proof.
  intros Q w0 w HR HQ. unfold transcribeToNote. cbn [bind gets wp].
  destruct (enableTranscription (settings w)
            && Str.truthy (openaiApiKey (settings w)))%bool eqn:Hguard;
    [|cbn; apply HQ; exact HR].
  apply guard_wanted in Hguard.
  cbn [Notice emit modify bind wp].
  apply guarded_transcription; [|exact HQ].
  now apply attemptsGuarded_attempt.
Qed.

Lemma guarded_processRecording : stable attemptsGuarded processRecording.
Proof.
  pose proof guarded_saveToNote. pose proof guarded_transcribeToNote.
  unfold processRecording, update_recordingState, Notice.
  repeat guarded_step.
Qed.

Lemma guarded_updateStatusBar : stable attemptsGuarded updateStatusBar.
Proof.
  unfold updateStatusBar, statusBar_setText, setTimeout, Date_now.
  repeat guarded_step.
Qed.

Lemma guarded_handler (i : Input) :
  isSettingsChange i = false -> respects attemptsGuarded (handler i).
Proof.
  pose proof guarded_processRecording. pose proof guarded_updateStatusBar.
  intros Hi. apply stable_respects; [exact attemptsGuarded_refl|].
  destruct i; cbn [isSettingsChange handler] in *; try discriminate;
    unfold toggleRecording, startRecording, stopRecording, ondataavailable,
      onstop, onTimeout, onunload, update_recordingState, recorder_stop,
      tracks_stop, statusBar_setText, Date_now, Notice, console_error;
    repeat guarded_step.
Qed.

(** In the event loop: whatever was done before, a step shows the notice
    only in settings that ask for a transcription, and leaves them so. *)
Lemma attempts_in_the_loop (s s' : System) (l : Label) :
  reachable s -> step s l s' ->
  exists evs,
    trace (sys_world s') = (trace (sys_world s) ++ evs)%list
    /\ (In attemptNotice evs ->
        transcriptionWanted (settings (sys_world s))
        /\ settings (sys_world s') = settings (sys_world s)).
Proof.
  intros Hreach Hstep.
  assert (Hpark : forall i w,
             isSettingsChange i = true ->
             match snd (run_sync (handler i) w) with
             | Waiting c k => forall r, respects attemptsGuarded (k r)
             | Done _ => True
             end).
  { intros i w Hi. destruct (@settings_handlers_run i w Hi) as [_ H].
    apply H. exact attemptsGuarded_refl. }
  pose proof (@framed_reachable_tasks attemptsGuarded isSettingsChange Hpark
                guarded_handler s Hreach) as Ht.
  assert (Hout : forall w0 w,
             attemptsGuarded w0 w ->
             exists evs,
               trace w = (trace w0 ++ evs)%list
               /\ (In attemptNotice evs ->
                   transcriptionWanted (settings w0)
                   /\ settings w = settings w0)).
  { intros w0 w (Hs & evs & Htr & Hw). exists evs. auto. }
  destruct Hstep as [s i|s pre post X c k r E|s h].
  - destruct (isSettingsChange i) eqn:Hi.
    + destruct i; try discriminate Hi;
        (eexists [_]; split; [reflexivity|]);
        intros [H|[]]; discriminate H.
    + apply Hout. apply spawn_respects; [|exact Ht]. now apply guarded_handler.
  - rewrite E in Ht. apply Forall_app in Ht as [Hpre Hpost].
    apply Forall_cons_iff in Hpost as [Hk Hpost].
    apply Hout.
    apply (@spawn_respects attemptsGuarded (k r)
             {| sys_world := sys_world s; sys_tasks := (pre ++ post)%list |});
      [apply Hk|].
    cbn [sys_tasks]. apply Forall_app. now split.
  - exists []. cbn [sys_world set_host trace]. rewrite app_nil_r.
    split; [reflexivity|intros []].
Qed.

(** Step 2 under its guard, run to its end: the notice comes first. *)
Lemma transcribeToNote_attempt (o : Oracle) (b : Blob) (w : World) :
  transcriptionWanted (settings w) ->
  exists evs,
    trace (fst (exec o (transcribeToNote b) w))
    = (trace w ++ attemptNotice :: evs)%list.
Proof.
  intros Hwanted. apply guard_wanted in Hwanted.
  unfold transcribeToNote. set (rest := try_catch _ _).
  cbn [exec bind gets]. rewrite Hwanted.
  cbn [Notice emit modify exec bind]. subst rest.
  destruct (@guarded_exec unit o _ (log attemptNotice w) (log attemptNotice w)
              (@stable_respects attemptsGuarded attemptsGuarded_refl _ _
                 (guarded_transcription b) (log attemptNotice w)))
    as (_ & evs & Ht & _).
  exists evs. etransitivity; [exact Ht|].
  cbn [log trace]. now rewrite <- app_assoc.
Qed.

(** An uninterrupted [processRecording] shows the notice exactly when
    fragments are buffered and the settings ask for a transcription. *)
Lemma processRecording_attempt (o : Oracle) (w : World) :
  exists evs,
    trace (fst (exec o processRecording w)) = (trace w ++ evs)%list
    /\ (In attemptNotice evs
        <-> audioChunks (recordingState w) <> []
            /\ transcriptionWanted (settings w)).
Proof.
  unfold processRecording. cbn [exec bind gets].
  destruct (audioChunks (recordingState w)) as [|c cs] eqn:Hc.
  - cbn. eexists [_]. split; [reflexivity|]. split.
    + intros [H|[]]. discriminate H.
    + intros [H _]. now contradiction H.
  - cbn [List.length Nat.eqb]. rewrite <- Hc.
    set (b := newBlob (audioChunks (recordingState w))
                (mimeType (recordingState w))).
    rewrite exec_bind.
    destruct (saveToNote_frame o b w) as (_ & _ & _ & _ & Hok). rewrite Hok.
    destruct (@guarded_exec unit o _ w w
                (@stable_respects attemptsGuarded attemptsGuarded_refl _ _
                   (guarded_saveToNote b) w))
      as (Hs1 & evs1 & Ht1 & Hw1).
    set (w1 := fst (exec o (saveToNote b) w)) in *.
    rewrite exec_bind.
    assert (Hend : forall r : Result unit,
               trace (fst match r with
                          | Ok _ =>
                              exec o (update_recordingState (set_audioChunks []))
                                (fst (exec o (transcribeToNote b) w1))
                          | Err e =>
                              (fst (exec o (transcribeToNote b) w1), Err e)
                          end)
               = trace (fst (exec o (transcribeToNote b) w1))).
    { intros [[]|e]; reflexivity. }
    rewrite Hend. clear Hend.
    destruct (enableTranscription (settings w1)
              && Str.truthy (openaiApiKey (settings w1)))%bool eqn:Hguard.
    + apply guard_wanted in Hguard.
      destruct (@transcribeToNote_attempt o b w1 Hguard) as [evs2 Ht2].
      exists (evs1 ++ attemptNotice :: evs2)%list. split.
      * now rewrite Ht2, Ht1, <- app_assoc.
      * split; [intros _|intros _; apply in_or_app; right; now left].
        split; [rewrite Hc; discriminate|now rewrite <- Hs1].
    + rewrite transcribeToNote_disabled by exact Hguard.
      exists evs1. split; [exact Ht1|]. split.
      * intros Hin. split; [rewrite Hc; discriminate|auto].
      * intros [_ Hwanted]. rewrite <- Hs1 in Hwanted.
        apply guard_wanted in Hwanted. congruence.
Qed.

(** A transcription request in an uninterrupted [processRecording] tells
    that the settings asked for it. *)
Lemma processRecording_request (o : Oracle) (w : World) :
  filter isRequest (trace (fst (exec o processRecording w)))
  <> filter isRequest (trace w) ->
  transcriptionWanted (settings w).
Proof.
  intros Hsent. apply guard_wanted.
  destruct (enableTranscription (settings w)
            && Str.truthy (openaiApiKey (settings w)))%bool eqn:Hguard;
    [reflexivity|].
  exfalso. apply Hsent. clear Hsent.
  unfold processRecording. cbn [exec bind gets].
  destruct (Nat.eqb _ 0).
  - cbn. rewrite filter_app. cbn. now rewrite app_nil_r.
  - rewrite exec_bind.
    destruct (saveToNote_frame o
                (newBlob (audioChunks (recordingState w))
                   (mimeType (recordingState w))) w)
      as (Hs & _ & _ & Ht & Hok).
    rewrite Hok. rewrite exec_bind.
    rewrite transcribeToNote_disabled by (rewrite Hs; exact Hguard).
    cbn. exact Ht.
Qed.

(** C2. A key that is not empty is a precondition of the transcription.
    [transcribeAudio] called with the empty key throws "OpenAI API Key not
    configured" at once, nothing else done.  [processRecording] attempts a
    transcription only when transcription is enabled and the key is not
    empty.  Its step 2, in any world it is reached in, does nothing at all
    unless both hold, and if they do it shows "Transcribing..." and
    [transcribeAudio] starts reading the blob; every run of
    [processRecording] with fragments buffered comes to step 2 this way,
    whatever ran during the awaits of step 1.  An uninterrupted
    [processRecording] shows that notice exactly when fragments are
    buffered and the settings ask for a transcription, and sends a request
    only then.  In the event loop, whatever ran before, a step shows the
    notice only if transcription is enabled and the key is not empty when
    the step begins, and the step leaves the settings as they are. *)
Theorem credential_precondition (audioBlob : Blob) (w : World) :
  (openaiApiKey (settings w) = "" ->
   run_sync (transcribeAudio audioBlob) w
   = (w, Done (Err (Error "OpenAI API Key not configured")))
   /\ forall o,
        exec o (transcribeAudio audioBlob) w
        = (w, Err (Error "OpenAI API Key not configured")))
  /\ (~ transcriptionWanted (settings w) ->
      run_sync (transcribeToNote audioBlob) w = (w, Done (Ok tt))
      /\ forall o, exec o (transcribeToNote audioBlob) w = (w, Ok tt))
  /\ (transcriptionWanted (settings w) ->
      exists k,
        run_sync (transcribeToNote audioBlob) w
        = (logs [attemptNotice; EArrayBuffer audioBlob] w,
           Waiting (ArrayBuffer audioBlob) k))
  /\ (audioChunks (recordingState w) <> [] ->
      let b := blobOnStop (recordingState w) in
      let path := audioFilePath (host w) b in
      let link := markdownLink (host w) b in
      exists k1,
        run_sync processRecording w
        = (logs [EArrayBuffer b] w, Waiting (ArrayBuffer b) k1)
        /\ (forall e w1, secondStep b (saveFailed e w1) (run_sync (k1 (Err e)) w1))
        /\ exists k2,
             (forall w1,
                 run_sync (k1 (Ok tt)) w1
                 = (logs [ECreateBinary path (blob_data b)] w1,
                    Waiting (CreateBinary path (blob_data b)) k2))
             /\ (forall e w2,
                    secondStep b (saveFailed e w2) (run_sync (k2 (Err e)) w2))
             /\ (forall w2,
                    secondStep b
                      (fst (run_sync (insertTextToEditor (voiceNoteText link))
                              w2))
                      (run_sync (k2 (Ok tt)) w2)))
  /\ (forall o,
        exists evs,
          trace (fst (exec o processRecording w)) = (trace w ++ evs)%list
          /\ (In attemptNotice evs
              <-> audioChunks (recordingState w) <> []
                  /\ transcriptionWanted (settings w)))
  /\ (forall o,
        filter isRequest (trace (fst (exec o processRecording w)))
        <> filter isRequest (trace w) ->
        transcriptionWanted (settings w))
  /\ (forall s l s',
        reachable s -> step s l s' ->
        exists evs,
          trace (sys_world s') = (trace (sys_world s) ++ evs)%list
          /\ (In attemptNotice evs ->
              transcriptionWanted (settings (sys_world s))
              /\ settings (sys_world s') = settings (sys_world s))).
Proof.
  split; [|split; [|split; [|split; [|split; [|split]]]]].
  - intros Hkey. unfold transcribeAudio.
    cbn [run_sync exec bind gets]. rewrite Hkey. split; reflexivity.
  - intros Hno.
    assert (Hguard : (enableTranscription (settings w)
                      && Str.truthy (openaiApiKey (settings w)))%bool = false).
    { destruct (_ && _)%bool eqn:Hguard; [|reflexivity].
      apply guard_wanted in Hguard. contradiction. }
    unfold transcribeToNote. cbn [run_sync exec bind gets]. rewrite Hguard.
    split; reflexivity.
  - intros Hwanted. apply guard_wanted in Hwanted.
    unfold transcribeToNote. cbn [run_sync bind gets]. rewrite Hwanted.
    apply andb_prop in Hwanted as [_ Hkey].
    unfold transcribeAudio, Blob_arrayBuffer, await.
    cbn [run_sync bind gets try_catch Notice emit modify settings log].
    rewrite Hkey. cbn [negb run_sync bind gets try_catch].
    eexists. f_equal. same_world.
  - apply processRecording_segments.
  - intros o. apply processRecording_attempt.
  - intros o. apply processRecording_request.
  - intros s l s'. apply attempts_in_the_loop.
Qed.

Lemma credential_precondition_witness :
  run_sync (transcribeAudio Sample.blob) keyCleared
  = (keyCleared, Done (Err (Error "OpenAI API Key not configured")))
  /\ run_sync (transcribeToNote Sample.blob) keyCleared
     = (keyCleared, Done (Ok tt))
  /\ (exists k,
         run_sync (transcribeToNote Sample.blob) Sample.stopped
         = (logs [attemptNotice; EArrayBuffer Sample.blob] Sample.stopped,
            Waiting (ArrayBuffer Sample.blob) k))
  /\ (exists k1,
         run_sync processRecording keyCleared
         = (logs [EArrayBuffer Sample.blob] keyCleared,
            Waiting (ArrayBuffer Sample.blob) k1))
  /\ transcriptionWanted (settings Sample.stopped)
  /\ (exists evs,
         trace (sys_world (resumeAt 0 Sample.fulfilled savingFile))
         = (trace (sys_world savingFile) ++ evs)%list
         /\ (In attemptNotice evs ->
             transcriptionWanted (settings (sys_world savingFile))
             /\ settings (sys_world (resumeAt 0 Sample.fulfilled savingFile))
                = settings (sys_world savingFile))).
Proof.
  assert (Hno : ~ transcriptionWanted (settings keyCleared)).
  { intros [_ Hkey]. now apply Hkey. }
  split; [|split; [|split; [|split; [|split]]]].
  - exact (proj1 (proj1 (credential_precondition Sample.blob keyCleared)
                    eq_refl)).
  - exact (proj1 (proj1 (proj2 (credential_precondition Sample.blob keyCleared))
                    Hno)).
  - apply (proj1 (proj2 (proj2
             (credential_precondition Sample.blob Sample.stopped)))).
    split; [reflexivity|discriminate].
  - destruct (proj1 (proj2 (proj2 (proj2
                (credential_precondition Sample.blob keyCleared))))
                ltac:(discriminate)) as (k1 & Hrun & _).
    exists k1. exact Hrun.
  - apply (proj1 (proj2 (proj2 (proj2 (proj2 (proj2
             (credential_precondition Sample.blob Sample.stopped))))))
             Sample.fulfilled).
    vm_compute. discriminate.
  - apply (proj2 (proj2 (proj2 (proj2 (proj2 (proj2
             (credential_precondition Sample.blob Sample.stopped))))))
             savingFile LResume).
    + unfold savingFile.
      repeat first [apply reachable_resumeAt | apply reachable_input].
      apply reach_initial. split; reflexivity.
    + apply resumeAt_step. vm_compute. lia.
Defined.
